(** * sshm: connection history, manual-connection identifiers, SSH argument
      parsing and the shell-script host deletion

    A shallow embedding of
    - [internal/history] (the history manager, the manual-connection codec
      and the command-line parser), and
    - the [sshm_delete] / [sshm_edit] functions of the bash implementation,
    together with the properties the specification states about them.

    Go strings are byte strings: they are modelled by [string], whose
    characters are the 256 values of [ascii].  Go's [int] is the 64-bit
    two's-complement integer of the supported platforms, modelled in [Z]
    with its wrap-around written out.  A Go [map[string]T] is a
    [gmap string T]. *)

From Stdlib Require Import ZArith Lia Bool List Ascii String.
From stdpp Require Import gmap strings list fin_maps.

Local Open Scope string_scope.
Local Arguments String.append : simpl nomatch.

(** ** The pieces of Go's [strings] package and of string slicing that the
       sources use *)
Module GoStrings.

(** [s[:n]] (the sources only slice at positions they have checked to be in
    range; the model truncates instead of panicking). *)
Fixpoint slice_to (n : nat) (s : string) : string :=
  match n, s with
  | S k, String a r => String a (slice_to k r)
  | _, _ => EmptyString
  end.

(** [s[n:]]. *)
Fixpoint slice_from (n : nat) (s : string) : string :=
  match n, s with
  | S k, String _ r => slice_from k r
  | _, _ => s
  end.

(** The loop [for i := 0; i < len(s); i++ { if s[i] == c { ...; break } }]:
    the first index holding [c]. *)
Fixpoint indexByte (c : ascii) (s : string) : option nat :=
  match s with
  | EmptyString => None
  | String a r => if Ascii.eqb a c then Some 0 else option_map S (indexByte c r)
  end.

(** The loop [for i := len(s)-1; i >= 0; i-- { if s[i] == c { ...; break } }]:
    the last index holding [c]. *)
Fixpoint lastIndexByte (c : ascii) (s : string) : option nat :=
  match s with
  | EmptyString => None
  | String a r =>
      match lastIndexByte c r with
      | Some i => Some (S i)
      | None => if Ascii.eqb a c then Some 0 else None
      end
  end.

(** [strings.Contains(s, string(c))] for a one-byte separator. *)
Definition containsByte (c : ascii) (s : string) : bool :=
  match indexByte c s with Some _ => true | None => false end.

(** [strings.HasPrefix(s, p)]. *)
Definition HasPrefix (s p : string) : bool := String.prefix p s.

(** [strings.SplitN(s, string(c), 2)] on a string that contains [c]: the part
    before the first [c] and the part after it. *)
Definition splitN2 (c : ascii) (s : string) : option (string * string) :=
  match indexByte c s with
  | Some i => Some (slice_to i s, slice_from (S i) s)
  | None => None
  end.

End GoStrings.

(** ** [internal/config]: the host record *)
Module Config.

(** Modelled from the spec: the declaration of [config.SSHHost] is not part
    of the sources at hand; the fields are those of the specification's
    HostRecord, under the names the callers in [internal/ui] use. *)
Record SSHHost := mkSSHHost {
  Name : string;
  Hostname : string;
  User : string;
  Port : string;
  Identity : string;
  ProxyJump : string;
  Options : string;
  RemoteCommand : string;
  RequestTTY : string;
  Tags : list string;
  SourceFile : string
}.

End Config.

(** ** [sort.Slice] *)
Module GoSort.

Section InsertionSort.
Context {A : Type} (less : A -> A -> bool).

(** The inner loop [for j := i; j > a && less(j, j-1); j-- { swap(j, j-1) }]
    of the library's [insertionSortLessFunc]: the element [x] arrives at the
    right end of the prefix already handled and moves left while it is less
    than its left neighbour.  The prefix is held right end first. *)
Fixpoint moveLeft (x : A) (prefixRev : list A) : list A :=
  match prefixRev with
  | [] => [x]
  | y :: r => if less x y then y :: moveLeft x r else x :: prefixRev
  end.

(** The outer loop [for i := a + 1; i < b; i++]. *)
Definition insertionSort (l : list A) : list A :=
  rev (fold_left (fun prefixRev x => moveLeft x prefixRev) l []).

(** The length up to which the library sorts by insertion
    ([maxInsertion] in [pdqsort_func]). *)
Definition maxInsertion : nat := 12.

(** [sort.Slice(s, less)] with [less] read on the elements.  The library
    sorts a slice of at most [maxInsertion] elements by exactly this
    insertion sort, and a longer one by pattern-defeating quicksort, which
    is not stable and is not embedded here.  For a longer slice the
    insertion sort stands for the library only in what every sort
    guarantees: the output is a permutation of the input, and when [less]
    is a strict weak order no element of the output is less than its left
    neighbour.  What is stated of [Slice] beyond that is stated for at most
    [maxInsertion] elements. *)
Definition Slice (l : list A) : list A := insertionSort l.

End InsertionSort.

End GoSort.

(** ** [internal/history]: manual-connection identifiers *)
Module History.
Import GoStrings.

(** [type ManualConnection struct]. *)
Record ManualConnection := mkManualConnection {
  User : string;
  Hostname : string;
  Port : string;
  Identity : string
}.

(** [generateManualHostID]: [fmt.Sprintf("manual:%s@%s:%s", user, conn.Hostname, port)]
    after the two defaults have been filled in. *)
Definition generateManualHostID (conn : ManualConnection) : string :=
  let user := if String.eqb (User conn) EmptyString then "default" else User conn in
  let port := if String.eqb (Port conn) EmptyString then "22" else Port conn in
  "manual:" +:+ user +:+ "@" +:+ Hostname conn +:+ ":" +:+ port.

(** [IsManualConnection]: [len(hostName) > 7 && hostName[:7] == "manual:"]. *)
Definition IsManualConnection (hostName : string) : bool :=
  (7 <? String.length hostName)%nat && String.eqb (slice_to 7 hostName) "manual:".

(** [ParseManualConnectionID]; [None] is the [ok = false] return. *)
Definition ParseManualConnectionID (hostID : string) : option (string * string * string) :=
  if negb (IsManualConnection hostID) then None else
  let parts := slice_from 7 hostID in
  match lastIndexByte ":" parts with
  | None => None
  | Some lastColon =>
      let port := slice_from (S lastColon) parts in
      let userHost := slice_to lastColon parts in
      match indexByte "@" userHost with
      | None => None
      | Some atSign =>
          Some (slice_to atSign userHost, slice_from (S atSign) userHost, port)
      end
  end.

(** *** [parser.go] *)

Definition withPort (conn : ManualConnection) (p : string) : ManualConnection :=
  mkManualConnection (User conn) (Hostname conn) p (Identity conn).

Definition withIdentity (conn : ManualConnection) (i : string) : ManualConnection :=
  mkManualConnection (User conn) (Hostname conn) (Port conn) i.

Definition withUserHost (conn : ManualConnection) (u h : string) : ManualConnection :=
  mkManualConnection u h (Port conn) (Identity conn).

Definition withHostname (conn : ManualConnection) (h : string) : ManualConnection :=
  mkManualConnection (User conn) h (Port conn) (Identity conn).

(** The tokens of the configuration-file branch. *)
Definition isConfigFlag (arg : string) : bool :=
  String.eqb arg "-F" || String.eqb arg "-c" || String.eqb arg "--config".

(** The [for i := 0; i < len(args); i++] loop of [ParseSSHArgs], on the
    arguments from position [i] on.  A branch that does [i++] continues on the
    tail of the tail; [None] is the [return nil, false] inside the loop. *)
Fixpoint parseLoop (conn : ManualConnection) (args : list string) : option ManualConnection :=
  match args with
  | [] => Some conn
  | arg :: rest =>
      if String.eqb arg "-p" then
        match rest with
        | v :: rest' => parseLoop (withPort conn v) rest'
        | [] => Some conn
        end
      else if HasPrefix arg "-p" then
        parseLoop (withPort conn (slice_from 2 arg)) rest
      else if String.eqb arg "-i" then
        match rest with
        | v :: rest' => parseLoop (withIdentity conn v) rest'
        | [] => Some conn
        end
      else if isConfigFlag arg then
        None
      else if HasPrefix arg "-" then
        match rest with
        | v :: rest' => if negb (HasPrefix v "-") then parseLoop conn rest' else parseLoop conn rest
        | [] => Some conn
        end
      else if containsByte "@" arg then
        match splitN2 "@" arg with
        | Some (u, h) => parseLoop (withUserHost conn u h) rest
        | None => parseLoop conn rest
        end
      else if String.eqb (Hostname conn) EmptyString then
        parseLoop (withHostname conn arg) rest
      else
        parseLoop conn rest
  end.

(** [ParseSSHArgs].  [currentUser] is the outcome of [user.Current()]: the
    name of the invoking user, or [None] when the lookup returns an error (the
    [User] field then keeps its zero value). *)
Definition ParseSSHArgs (currentUser : option string) (args : list string)
  : option ManualConnection :=
  match args with
  | [] => None
  | _ =>
      let conn := mkManualConnection (default EmptyString currentUser) EmptyString "22" EmptyString in
      match parseLoop conn args with
      | Some conn' => if negb (String.eqb (Hostname conn') EmptyString) then Some conn' else None
      | None => None
      end
  end.

(** [IsManualSSHCommand]: the [range] loop returns at the first token that is
    ["-p"], starts with ["-p"], or contains ['@']. *)
Fixpoint manualLoop (args : list string) : bool :=
  match args with
  | [] => false
  | arg :: rest =>
      if String.eqb arg "-p" || HasPrefix arg "-p" then true
      else if containsByte "@" arg then true
      else manualLoop rest
  end.

Definition IsManualSSHCommand (args : list string) : bool :=
  match args with
  | [] => false
  | _ => manualLoop args
  end.

(** *** The environment of the history manager

    The manager talks to the operating system through [os.Stat],
    [os.ReadFile], [os.WriteFile], [os.Remove] and [os.MkdirAll], and to
    [encoding/json].  The model keeps the files and directories with their
    permission bits, a fault oracle for calls that return an error, and the
    log of the calls made. *)

(** Go's [int] on the 64-bit targets: [wrap] is the result of an arithmetic
    operation whose mathematical value is [z]. *)
Definition maxInt : Z := 2 ^ 63 - 1.
Definition minInt : Z := - 2 ^ 63.
Definition wrap (z : Z) : Z := (z + 2 ^ 63) mod 2 ^ 64 - 2 ^ 63.

(** Permission bits as the sources write them ([0600] is [octal 6 0 0]). *)
Definition octal (u g o : Z) : Z := u * 64 + g * 8 + o.

(** [type PortForwardConfig struct]. *)
Record PortForwardConfig := mkPortForwardConfig {
  Type_ : string;
  LocalPort : string;
  RemoteHost : string;
  RemotePort : string;
  BindAddress : string
}.

(** [type ConnectionInfo struct]; a [time.Time] is an instant, counted in
    [Z], and [After] is [>] on instants. *)
Record ConnectionInfo := mkConnectionInfo {
  HostName : string;
  LastConnect : Z;
  ConnectCount : Z;
  PortForwarding : option PortForwardConfig
}.

(** [type ConnectionHistory struct].  Its field is a Go map, which is
    [nil] or a map: [connections] is [None] for the [nil] map.  A [nil] map
    reads as a map without keys, a [range] over it or a [delete] from it
    does nothing, and an assignment to one of its keys panics. *)
Record ConnectionHistory := MkConnectionHistory {
  connections : option (gmap string ConnectionInfo)
}.

(** What a read of [h.Connections] finds. *)
Definition Connections (h : ConnectionHistory) : gmap string ConnectionInfo :=
  default ∅ (connections h).

(** The document whose map is [conns], and the document whose map is
    [nil]. *)
Definition mkConnectionHistory (conns : gmap string ConnectionInfo) : ConnectionHistory :=
  MkConnectionHistory (Some conns).

Definition nilConnections : ConnectionHistory := MkConnectionHistory None.

(** A path is a directory and a base name: [filepath.Join(dir, base)] builds
    one and [filepath.Dir] returns its directory. *)
Definition Join (dir base : string) : string * string := (dir, base).
Definition Dir (p : string * string) : string := fst p.

(** The bytes of a file, seen through [encoding/json]: either the
    serialisation of a history document ([json.MarshalIndent] of it, which
    writes [null] for the [nil] map), or bytes that [json.Unmarshal]
    rejects.  The strings of a document are taken to be valid UTF-8, which
    [encoding/json] writes as they are. *)
Inductive bytes :=
  | Document (h : ConnectionHistory)
  | Garbage (raw : string).

Record file := mkFile { data : bytes; mode : Z }.

Inductive error :=
  | ErrNotExist      (* the error for which [os.IsNotExist] holds *)
  | ErrIO            (* any other error of the operating system *)
  | ErrSyntax        (* [json.Unmarshal] rejected the bytes *)
  | ErrNoDirectory   (* the [config] package could not resolve a directory *)
  | PanicNilMap.     (* no error value: the run-time panic of an assignment to
                        an entry of a [nil] map, which ends the program; it
                        stands in the place of the result of the call, with
                        the manager and the world as the panic finds them *)

Definition IsNotExist (err : option error) : bool :=
  match err with Some ErrNotExist => true | _ => false end.

Inductive syscall :=
  | SysConfigDir
  | SysSSHDir
  | SysMkdirAll (d : string)
  | SysStat (p : string * string)
  | SysReadFile (p : string * string)
  | SysWriteFile (p : string * string)
  | SysRemove (p : string * string).

Inductive event :=
  | EvMkdirAll (d : string) (perm : Z)
  | EvWriteFile (p : string * string) (perm : Z)
  | EvRemove (p : string * string).

Record world := mkWorld {
  files : gmap (string * string) file;
  dirs : gmap string Z;
  sshmConfigDir : string;   (* the directory [config.GetSSHMConfigDir] resolves *)
  sshDirectory : string;    (* the directory [config.GetSSHDirectory] resolves *)
  fails : syscall -> bool;  (* the calls that return an error of their own *)
  torn : string * string -> option bytes;
                            (* what a failing [os.WriteFile] leaves in the
                               file: [None] when it fails before the file is
                               opened, else the bytes written by then *)
  trace : list event        (* the calls made, most recent first *)
}.

Definition setFiles (w : world) (fs : gmap (string * string) file) : world :=
  mkWorld fs (dirs w) (sshmConfigDir w) (sshDirectory w) (fails w) (torn w) (trace w).

Definition setDirs (w : world) (ds : gmap string Z) : world :=
  mkWorld (files w) ds (sshmConfigDir w) (sshDirectory w) (fails w) (torn w) (trace w).

Definition logEvent (e : event) (w : world) : world :=
  mkWorld (files w) (dirs w) (sshmConfigDir w) (sshDirectory w) (fails w) (torn w)
    (e :: trace w).

(** Computations in the environment. *)
Definition IO (A : Type) : Type := world -> A * world.

Definition ret {A} (a : A) : IO A := fun w => (a, w).

Definition bind {A B} (c : IO A) (k : A -> IO B) : IO B :=
  fun w => let (a, w') := c w in k a w'.

Notation "'let*' x ':=' c 'in' k" := (bind c (fun x => k))
  (at level 10, x pattern, c at level 100, k at level 200).

(** Modelled from the spec: [config.GetSSHMConfigDir] and
    [config.GetSSHDirectory] belong to a package whose source is not part of
    the sources at hand; each resolves a fixed per-user directory or returns
    an error. *)
Definition GetSSHMConfigDir : IO (string + error) :=
  fun w => if fails w SysConfigDir then (inr ErrNoDirectory, w) else (inl (sshmConfigDir w), w).

Definition GetSSHDirectory : IO (string + error) :=
  fun w => if fails w SysSSHDir then (inr ErrNoDirectory, w) else (inl (sshDirectory w), w).

(** [os.MkdirAll(d, perm)]: nothing to do for a directory that exists. *)
Definition MkdirAll (d : string) (perm : Z) : IO (option error) :=
  fun w =>
    let w := logEvent (EvMkdirAll d perm) w in
    if fails w (SysMkdirAll d) then (Some ErrIO, w)
    else match dirs w !! d with
         | Some _ => (None, w)
         | None => (None, setDirs w (<[d := perm]> (dirs w)))
         end.

(** [os.Stat(p)], reduced to its error. *)
Definition Stat (p : string * string) : IO (option error) :=
  fun w =>
    if fails w (SysStat p) then (Some ErrIO, w)
    else match files w !! p with
         | Some _ => (None, w)
         | None => (Some ErrNotExist, w)
         end.

(** [os.ReadFile(p)]. *)
Definition ReadFile (p : string * string) : IO (bytes + error) :=
  fun w =>
    if fails w (SysReadFile p) then (inr ErrIO, w)
    else match files w !! p with
         | Some f => (inl (data f), w)
         | None => (inr ErrNotExist, w)
         end.

(** What [os.WriteFile(p, _, perm)] has in the file once it has opened it
    (with [O_CREATE|O_TRUNC]) and written [d]: a file it creates has [perm]
    (before umask), a file that exists keeps its permissions. *)
Definition written (p : string * string) (d : bytes) (perm : Z) (w : world) : world :=
  match files w !! p with
  | Some f => setFiles w (<[p := mkFile d (mode f)]> (files w))
  | None => setFiles w (<[p := mkFile d perm]> (files w))
  end.

(** [os.WriteFile(p, d, perm)]: creates the file with [perm] when it does
    not exist; otherwise replaces its bytes and leaves its permissions as
    they are.  The file is opened and truncated before the bytes are
    written, so a call that fails has changed nothing only when it failed
    before that; after it, the file holds what was written until the
    failure, which the call does not undo. *)
Definition WriteFile (p : string * string) (d : bytes) (perm : Z) : IO (option error) :=
  fun w =>
    let w := logEvent (EvWriteFile p perm) w in
    if fails w (SysWriteFile p) then
      match torn w p, dirs w !! Dir p with
      | Some partial, Some _ => (Some ErrIO, written p partial perm w)
      | _, _ => (Some ErrIO, w)
      end
    else match dirs w !! Dir p with
         | None => (Some ErrNotExist, w)
         | Some _ => (None, written p d perm w)
         end.

(** [os.Remove(p)]. *)
Definition Remove (p : string * string) : IO (option error) :=
  fun w =>
    let w := logEvent (EvRemove p) w in
    if fails w (SysRemove p) then (Some ErrIO, w)
    else match files w !! p with
         | Some _ => (None, setFiles w (delete p (files w)))
         | None => (Some ErrNotExist, w)
         end.

(** [json.Unmarshal(data, hm.history)]: the entries of the document are
    stored into the map the manager already holds (a map is made when that
    one is [nil]); a document whose map is [null] sets the manager's map to
    [nil]. *)
Definition Unmarshal (d : bytes) (h : ConnectionHistory) : ConnectionHistory + error :=
  match d with
  | Document doc =>
      match connections doc with
      | Some conns => inl (mkConnectionHistory (conns ∪ Connections h))
      | None => inl nilConnections
      end
  | Garbage _ => inr ErrSyntax
  end.

(** *** [history.go]: the manager *)

(** [type HistoryManager struct]; the methods have a pointer receiver, so
    each returns the manager as it leaves it. *)
Record HistoryManager := mkHistoryManager {
  historyPath : string * string;
  history : ConnectionHistory
}.

Definition historyFileName : string := "sshm_history.json".

(** [migrateOldHistoryFile]. *)
Definition migrateOldHistoryFile (newHistoryPath : string * string) : IO (option error) :=
  let* st := Stat newHistoryPath in
  match st with
  | None => ret None
  | Some _ =>
      let* sd := GetSSHDirectory in
      match sd with
      | inr err => ret (Some err)
      | inl sshDir =>
          let oldHistoryPath := Join sshDir historyFileName in
          let* st' := Stat oldHistoryPath in
          if IsNotExist st' then ret None
          else
            let* rd := ReadFile oldHistoryPath in
            match rd with
            | inr err => ret (Some err)
            | inl d =>
                let* wr := WriteFile newHistoryPath d (octal 6 4 4) in
                match wr with
                | Some err => ret (Some err)
                | None => let* _ := Remove oldHistoryPath in ret None
                end
            end
      end
  end.

(** [loadHistory]. *)
Definition loadHistory (hm : HistoryManager) : IO (HistoryManager * option error) :=
  let* rd := ReadFile (historyPath hm) in
  match rd with
  | inr err => ret (hm, Some err)
  | inl d =>
      match Unmarshal d (history hm) with
      | inl h => ret (mkHistoryManager (historyPath hm) h, None)
      | inr err => ret (hm, Some err)
      end
  end.

(** [saveHistory].  [json.MarshalIndent] has no error to return on a
    document of this type, whose times come from [time.Now] or from a
    document decoded before. *)
Definition saveHistory (hm : HistoryManager) : IO (option error) :=
  let dir := Dir (historyPath hm) in
  let* mk := MkdirAll dir (octal 7 0 0) in
  match mk with
  | Some err => ret (Some err)
  | None => WriteFile (historyPath hm) (Document (history hm)) (octal 6 0 0)
  end.

(** [NewHistoryManager]. *)
Definition NewHistoryManager : IO (HistoryManager + error) :=
  let* cd := GetSSHMConfigDir in
  match cd with
  | inr err => ret (inr err)
  | inl configDir =>
      let* mk := MkdirAll configDir (octal 7 5 5) in
      match mk with
      | Some err => ret (inr err)
      | None =>
          let historyPath := Join configDir historyFileName in
          let* _ := migrateOldHistoryFile historyPath in
          let hm := mkHistoryManager historyPath (mkConnectionHistory ∅) in
          let* ld := loadHistory hm in
          let '(hm, err) := ld in
          match err with
          | Some e => if negb (IsNotExist err) then ret (inr e) else ret (inl hm)
          | None => ret (inl hm)
          end
      end
  end.

(** The in-memory half of [RecordConnection]: the update of
    [hm.history.Connections] made before the document is saved. *)
Definition recordEntry (now : Z) (hostName : string)
    (conns : gmap string ConnectionInfo) : gmap string ConnectionInfo :=
  match conns !! hostName with
  | Some conn =>
      <[hostName := mkConnectionInfo (HostName conn) now (wrap (ConnectCount conn + 1))
                      (PortForwarding conn)]> conns
  | None => <[hostName := mkConnectionInfo hostName now 1 None]> conns
  end.

(** [RecordConnection]; [now] is what [time.Now()] returns.  Both branches
    assign to a key of the map: on the [nil] map the call panics, before
    anything is saved. *)
Definition RecordConnection (now : Z) (hostName : string) (hm : HistoryManager)
  : IO (HistoryManager * option error) :=
  match connections (history hm) with
  | None => ret (hm, Some PanicNilMap)
  | Some conns =>
      let hm := mkHistoryManager (historyPath hm)
                  (mkConnectionHistory (recordEntry now hostName conns)) in
      let* err := saveHistory hm in
      ret (hm, err)
  end.

(** [RecordManualConnection]. *)
Definition RecordManualConnection (now : Z) (conn : ManualConnection) (hm : HistoryManager)
  : IO (HistoryManager * option error) :=
  let hostID := generateManualHostID conn in
  match connections (history hm) with
  | None => ret (hm, Some PanicNilMap)
  | Some conns =>
      let hm := mkHistoryManager (historyPath hm)
                  (mkConnectionHistory (recordEntry now hostID conns)) in
      let* err := saveHistory hm in
      ret (hm, err)
  end.

(** [GetLastConnectionTime]; [None] is the [false] of the second result. *)
Definition GetLastConnectionTime (hm : HistoryManager) (hostName : string) : option Z :=
  match Connections (history hm) !! hostName with
  | Some conn => Some (LastConnect conn)
  | None => None
  end.

(** [GetConnectionCount]. *)
Definition GetConnectionCount (hm : HistoryManager) (hostName : string) : Z :=
  match Connections (history hm) !! hostName with
  | Some conn => ConnectCount conn
  | None => 0
  end.

(** The [less] closure of [SortHostsByLastUsed], on the two hosts it reads. *)
Definition lessLastUsed (hm : HistoryManager) (hi hj : Config.SSHHost) : bool :=
  match GetLastConnectionTime hm (Config.Name hi), GetLastConnectionTime hm (Config.Name hj) with
  | Some timeI, Some timeJ => (timeJ <? timeI)%Z
  | Some _, None => true
  | None, Some _ => false
  | None, None => String.ltb (Config.Name hi) (Config.Name hj)
  end.

(** [SortHostsByLastUsed]. *)
Definition SortHostsByLastUsed (hm : HistoryManager) (hosts : list Config.SSHHost)
  : list Config.SSHHost :=
  GoSort.Slice (lessLastUsed hm) hosts.

(** The [less] closure of [SortHostsByMostUsed]. *)
Definition lessMostUsed (hm : HistoryManager) (hi hj : Config.SSHHost) : bool :=
  let countI := GetConnectionCount hm (Config.Name hi) in
  let countJ := GetConnectionCount hm (Config.Name hj) in
  if negb (countI =? countJ)%Z then (countJ <? countI)%Z
  else
    match GetLastConnectionTime hm (Config.Name hi), GetLastConnectionTime hm (Config.Name hj) with
    | Some timeI, Some timeJ => (timeJ <? timeI)%Z
    | _, _ => String.ltb (Config.Name hi) (Config.Name hj)
    end.

(** [SortHostsByMostUsed]. *)
Definition SortHostsByMostUsed (hm : HistoryManager) (hosts : list Config.SSHHost)
  : list Config.SSHHost :=
  GoSort.Slice (lessMostUsed hm) hosts.

(** The set built by the first loop of [CleanupOldEntries]. *)
Definition currentHostNames (currentHosts : list Config.SSHHost) : gmap string bool :=
  fold_left (fun names host => <[Config.Name host := true]> names) currentHosts ∅.

(** The second loop of [CleanupOldEntries]: a [range] over the keys of the
    map that deletes as it goes (the language allows it, and every key still
    present is visited once, in an order the language leaves open).  A
    missing key of [names] reads as [false]. *)
Definition pruneEntries (names : gmap string bool)
    (conns : gmap string ConnectionInfo) : gmap string ConnectionInfo :=
  fold_right
    (fun hostName acc => if negb (default false (names !! hostName)) then delete hostName acc else acc)
    conns (map fst (map_to_list conns)).

(** [CleanupOldEntries].  On the [nil] map the loop has nothing to visit
    and the map stays [nil]. *)
Definition CleanupOldEntries (currentHosts : list Config.SSHHost) (hm : HistoryManager)
  : IO (HistoryManager * option error) :=
  let names := currentHostNames currentHosts in
  let hm := mkHistoryManager (historyPath hm)
              (match connections (history hm) with
               | Some conns => mkConnectionHistory (pruneEntries names conns)
               | None => nilConnections
               end) in
  let* err := saveHistory hm in
  ret (hm, err).

End History.

(** ** The bash implementation (version 2.1.0): [sshm_delete] and [sshm_edit]

    The scripts run under [set -eo pipefail]: a command that fails ends the
    script at once, with the files as they are at that point.  The commands
    fail for what they are given (a missing file, an address that [sed] or
    [awk] rejects, a directory that [find] cannot read, input at its end);
    a file system that refuses a write is outside the model. *)
Module Shell.

Inductive status :=
  | Exit0
  | Exit1 (message : string)   (* the script's own [exit 1], with what it printed *)
  | Aborted.                   (* a command failed and [set -e] ended the script *)

Definition msgNoHost : string := "Error: please provide a host name.".
Definition msgNotFound : string := "Error: host not found in SSH configuration.".
Definition msgEmpty : string :=
  "Error: Operation would result in empty file. Operation cancelled.".

(** The bytes of a file: the lines that a newline ends, and the characters
    after the last newline.  [unterminated] is empty in a file that ends
    with a newline, and in the file of size zero. *)
Record text := mkText {
  terminated : list string;
  unterminated : string
}.

(** The file whose lines all end with a newline. *)
Definition complete (lines : list string) : text := mkText lines EmptyString.

(** The file of size zero, for each way a file is held. *)
Class EmptyFile (A : Type) := emptyFile : A.
#[global] Instance emptyText : EmptyFile text := complete [].
#[global] Instance emptyLines : EmptyFile (list string) := [].

(** The lines of a file as [sed], [awk] and [grep] read them: the
    characters after the last newline make a line too. *)
Definition readLines (t : text) : list string :=
  if String.eqb (unterminated t) EmptyString then terminated t
  else (terminated t ++ [unterminated t])%list.

(** What the user answered to the prompts of [sshm_edit], after the
    defaults have been filled in. *)
Record answers := mkAnswers {
  new_hostname : string;
  new_user : string;
  new_port : string;
  new_identity_file : string;
  new_proxyjump : string;
  default_identity_file : string
}.

(** What [find ~/.ssh] and the prompts come to.  The pipeline with [find]
    fails when [find] does (the directory is missing), and a [read] fails
    when the input is at its end; either ends the script.  [EndOfInput]:
    the input is at its end when the first prompt reads it.  [Answered]:
    every prompt has had its line. *)
Inductive prompts :=
  | FindFails
  | EndOfInput
  | Answered (a : answers).

(** The tools of the machine the script runs on.  The host name is spliced
    into the address [/^Host <host>$/]: [sedHostLine], [awkHostLine] and
    [grepHostLine] say which lines the address matches as each tool reads
    it, and [sedAccepts] and [awkAccepts] whether the tool accepts its
    program with that address (a host name with a [/] in it ends the
    address early, and the tool exits with an error).  GNU [sed] leaves the
    last line of its output without a newline when the last line of its
    input had none; other versions end every line ([sedCompletesLastLine]).
    [portIsNot22] is the arithmetic test [[ "$port" -ne 22 ]].  [renames]
    says whether the directory of [mktemp] is on the file system of the
    configuration file, so that [mv] from one to the other is a rename. *)
Record tools := mkTools {
  sedHostLine : string -> string -> bool;
  awkHostLine : string -> string -> bool;
  grepHostLine : string -> string -> bool;
  sedAccepts : string -> bool;
  awkAccepts : string -> bool;
  sedCompletesLastLine : bool;
  portIsNot22 : string -> bool;
  renames : bool
}.

Section Scripts.

(** The address [/^Host <host>$/], with the host name spliced into the
    regular expression, as [sed] reads it and as [awk] reads it: does the
    line match? *)
Variable sedHostLine : string -> string -> bool.
Variable awkHostLine : string -> string -> bool.
(** The arithmetic test [[ "$port" -ne 22 ]]. *)
Variable portIsNot22 : string -> bool.

(** [sed '/^Host <host>$/,/^$/d']: a range opens on a line that matches the
    first address and closes on the next empty line, or at the end of the
    input; the lines of a range, both ends included, are deleted. *)
Fixpoint sedDelete (host : string) (inRange : bool) (lines : list string) : list string :=
  match lines with
  | [] => []
  | l :: rest =>
      if inRange then
        if String.eqb l EmptyString then sedDelete host false rest
        else sedDelete host true rest
      else if sedHostLine host l then sedDelete host true rest
      else l :: sedDelete host false rest
  end.

(** Whether [sed] is inside a range once it has read the lines. *)
Fixpoint sedInRange (host : string) (inRange : bool) (lines : list string) : bool :=
  match lines with
  | [] => inRange
  | l :: rest =>
      if inRange then sedInRange host (negb (String.eqb l EmptyString)) rest
      else sedInRange host (sedHostLine host l) rest
  end.

(** [awk '/^Host <host>$/,/^$/']: the lines of the ranges are printed. *)
Fixpoint awkRange (host : string) (inRange : bool) (lines : list string) : list string :=
  match lines with
  | [] => []
  | l :: rest =>
      if inRange then
        l :: awkRange host (negb (String.eqb l EmptyString)) rest
      else if awkHostLine host l then
        l :: awkRange host (negb (String.eqb l EmptyString)) rest
      else awkRange host false rest
  end.

(** The block that [sshm_edit] appends, one [echo] per line. *)
Definition newBlock (host : string) (a : answers) : list string :=
  ([EmptyString;
    "Host " +:+ host;
    "    HostName " +:+ new_hostname a;
    "    User " +:+ new_user a]
   ++ (if portIsNot22 (new_port a) then ["    Port " +:+ new_port a] else [])
   ++ (if negb (String.eqb (new_identity_file a) (default_identity_file a))
       then ["    IdentityFile " +:+ new_identity_file a] else [])
   ++ (if negb (String.eqb (new_proxyjump a) EmptyString)
       then ["    ProxyJump " +:+ new_proxyjump a] else []))%list.

End Scripts.

(** What [sed '/^Host <host>$/,/^$/d'] writes for a file.  The lines of a
    file that ends with a newline are read one by one.  Characters after
    the last newline are read as a last line, which is deleted inside a
    range or when it matches the address, and otherwise written: without a
    newline, or with one by a [sed] that ends every line. *)
Definition sedOutput (T : tools) (host : string) (t : text) : text :=
  let kept := sedDelete (sedHostLine T) host false (terminated t) in
  if String.eqb (unterminated t) EmptyString then complete kept
  else if sedInRange (sedHostLine T) host false (terminated t)
          || sedHostLine T host (unterminated t)
  then complete kept
  else if sedCompletesLastLine T then complete (kept ++ [unterminated t])
  else mkText kept (unterminated t).

(** [[ -z "$(...)" ]]: command substitution drops the trailing newlines, so
    the captured text is empty when every printed line is. *)
Definition captureIsEmpty (lines : list string) : bool :=
  forallb (fun l => String.eqb l EmptyString) lines.

(** The file has no byte. *)
Definition hasSizeZero (t : text) : bool :=
  match terminated t with
  | [] => String.eqb (unterminated t) EmptyString
  | _ :: _ => false
  end.

(** [[ -s file ]]. *)
Definition nonEmptyFile (fs : gmap string text) (f : string) : bool :=
  match fs !! f with
  | Some t => negb (hasSizeZero t)
  | None => false
  end.

(** [cp src dst]. *)
Definition cp {A} (src dst : string) (fs : gmap string A) : option (gmap string A) :=
  match fs !! src with
  | Some c => Some (<[dst := c]> fs)
  | None => None
  end.

(** [mv src dst], when it is done. *)
Definition mv {A} (src dst : string) (fs : gmap string A) : option (gmap string A) :=
  match fs !! src with
  | Some c => Some (<[dst := c]> (delete src fs))
  | None => None
  end.

(** The file systems seen while [mv src dst] is at work.  A rename is one
    step, and there is none.  Across file systems [mv] copies the source and
    then removes it: the target is seen with no byte in it, and then
    complete while the source is still there. *)
Definition moving {A} `{EmptyFile A} (rename : bool) (src dst : string) (fs : gmap string A)
  : list (gmap string A) :=
  if rename then []
  else match fs !! src with
       | Some c => [<[dst := emptyFile]> fs; <[dst := c]> fs]
       | None => []
       end.

(** [rm -f f]. *)
Definition rm_f {A} (f : string) (fs : gmap string A) : gmap string A :=
  delete f fs.

(** [touch f]. *)
Definition touch {A} `{EmptyFile A} (f : string) (fs : gmap string A) : gmap string A :=
  match fs !! f with
  | Some _ => fs
  | None => <[f := emptyFile]> fs
  end.

(** [mktemp]: a new file of size zero, under the name [tmp_file]. *)
Definition mktemp (tmp_file : string) (fs : gmap string text) : gmap string text :=
  <[tmp_file := emptyFile]> fs.

(** [sed '...d' "$config_file" > "$tmp_file"]: the redirection truncates
    the target, then [sed] reads its program, which it may reject, and its
    input. *)
Definition sedInto (T : tools) (host config_file tmp_file : string) (fs : gmap string text)
  : option (gmap string text) :=
  let fs := <[tmp_file := emptyFile]> fs in
  if negb (sedAccepts T host) then None
  else match fs !! config_file with
       | Some c => Some (<[tmp_file := sedOutput T host c]> fs)
       | None => None
       end.

(** [{ echo line; ... } >> file]: the first line written ends the line that
    the file had left without a newline. *)
Definition appendLines (t : text) (lines : list string) : text :=
  match lines with
  | [] => t
  | l :: more => complete (terminated t ++ (unterminated t +:+ l) :: more)
  end.

Definition appendTo (f : string) (lines : list string) (fs : gmap string text)
  : gmap string text :=
  <[f := appendLines (default emptyFile (fs !! f)) lines]> fs.

Definition backupOf (config_file : string) : string := config_file +:+ ".bak".

(** [sshm_delete config_file host]; [tmp_file] is the name [mktemp] picks.
    The result is the status and the file systems that the commands leave
    one after the other. *)
Definition sshm_delete_states (T : tools) (tmp_file config_file host : string)
    (fs : gmap string text) : status * list (gmap string text) :=
  if String.eqb host EmptyString then (Exit1 msgNoHost, []) else
  match cp config_file (backupOf config_file) fs with
  | None => (Aborted, [])
  | Some fs1 =>
      let fs2 := mktemp tmp_file fs1 in
      match sedInto T host config_file tmp_file fs2 with
      | None => (Aborted, [fs1; fs2])
      | Some fs3 =>
          if nonEmptyFile fs3 tmp_file then
            match mv tmp_file config_file fs3 with
            | None => (Aborted, [fs1; fs2; fs3])
            | Some fs4 =>
                (Exit0,
                 [fs1; fs2; fs3] ++ moving (renames T) tmp_file config_file fs3
                 ++ [fs4; rm_f (backupOf config_file) fs4])
            end
          else
            match mv (backupOf config_file) config_file fs3 with
            | None => (Aborted, [fs1; fs2; fs3])
            | Some fs4 => (Exit1 msgEmpty, [fs1; fs2; fs3; fs4; rm_f tmp_file fs4])
            end
      end
  end%list.

(** The status of a run and the file system it ends with. *)
Definition outcome (fs : gmap string text) (r : status * list (gmap string text))
  : status * gmap string text :=
  (fst r, List.last (snd r) fs).

Definition sshm_delete (T : tools) (tmp_file config_file host : string)
    (fs : gmap string text) : status * gmap string text :=
  outcome fs (sshm_delete_states T tmp_file config_file host fs).

(** [sshm_edit host], on the configuration file [config_file]; [p] is what
    [find] and the prompts come to. *)
Definition sshm_edit_states (T : tools) (tmp_file config_file host : string) (p : prompts)
    (fs : gmap string text) : status * list (gmap string text) :=
  if String.eqb host EmptyString then (Exit1 msgNoHost, []) else
  match fs !! config_file with
  | None => (Aborted, [])
  | Some c =>
      if negb (awkAccepts T host) then (Aborted, []) else
      if captureIsEmpty (awkRange (awkHostLine T) host false (readLines c))
      then (Exit1 msgNotFound, []) else
      match p with
      | FindFails => (Aborted, [])
      | EndOfInput =>
          match cp config_file (backupOf config_file) fs with
          | None => (Aborted, [])
          | Some fs1 => (Aborted, [fs1])
          end
      | Answered a =>
          match cp config_file (backupOf config_file) fs with
          | None => (Aborted, [])
          | Some fs1 =>
              let fs2 := mktemp tmp_file fs1 in
              match sedInto T host config_file tmp_file fs2 with
              | None => (Aborted, [fs1; fs2])
              | Some fs3 =>
                  if negb (nonEmptyFile fs3 tmp_file) then
                    match mv (backupOf config_file) config_file fs3 with
                    | None => (Aborted, [fs1; fs2; fs3])
                    | Some fs4 => (Exit1 msgEmpty, [fs1; fs2; fs3; fs4; rm_f tmp_file fs4])
                    end
                  else
                    let fs4 := appendTo tmp_file (newBlock (portIsNot22 T) host a) fs3 in
                    match mv tmp_file config_file fs4 with
                    | None => (Aborted, [fs1; fs2; fs3; fs4])
                    | Some fs5 =>
                        (Exit0,
                         [fs1; fs2; fs3; fs4] ++ moving (renames T) tmp_file config_file fs4
                         ++ [fs5; rm_f (backupOf config_file) fs5])
                    end
              end
          end
      end
  end%list.

Definition sshm_edit (T : tools) (tmp_file config_file host : string) (p : prompts)
    (fs : gmap string text) : status * gmap string text :=
  outcome fs (sshm_edit_states T tmp_file config_file host p fs).

End Shell.

(** ** [internal/history]: the rest of the manager *)
Module HistoryMore.
Import GoStrings History.

(** The in-memory half of [RecordPortForwarding]. *)
Definition recordForwardEntry (now : Z) (hostName : string) (portForwardConfig : PortForwardConfig)
    (conns : gmap string ConnectionInfo) : gmap string ConnectionInfo :=
  match conns !! hostName with
  | Some conn =>
      <[hostName := mkConnectionInfo (HostName conn) now (wrap (ConnectCount conn + 1))
                      (Some portForwardConfig)]> conns
  | None => <[hostName := mkConnectionInfo hostName now 1 (Some portForwardConfig)]> conns
  end.

(** [RecordPortForwarding]; it panics on the [nil] map, like
    [RecordConnection]. *)
Definition RecordPortForwarding (now : Z)
    (hostName forwardType localPort remoteHost remotePort bindAddress : string)
    (hm : HistoryManager) : IO (HistoryManager * option error) :=
  let portForwardConfig :=
    mkPortForwardConfig forwardType localPort remoteHost remotePort bindAddress in
  match connections (history hm) with
  | None => ret (hm, Some PanicNilMap)
  | Some conns =>
      let hm := mkHistoryManager (historyPath hm)
                  (mkConnectionHistory
                     (recordForwardEntry now hostName portForwardConfig conns)) in
      let* err := saveHistory hm in
      ret (hm, err)
  end.

(** [GetPortForwardingConfig]; [None] is the [nil] pointer. *)
Definition GetPortForwardingConfig (hm : HistoryManager) (hostName : string)
  : option PortForwardConfig :=
  match Connections (history hm) !! hostName with
  | Some conn => PortForwarding conn
  | None => None
  end.

(** The [less] closure of [GetAllConnectionsInfo]. *)
Definition lessLastConnect (ci cj : ConnectionInfo) : bool :=
  (LastConnect cj <? LastConnect ci)%Z.

(** [GetAllConnectionsInfo].  The [range] over the map visits its keys in
    an order the language leaves open: [visit] is that order. *)
Definition GetAllConnectionsInfo (visit : list string) (hm : HistoryManager)
  : list ConnectionInfo :=
  let connections :=
    fold_left
      (fun acc hostName =>
         match Connections (history hm) !! hostName with
         | Some conn => (acc ++ [conn])%list
         | None => acc
         end)
      visit [] in
  GoSort.Slice lessLastConnect connections.

End HistoryMore.

(** ** [internal/ui]: the history view *)
Module HistoryView.
Import GoStrings History.

(** The argument list that [connectToHistory] hands to [ssh]; [None] is the
    [return nil] for a manual identifier that does not decode. *)
Definition connectArgs (configFile : string) (conn : ConnectionInfo) : option (list string) :=
  if IsManualConnection (HostName conn) then
    match ParseManualConnectionID (HostName conn) with
    | None => None
    | Some (user, hostname, port) =>
        let sshArgs :=
          if negb (String.eqb port EmptyString) && negb (String.eqb port "22")
          then ["-p"; port] else [] in
        if negb (String.eqb user EmptyString)
        then Some (sshArgs ++ [user +:+ "@" +:+ hostname])%list
        else Some (sshArgs ++ [hostname])%list
    end
  else
    let sshArgs := if negb (String.eqb configFile EmptyString) then ["-F"; configFile] else [] in
    Some (sshArgs ++ [HostName conn])%list.

(** [calculateTableHeight]: [height] is [m.height], [hasError] is
    [m.err != ""], and the arithmetic is that of [int]. *)
Definition calculateTableHeight (height : Z) (hasError : bool) (rowCount : Z) : Z :=
  let reservedHeight := 13%Z in
  let availableHeight := wrap (height - reservedHeight) in
  let availableHeight := if hasError then wrap (availableHeight - 3) else availableHeight in
  let minTableHeight := 4%Z in
  let maxTableHeight := availableHeight in
  let maxTableHeight :=
    if (maxTableHeight <? minTableHeight)%Z then minTableHeight else maxTableHeight in
  let tableHeight := 1%Z in
  let dataRowsNeeded := rowCount in
  let maxDataRows := wrap (maxTableHeight - 1) in
  let tableHeight :=
    if (dataRowsNeeded <=? maxDataRows)%Z then wrap (tableHeight + dataRowsNeeded)
    else wrap (tableHeight + maxDataRows) in
  wrap (tableHeight + 1).

(** The first four cells that [updateTable] computes for a connection: the
    host display, the user, the host name and the port.  [hostsMap] is the
    map of the configured hosts by name. *)
Definition star : string :=
  String (ascii_of_nat 226) (String (ascii_of_nat 152) (String (ascii_of_nat 133) EmptyString)).

Definition rowCells (hostsMap : gmap string Config.SSHHost) (conn : ConnectionInfo)
  : string * string * string * string :=
  if IsManualConnection (HostName conn) then
    match ParseManualConnectionID (HostName conn) with
    | Some (u, h, p) => (star, u, h, p)
    | None => (EmptyString, EmptyString, EmptyString, EmptyString)
    end
  else
    match hostsMap !! HostName conn with
    | Some host =>
        let port := Config.Port host in
        let port := if String.eqb port EmptyString then "22" else port in
        (HostName conn, Config.User host, Config.Hostname host, port)
    | None => (HostName conn, EmptyString, EmptyString, EmptyString)
    end.

End HistoryView.

(** ** The bash implementation: the other commands *)
Module ShellMore.
Import GoStrings Shell.

Definition msgHostEmpty : string := "Error: host name cannot be empty.".
Definition msgHostNameEmpty : string := "Error: HostName cannot be empty.".
Definition msgNoContext : string := "Error: please provide a context name.".

Definition msgExists (host : string) : string :=
  "Error: Host '" +:+ host +:+ "' already exists in configuration.".

Definition msgContextMissing (context : string) : string :=
  "Error: context '" +:+ context +:+ "' does not exist.".

Definition msgContextExists (context : string) : string :=
  "Error: context '" +:+ context +:+ "' already exists.".

(** The lines [echo "$s"] writes: [s] cut at its newlines. *)
Fixpoint linesOf (s : string) : list string :=
  match s with
  | EmptyString => [EmptyString]
  | String c r =>
      if Ascii.eqb c (ascii_of_nat 10) then EmptyString :: linesOf r
      else match linesOf r with
           | l :: rest => String c l :: rest
           | [] => [String c EmptyString]
           end
  end.

(** The text of [$(cat file)]: the lines joined by newlines, the trailing
    newlines dropped. *)
Fixpoint dropTrailingEmpty (lines : list string) : list string :=
  match lines with
  | [] => []
  | l :: rest =>
      match dropTrailingEmpty rest with
      | [] => if String.eqb l EmptyString then [] else [l]
      | rest' => l :: rest'
      end
  end.

Fixpoint joinLines (lines : list string) : string :=
  match lines with
  | [] => EmptyString
  | [l] => l
  | l :: rest => l +:+ String (ascii_of_nat 10) (joinLines rest)
  end.

Definition captured (lines : list string) : string := joinLines (dropTrailingEmpty lines).

(** [ssh_manager_delete] of version 2.0.0 (and [sshm_delete] of the
    versions before 2.1.0): the output of [sed] is moved onto the
    configuration file without a look at it. *)
Definition ssh_manager_delete (T : tools) (tmp_file config_file host : string)
    (fs : gmap string text) : status * gmap string text :=
  if String.eqb host EmptyString then (Exit1 msgNoHost, fs) else
  let fs1 := mktemp tmp_file fs in
  match sedInto T host config_file tmp_file fs1 with
  | None => (Aborted, fs1)
  | Some fs2 =>
      match mv tmp_file config_file fs2 with
      | None => (Aborted, fs2)
      | Some fs3 => (Exit0, fs3)
      end
  end.

(** [sshm_add host] of version 2.1.0, on the configuration file
    [config_file].  [host] is the name given on the command line, and
    [typed_host] the one typed at the prompt for want of it; [p] is what
    [find] and the prompts come to, the answers with their defaults filled
    in and the host name as typed.  A [grep] that rejects its pattern counts,
    in the [if], as one that finds no line. *)
Definition sshm_add (T : tools) (config_file host typed_host : string) (p : prompts)
    (fs : gmap string text) : status * gmap string text :=
  match p with
  | FindFails => (Aborted, fs)
  | EndOfInput =>
      if String.eqb host EmptyString then (Aborted, fs) else
      if existsb (grepHostLine T host) (readLines (default emptyFile (fs !! config_file)))
      then (Exit1 (msgExists host), fs)
      else (Aborted, fs)
  | Answered a =>
      let host := if String.eqb host EmptyString then typed_host else host in
      if String.eqb host EmptyString then (Exit1 msgHostEmpty, fs) else
      if existsb (grepHostLine T host) (readLines (default emptyFile (fs !! config_file)))
      then (Exit1 (msgExists host), fs) else
      if String.eqb (new_hostname a) EmptyString then (Exit1 msgHostNameEmpty, fs) else
      (Exit0, appendTo config_file (newBlock (portIsNot22 T) host a) (touch config_file fs))
  end.

(** [sshm_view config_file host]: the status, and the lines the command
    prints after its heading. *)
Definition sshm_view (T : tools) (config_file host : string) (fs : gmap string text)
  : status * list string :=
  if String.eqb host EmptyString then (Exit1 msgNoHost, []) else
  match fs !! config_file with
  | None => (Aborted, [])
  | Some c =>
      if negb (awkAccepts T host) then (Aborted, []) else
      let host_info := awkRange (awkHostLine T) host false (readLines c) in
      if captureIsEmpty host_info then (Exit1 msgNotFound, [])
      else (Exit0, dropTrailingEmpty host_info)
  end.


(** *** Contexts *)

(** What the context commands read and write: the files, the permission
    bits of the files on which [chmod] has set them, and the shell variables
    [SSHM_CONTEXT] and [CONFIG_FILE].  A file is named by the text of its
    path. *)
Record session := mkSession {
  sfiles : gmap string (list string);
  sperms : gmap string Z;
  SSHM_CONTEXT : string;
  CONFIG_FILE : string
}.

Section Contexts.

(** [$HOME]. *)
Variable HOME : string.

Definition CONFIG_DIR : string := HOME +:+ "/.config/sshm".
Definition DEFAULT_CONFIG : string := HOME +:+ "/.ssh/config".
Definition CURRENT_CONTEXT_FILE : string := CONFIG_DIR +:+ "/.current_context".

Definition contextPath (context : string) : string := CONFIG_DIR +:+ "/" +:+ context.

(** [[ -f path ]]. *)
Definition isFile (fs : gmap string (list string)) (path : string) : bool :=
  match fs !! path with Some _ => true | None => false end.

(** The start of the script: [SSHM_CONTEXT], when the environment does not
    set it, comes from the current-context file or is the default; then
    [CONFIG_FILE] is set from it. *)
Definition startSession (env : option string) (fs : gmap string (list string))
    (perms : gmap string Z) : session :=
  let context :=
    match env with
    | Some c => if String.eqb c EmptyString
                then match fs !! CURRENT_CONTEXT_FILE with
                     | Some lines => captured lines
                     | None => DEFAULT_CONFIG
                     end
                else c
    | None => match fs !! CURRENT_CONTEXT_FILE with
              | Some lines => captured lines
              | None => DEFAULT_CONFIG
              end
    end in
  mkSession fs perms context context.

(** [context_use]. *)
Definition context_use (context : string) (s : session) : status * session :=
  if String.eqb context EmptyString then (Exit1 msgNoContext, s) else
  if String.eqb context "default" then
    (Exit0, mkSession (<[CURRENT_CONTEXT_FILE := linesOf DEFAULT_CONFIG]> (sfiles s))
              (sperms s) DEFAULT_CONFIG DEFAULT_CONFIG)
  else if negb (isFile (sfiles s) (contextPath context)) then
    (Exit1 (msgContextMissing context), s)
  else
    (Exit0, mkSession (<[CURRENT_CONTEXT_FILE := linesOf (contextPath context)]> (sfiles s))
              (sperms s) (contextPath context) (contextPath context)).

(** [context_create]. *)
Definition context_create (context : string) (s : session) : status * session :=
  if String.eqb context EmptyString then (Exit1 msgNoContext, s) else
  if isFile (sfiles s) (contextPath context) then (Exit1 (msgContextExists context), s) else
  (Exit0, mkSession (touch (contextPath context) (sfiles s))
            (<[contextPath context := History.octal 6 0 0]> (sperms s))
            (SSHM_CONTEXT s) (CONFIG_FILE s)).

(** [context_delete]. *)
Definition context_delete (context : string) (s : session) : status * session :=
  if String.eqb context EmptyString then (Exit1 msgNoContext, s) else
  if negb (isFile (sfiles s) (contextPath context)) then
    (Exit1 (msgContextMissing context), s)
  else
    let fs := rm_f (contextPath context) (sfiles s) in
    let perms := delete (contextPath context) (sperms s) in
    if String.eqb (SSHM_CONTEXT s) (contextPath context) then
      (Exit0, mkSession (<[CURRENT_CONTEXT_FILE := linesOf DEFAULT_CONFIG]> fs)
                perms DEFAULT_CONFIG DEFAULT_CONFIG)
    else (Exit0, mkSession fs perms (SSHM_CONTEXT s) (CONFIG_FILE s)).

End Contexts.

End ShellMore.

(** ** [internal/ui]: the focus of the edit form *)
Module EditForm.
Import History.

(** A [textinput.Model], as far as the form reads and sets it: its value
    and whether it has the focus. *)
Record input := mkInput { value : string; hasFocus : bool }.

Definition Focus (i : input) : input := mkInput (value i) true.
Definition Blur (i : input) : input := mkInput (value i) false.

(** [textinput.New()] followed by [Focus()]. *)
Definition newFocusedInput : input := mkInput EmptyString true.

Definition focusAreaHosts : Z := 0.
Definition focusAreaProperties : Z := 1.

(** The fields of [editFormModel] that the focus handling uses. *)
Record editFormModel := mkEditForm {
  hostInputs : list input;
  inputs : list input;
  focusArea : Z;
  focused : Z
}.

(** [len(l)], an [int]. *)
Definition len {A} (l : list A) : Z := Z.of_nat (length l).

(** [l[i].Focus()] or [l[i].Blur()]; [None] when the index is out of range
    and the program panics. *)
Definition updateAt (f : input -> input) (i : Z) (l : list input) : option (list input) :=
  if (i <? 0)%Z then None
  else match l !! Z.to_nat i with
       | Some x => Some (<[Z.to_nat i := f x]> l)
       | None => None
       end.

(** [updateFocus]. *)
Definition updateFocus (m : editFormModel) : option editFormModel :=
  let hs := map Blur (hostInputs m) in
  let ps := map Blur (inputs m) in
  if (focusArea m =? focusAreaHosts)%Z then
    if (focused m <? len hs)%Z then
      match updateAt Focus (focused m) hs with
      | Some hs' => Some (mkEditForm hs' ps (focusArea m) (focused m))
      | None => None
      end
    else Some (mkEditForm hs ps (focusArea m) (focused m))
  else
    if (focused m <? len ps)%Z then
      match updateAt Focus (focused m) ps with
      | Some ps' => Some (mkEditForm hs ps' (focusArea m) (focused m))
      | None => None
      end
    else Some (mkEditForm hs ps (focusArea m) (focused m)).

(** What the keys [tab], [shift+tab], [enter], [up] and [down] do in
    [Update]: submit the form, or move the focus ([None]: a panic). *)
Inductive moved :=
  | Submit
  | Moved (m : option editFormModel).

Definition navigate (s : string) (m : editFormModel) : moved :=
  let totalFields := wrap (len (hostInputs m) + len (inputs m)) in
  let currentGlobalIndex := focused m in
  let currentGlobalIndex :=
    if (focusArea m =? focusAreaProperties)%Z
    then wrap (len (hostInputs m) + focused m) else currentGlobalIndex in
  if String.eqb s "enter" && (currentGlobalIndex =? wrap (totalFields - 1))%Z then Submit
  else
    let currentGlobalIndex :=
      if String.eqb s "up" || String.eqb s "shift+tab"
      then wrap (currentGlobalIndex - 1) else wrap (currentGlobalIndex + 1) in
    let currentGlobalIndex :=
      if (totalFields <=? currentGlobalIndex)%Z then 0%Z
      else if (currentGlobalIndex <? 0)%Z then wrap (totalFields - 1)
      else currentGlobalIndex in
    if (currentGlobalIndex <? len (hostInputs m))%Z then
      Moved (updateFocus (mkEditForm (hostInputs m) (inputs m) focusAreaHosts currentGlobalIndex))
    else
      Moved (updateFocus (mkEditForm (hostInputs m) (inputs m) focusAreaProperties
                            (wrap (currentGlobalIndex - len (hostInputs m))))).

(** [addHostInput]. *)
Definition addHostInput (m : editFormModel) : option editFormModel :=
  let blurred :=
    if (focusArea m =? focusAreaHosts)%Z && (focused m <? len (hostInputs m))%Z then
      match updateAt Blur (focused m) (hostInputs m) with
      | Some hs => Some (hs, inputs m)
      | None => None
      end
    else if (focusArea m =? focusAreaProperties)%Z && (focused m <? len (inputs m))%Z then
      match updateAt Blur (focused m) (inputs m) with
      | Some ps => Some (hostInputs m, ps)
      | None => None
      end
    else Some (hostInputs m, inputs m) in
  match blurred with
  | None => None
  | Some (hs, ps) =>
      let hs := (hs ++ [newFocusedInput])%list in
      Some (mkEditForm hs ps focusAreaHosts (wrap (len hs - 1)))
  end.

(** [deleteHostInput].  The two slice expressions panic when [focused] is
    negative, and when [focused+1], as the machine computes it, is negative
    or beyond the length. *)
Definition deleteHostInput (m : editFormModel) : option editFormModel :=
  if (len (hostInputs m) <=? 1)%Z || negb (focusArea m =? focusAreaHosts)%Z then Some m
  else
    if (focused m <? 0)%Z || (wrap (focused m + 1) <? 0)%Z
       || (len (hostInputs m) <? wrap (focused m + 1))%Z then None
    else
      let hs := (take (Z.to_nat (focused m)) (hostInputs m)
                 ++ drop (Z.to_nat (wrap (focused m + 1))) (hostInputs m))%list in
      let focused' := if (len hs <=? focused m)%Z then wrap (len hs - 1) else focused m in
      if (0 <? len hs)%Z then
        match updateAt Focus focused' hs with
        | Some hs' => Some (mkEditForm hs' (inputs m) (focusArea m) focused')
        | None => None
        end
      else Some (mkEditForm hs (inputs m) (focusArea m) focused').

End EditForm.

(** * Properties *)

(** ** Strings *)
Module GoStringsFacts.
Import GoStrings.

Lemma slice_to_app (a b : string) : slice_to (String.length a) (a +:+ b) = a.
Proof. induction a as [|x a IH]; simpl; [by destruct b | by rewrite IH]. Qed.

Lemma slice_from_app (a b : string) : slice_from (String.length a) (a +:+ b) = b.
Proof. induction a as [|x a IH]; simpl; [by destruct b | done]. Qed.

Lemma slice_from_S_app (a b : string) (c : ascii) :
  slice_from (S (String.length a)) (a +:+ String c b) = b.
Proof. induction a as [|x a IH]; simpl; [done | exact IH]. Qed.

Lemma indexByte_app_sep (c : ascii) (a b : string) :
  indexByte c a = None ->
  indexByte c (a +:+ String c b) = Some (String.length a).
Proof.
  induction a as [|x a IH]; simpl.
  - intros _. by rewrite Ascii.eqb_refl.
  - destruct (Ascii.eqb x c); [done |].
    destruct (indexByte c a) eqn:E; [done |]. intros _. by rewrite IH.
Qed.

Lemma lastIndexByte_app_sep (c : ascii) (a b : string) :
  lastIndexByte c b = None ->
  lastIndexByte c (a +:+ String c b) = Some (String.length a).
Proof.
  intros Hb. induction a as [|x a IH]; simpl.
  - by rewrite Hb, Ascii.eqb_refl.
  - by rewrite IH.
Qed.

Lemma lastIndexByte_None_indexByte (c : ascii) (s : string) :
  lastIndexByte c s = None <-> indexByte c s = None.
Proof.
  induction s as [|x s IH]; simpl; [done |].
  destruct (lastIndexByte c s), (indexByte c s), (Ascii.eqb x c); simpl;
    try done; destruct IH as [H1 H2]; split; intros; try done;
    try (by specialize (H1 eq_refl)); try (by specialize (H2 eq_refl)).
Qed.

Lemma prefix_app (p s : string) : String.prefix p (p +:+ s) = true.
Proof.
  induction p as [|x p IH]; simpl; [by destruct s |].
  destruct (ascii_dec x x); [exact IH | done].
Qed.

Lemma prefix_cons (c a : ascii) (p s : string) :
  String.prefix (String c p) (String a s) = if ascii_dec c a then String.prefix p s else false.
Proof. reflexivity. Qed.

Lemma length_app (a b : string) :
  String.length (a +:+ b) = String.length a + String.length b.
Proof. induction a; simpl; auto. Qed.

Lemma append_assoc (a b c : string) : (a +:+ b) +:+ c = a +:+ (b +:+ c).
Proof. induction a as [|x a IH]; simpl; [done | by rewrite IH]. Qed.

Lemma slice_to_prefix (p s : string) :
  slice_to (String.length p) s = p -> String.prefix p s = true.
Proof.
  revert s. induction p as [|x p IH]; intros [|y s]; simpl; try done.
  intros [= Hxy H]. subst y.
  destruct (ascii_dec x x); [by apply IH | done].
Qed.

Lemma containsByte_true (c : ascii) (s : string) :
  containsByte c s = true <-> indexByte c s <> None.
Proof. unfold containsByte. destruct (indexByte c s); split; done. Qed.

Lemma containsByte_false (c : ascii) (s : string) :
  containsByte c s = false <-> indexByte c s = None.
Proof. unfold containsByte. destruct (indexByte c s); split; done. Qed.

End GoStringsFacts.

(** ** The manual-connection codec *)
Module CodecFacts.
Import GoStrings GoStringsFacts History.

(** The user and the port an identifier carries: the fields of the
    connection with the two defaults filled in. *)
Definition userOrDefault (conn : ManualConnection) : string :=
  if String.eqb (User conn) EmptyString then "default" else User conn.

Definition portOrDefault (conn : ManualConnection) : string :=
  if String.eqb (Port conn) EmptyString then "22" else Port conn.

Lemma generateManualHostID_shape (conn : ManualConnection) :
  generateManualHostID conn =
  "manual:" +:+ ((userOrDefault conn +:+ String "@" (Hostname conn))
                 +:+ String ":" (portOrDefault conn)).
Proof.
  unfold generateManualHostID, userOrDefault, portOrDefault.
  cbv zeta. by rewrite append_assoc.
Qed.

Lemma IsManualConnection_prefixed (rest : string) :
  rest <> EmptyString -> IsManualConnection ("manual:" +:+ rest) = true.
Proof.
  intros Hne. unfold IsManualConnection.
  change (slice_to 7 ("manual:" +:+ rest)) with (slice_to (String.length "manual:") ("manual:" +:+ rest)).
  rewrite slice_to_app, length_app. simpl String.length.
  destruct rest; [done |]. simpl. done.
Qed.

Lemma IsManualConnection_generate (conn : ManualConnection) :
  IsManualConnection (generateManualHostID conn) = true.
Proof.
  rewrite generateManualHostID_shape. apply IsManualConnection_prefixed.
  destruct (userOrDefault conn); done.
Qed.

Lemma userOrDefault_no_at (conn : ManualConnection) :
  indexByte "@" (User conn) = None -> indexByte "@" (userOrDefault conn) = None.
Proof. unfold userOrDefault. by destruct (String.eqb (User conn) EmptyString). Qed.

Lemma portOrDefault_no_colon (conn : ManualConnection) :
  indexByte ":" (Port conn) = None -> lastIndexByte ":" (portOrDefault conn) = None.
Proof.
  intros H. apply lastIndexByte_None_indexByte. unfold portOrDefault.
  by destruct (String.eqb (Port conn) EmptyString).
Qed.

(** C9.  [IsManualConnection] accepts every identifier that
    [generateManualHostID] produces for a connection with a non-empty host
    name, and rejects every string that does not start with the reserved
    prefix ["manual:"]. *)
Theorem IsManualConnection_generated_and_unprefixed :
  (forall conn : ManualConnection,
      Hostname conn <> EmptyString ->
      IsManualConnection (generateManualHostID conn) = true)
  /\ (forall hostName : string,
        HasPrefix hostName "manual:" = false ->
        IsManualConnection hostName = false).
Proof.
  split.
  - intros conn _. apply IsManualConnection_generate.
  - intros hostName Hp. unfold IsManualConnection.
    destruct (String.eqb (slice_to 7 hostName) "manual:") eqn:E.
    + apply String.eqb_eq in E. apply (slice_to_prefix "manual:") in E.
      unfold HasPrefix in Hp. congruence.
    + apply andb_false_r.
Qed.

Lemma IsManualConnection_generated_and_unprefixed_witness :
  IsManualConnection
    (generateManualHostID (mkManualConnection "guillaume" "127.0.0.1" "2222" "~/.ssh/id_rsa")) = true
  /\ IsManualConnection "myhost" = false.
Proof.
  split.
  - apply (proj1 IsManualConnection_generated_and_unprefixed). simpl. discriminate.
  - apply (proj2 IsManualConnection_generated_and_unprefixed). reflexivity.
Defined.

(** C2, as stated, fails: a port that holds a [':'] is cut at its last
    colon, and what precedes it ends up in the host name. *)
Lemma decode_encode_port_with_colon :
  let conn := mkManualConnection "u" "h" "2:2" EmptyString in
  indexByte "@" (User conn) = None
  /\ Hostname conn <> EmptyString
  /\ ParseManualConnectionID (generateManualHostID conn) = Some ("u", "h:2", "2")
  /\ ParseManualConnectionID (generateManualHostID conn)
     <> Some (userOrDefault conn, Hostname conn, portOrDefault conn).
Proof. simpl. repeat split; [discriminate | vm_compute; discriminate]. Qed.

(** C2, amended.  For a connection whose user holds no ['@'], whose port
    holds no [':'] and whose host name is not empty, decoding the encoded
    identifier succeeds and returns the user (["default"] for an empty one),
    the host name, and the port (["22"] for an empty one). *)
Theorem decode_encode_roundtrip (conn : ManualConnection) :
  indexByte "@" (User conn) = None ->
  indexByte ":" (Port conn) = None ->
  Hostname conn <> EmptyString ->
  ParseManualConnectionID (generateManualHostID conn)
  = Some (userOrDefault conn, Hostname conn, portOrDefault conn).
Proof.
  intros Hu Hp _. unfold ParseManualConnectionID.
  rewrite IsManualConnection_generate. simpl negb. cbv iota.
  rewrite generateManualHostID_shape.
  change (slice_from 7 ("manual:" +:+ ?r)) with r.
  cbv zeta.
  rewrite (lastIndexByte_app_sep ":" _ _ (portOrDefault_no_colon conn Hp)).
  rewrite slice_to_app, slice_from_S_app.
  rewrite (indexByte_app_sep "@" _ _ (userOrDefault_no_at conn Hu)).
  by rewrite slice_to_app, slice_from_S_app.
Qed.

Lemma decode_encode_roundtrip_witness :
  ParseManualConnectionID
    (generateManualHostID (mkManualConnection EmptyString "example.com" "2222" EmptyString))
  = Some ("default", "example.com", "2222").
Proof.
  apply (decode_encode_roundtrip
           (mkManualConnection EmptyString "example.com" "2222" EmptyString));
    [reflexivity | reflexivity | discriminate].
Defined.

End CodecFacts.

(** ** The command-line parser *)
Module ParserFacts.
Import GoStrings GoStringsFacts History.

(** The connection [ParseSSHArgs] starts from. *)
Definition initialConn (currentUser : option string) : ManualConnection :=
  mkManualConnection (default EmptyString currentUser) EmptyString "22" EmptyString.

(** The token at position [k] is not the value of a [-p] or [-i]: it is the
    first token, or the token before it is neither ["-p"] nor ["-i"]. *)
Definition notTakenAsValue (args : list string) (k : nat) : Prop :=
  k = 0 \/ exists prev, args !! (k - 1) = Some prev
                        /\ String.eqb prev "-p" = false /\ String.eqb prev "-i" = false.

Lemma notTakenAsValue_tail (a : string) (l : list string) (k : nat) :
  notTakenAsValue (a :: l) (S k) -> notTakenAsValue l k.
Proof.
  intros [H | (prev & H & Hp & Hi)]; [done |].
  destruct k as [|k]; [by left |]. right. exists prev.
  simpl in *. by rewrite Nat.sub_0_r.
Qed.

Lemma notTakenAsValue_head (a : string) (l : list string) :
  notTakenAsValue (a :: l) 1 -> String.eqb a "-p" = false /\ String.eqb a "-i" = false.
Proof. intros [H | (prev & [= <-] & Hp & Hi)]; done. Qed.

Lemma isConfigFlag_inv (tok : string) :
  isConfigFlag tok = true -> tok = "-F" \/ tok = "-c" \/ tok = "--config".
Proof.
  unfold isConfigFlag. intros H.
  apply orb_true_iff in H as [H | H]; [apply orb_true_iff in H as [H | H] |];
    apply String.eqb_eq in H; auto.
Qed.

Lemma isConfigFlag_dash (tok : string) : isConfigFlag tok = true -> HasPrefix tok "-" = true.
Proof. intros H. by destruct (isConfigFlag_inv tok H) as [-> | [-> | ->]]. Qed.

Lemma parseLoop_configFlag (conn : ManualConnection) (tok : string) (rest : list string) :
  isConfigFlag tok = true -> parseLoop conn (tok :: rest) = None.
Proof. intros H. by destruct (isConfigFlag_inv tok H) as [-> | [-> | ->]]. Qed.

(** One turn of the loop. *)
Lemma parseLoop_cons (conn : ManualConnection) (arg : string) (rest : list string) :
  parseLoop conn (arg :: rest) =
  if String.eqb arg "-p" then
    match rest with
    | v :: rest' => parseLoop (withPort conn v) rest'
    | [] => Some conn
    end
  else if HasPrefix arg "-p" then parseLoop (withPort conn (slice_from 2 arg)) rest
  else if String.eqb arg "-i" then
    match rest with
    | v :: rest' => parseLoop (withIdentity conn v) rest'
    | [] => Some conn
    end
  else if isConfigFlag arg then None
  else if HasPrefix arg "-" then
    match rest with
    | v :: rest' => if negb (HasPrefix v "-") then parseLoop conn rest' else parseLoop conn rest
    | [] => Some conn
    end
  else if containsByte "@" arg then
    match splitN2 "@" arg with
    | Some (u, h) => parseLoop (withUserHost conn u h) rest
    | None => parseLoop conn rest
    end
  else if String.eqb (Hostname conn) EmptyString then parseLoop (withHostname conn arg) rest
  else parseLoop conn rest.
Proof. reflexivity. Qed.

Lemma parseLoop_rejects_bounded (n : nat) :
  forall (args : list string) (conn : ManualConnection) (k : nat) (tok : string),
    length args <= n ->
    args !! k = Some tok -> isConfigFlag tok = true -> notTakenAsValue args k ->
    parseLoop conn args = None.
Proof.
  induction n as [|n IH]; intros args conn k tok Hlen Hk Htok Hnt.
  - destruct args; [done | simpl in Hlen; lia].
  - destruct args as [|arg rest]; [done |].
    destruct k as [|k].
    { injection Hk as ->. by apply parseLoop_configFlag. }
    simpl in Hk, Hlen.
    assert (Hrest : forall c, parseLoop c rest = None).
    { intros c. apply (IH rest c k tok); [lia | done | done |].
      by apply notTakenAsValue_tail in Hnt. }
    assert (Htail : forall c v rest', rest = v :: rest' -> k <> 0 -> parseLoop c rest' = None).
    { intros c v rest' -> Hk0. destruct k as [|k]; [done |].
      apply (IH rest' c k tok); [simpl in Hlen; lia | done | done |].
      apply notTakenAsValue_tail in Hnt. by apply notTakenAsValue_tail in Hnt. }
    assert (Hvalue : k = 0 -> String.eqb arg "-p" = false /\ String.eqb arg "-i" = false).
    { intros ->. by apply notTakenAsValue_head in Hnt. }
    rewrite parseLoop_cons.
    destruct (String.eqb arg "-p") eqn:Ep.
    { destruct rest as [|v rest']; [done |].
      apply (Htail _ v rest' eq_refl). intros ->. by destruct Hvalue. }
    destruct (HasPrefix arg "-p"); [apply Hrest |].
    destruct (String.eqb arg "-i") eqn:Ei.
    { destruct rest as [|v rest']; [done |].
      apply (Htail _ v rest' eq_refl). intros ->. by destruct Hvalue. }
    destruct (isConfigFlag arg); [done |].
    destruct (HasPrefix arg "-").
    { destruct rest as [|v rest']; [done |].
      destruct (negb (HasPrefix v "-")) eqn:Ev; [| apply Hrest].
      apply (Htail _ v rest' eq_refl). intros ->. injection Hk as ->.
      apply isConfigFlag_dash in Htok. rewrite Htok in Ev. done. }
    destruct (containsByte "@" arg).
    { destruct (splitN2 "@" arg) as [[u h]|]; apply Hrest. }
    destruct (String.eqb (Hostname conn) EmptyString); apply Hrest.
Qed.

Lemma eqb_dash_p_prefix (arg : string) : String.eqb arg "-p" = true -> HasPrefix arg "-p" = true.
Proof. intros H. apply String.eqb_eq in H. by subst. Qed.

Lemma parseLoop_port_bounded (n : nat) :
  forall (args : list string) (conn conn' : ManualConnection),
    length args <= n ->
    Forall (fun a => HasPrefix a "-p" = false) args ->
    parseLoop conn args = Some conn' -> Port conn' = Port conn.
Proof.
  induction n as [|n IH]; intros args conn conn' Hlen Hall.
  - destruct args; [by intros [= <-] | simpl in Hlen; lia].
  - destruct args as [|arg rest]; [by intros [= <-] |].
    apply Forall_cons in Hall as [Harg Hrest]. simpl in Hlen.
    assert (Hnext : forall c, Port c = Port conn ->
                              parseLoop c rest = Some conn' -> Port conn' = Port conn).
    { intros c <-. apply IH; [lia | done]. }
    assert (Hskip : forall c v rest', rest = v :: rest' -> Port c = Port conn ->
                                      parseLoop c rest' = Some conn' -> Port conn' = Port conn).
    { intros c v rest' -> <-. apply Forall_cons in Hrest as [_ Hrest'].
      apply IH; [simpl in Hlen; lia | done]. }
    rewrite parseLoop_cons.
    destruct (String.eqb arg "-p") eqn:Ep.
    { apply eqb_dash_p_prefix in Ep. congruence. }
    rewrite Harg.
    destruct (String.eqb arg "-i").
    { destruct rest as [|v rest']; [by intros [= <-] | by apply (Hskip _ v rest')]. }
    destruct (isConfigFlag arg); [done |].
    destruct (HasPrefix arg "-").
    { destruct rest as [|v rest']; [by intros [= <-] |].
      destruct (negb (HasPrefix v "-")); [by apply (Hskip _ v rest') | by apply Hnext]. }
    destruct (containsByte "@" arg).
    { destruct (splitN2 "@" arg) as [[u h]|]; by apply Hnext. }
    destruct (String.eqb (Hostname conn) EmptyString); by apply Hnext.
Qed.

Lemma parseLoop_user_bounded (n : nat) :
  forall (args : list string) (conn conn' : ManualConnection),
    length args <= n ->
    Forall (fun a => containsByte "@" a = false) args ->
    parseLoop conn args = Some conn' -> User conn' = User conn.
Proof.
  induction n as [|n IH]; intros args conn conn' Hlen Hall.
  - destruct args; [by intros [= <-] | simpl in Hlen; lia].
  - destruct args as [|arg rest]; [by intros [= <-] |].
    apply Forall_cons in Hall as [Harg Hrest]. simpl in Hlen.
    assert (Hnext : forall c, User c = User conn ->
                              parseLoop c rest = Some conn' -> User conn' = User conn).
    { intros c <-. apply IH; [lia | done]. }
    assert (Hskip : forall c v rest', rest = v :: rest' -> User c = User conn ->
                                      parseLoop c rest' = Some conn' -> User conn' = User conn).
    { intros c v rest' -> <-. apply Forall_cons in Hrest as [_ Hrest'].
      apply IH; [simpl in Hlen; lia | done]. }
    rewrite parseLoop_cons, Harg.
    destruct (String.eqb arg "-p").
    { destruct rest as [|v rest']; [by intros [= <-] | by apply (Hskip _ v rest')]. }
    destruct (HasPrefix arg "-p"); [by apply Hnext |].
    destruct (String.eqb arg "-i").
    { destruct rest as [|v rest']; [by intros [= <-] | by apply (Hskip _ v rest')]. }
    destruct (isConfigFlag arg); [done |].
    destruct (HasPrefix arg "-").
    { destruct rest as [|v rest']; [by intros [= <-] |].
      destruct (negb (HasPrefix v "-")); [by apply (Hskip _ v rest') | by apply Hnext]. }
    destruct (String.eqb (Hostname conn) EmptyString); by apply Hnext.
Qed.

Lemma ParseSSHArgs_Some (currentUser : option string) (args : list string)
    (conn : ManualConnection) :
  ParseSSHArgs currentUser args = Some conn <->
  args <> [] /\ parseLoop (initialConn currentUser) args = Some conn
  /\ Hostname conn <> EmptyString.
Proof.
  unfold ParseSSHArgs. fold (initialConn currentUser).
  destruct args as [|a l]; [by split; [| intros [? _]] |].
  destruct (parseLoop (initialConn currentUser) (a :: l)) as [c|]; [| by split; [| intros (_ & ? & _)]].
  destruct (String.eqb (Hostname c) EmptyString) eqn:E; simpl.
  - apply String.eqb_eq in E. split; [done |]. intros (_ & [= <-] & H). done.
  - apply String.eqb_neq in E. split.
    + intros [= <-]. done.
    + by intros (_ & [= <-] & _).
Qed.

(** C8, as stated, fails: a [-p] (or a [-i]) takes the token after it as
    its value without looking at it, so a ["-F"] in that place is not a
    reason to reject. *)
Lemma ParseSSHArgs_config_flag_taken_as_port :
  In "-F" ["-p"; "-F"; "host"]
  /\ ParseSSHArgs (Some "alice") ["-p"; "-F"; "host"]
     = Some (mkManualConnection "alice" "host" "-F" EmptyString).
Proof. split; [right; by left | reflexivity]. Qed.

(** C8, amended.  [ParseSSHArgs] returns [ok = false] for every argument
    list in which a token equal to ["-F"], ["-c"] or ["--config"] stands
    first or right after a token that is neither ["-p"] nor ["-i"], and for
    every argument list that leaves the host name empty.  When it succeeds
    the host name is not empty, the port is ["22"] if no token starts with
    ["-p"], and the user is the invoking user (the empty string when the
    lookup of that user failed) if no token holds an ['@']. *)
Theorem ParseSSHArgs_rejects_and_defaults (currentUser : option string) (args : list string) :
  (forall (k : nat) (tok : string),
      args !! k = Some tok -> isConfigFlag tok = true -> notTakenAsValue args k ->
      ParseSSHArgs currentUser args = None)
  /\ (forall conn : ManualConnection,
        parseLoop (initialConn currentUser) args = Some conn ->
        Hostname conn = EmptyString ->
        ParseSSHArgs currentUser args = None)
  /\ (forall conn : ManualConnection,
        ParseSSHArgs currentUser args = Some conn ->
        Hostname conn <> EmptyString
        /\ (Forall (fun a => HasPrefix a "-p" = false) args -> Port conn = "22")
        /\ (Forall (fun a => containsByte "@" a = false) args ->
            User conn = default EmptyString currentUser)).
Proof.
  split; [| split].
  - intros k tok Hk Htok Hnt. unfold ParseSSHArgs.
    rewrite (parseLoop_rejects_bounded (length args) args _ k tok); [| lia | done..].
    by destruct args.
  - intros conn Hloop Hhost. unfold ParseSSHArgs. fold (initialConn currentUser).
    rewrite Hloop, Hhost. by destruct args.
  - intros conn (Hne & Hloop & Hhost)%ParseSSHArgs_Some.
    split; [done |]. split; intros Hall.
    + by rewrite (parseLoop_port_bounded (length args) args _ conn (le_n _) Hall Hloop).
    + by rewrite (parseLoop_user_bounded (length args) args _ conn (le_n _) Hall Hloop).
Qed.

Lemma ParseSSHArgs_rejects_and_defaults_witness :
  ParseSSHArgs (Some "alice") ["-v"; "-F"; "~/.ssh/config"; "host"] = None
  /\ ParseSSHArgs (Some "alice") ["-A"] = None
  /\ (Hostname (mkManualConnection "alice" "example.com" "22" "~/.ssh/id_rsa") <> EmptyString
      /\ Port (mkManualConnection "alice" "example.com" "22" "~/.ssh/id_rsa") = "22"
      /\ User (mkManualConnection "alice" "example.com" "22" "~/.ssh/id_rsa") = "alice").
Proof.
  split; [| split].
  - apply (proj1 (ParseSSHArgs_rejects_and_defaults (Some "alice")
                    ["-v"; "-F"; "~/.ssh/config"; "host"]) 1 "-F");
      [reflexivity | reflexivity |].
    right. exists "-v". repeat split; reflexivity.
  - apply (proj1 (proj2 (ParseSSHArgs_rejects_and_defaults (Some "alice") ["-A"]))
             (initialConn (Some "alice"))); reflexivity.
  - destruct (proj2 (proj2 (ParseSSHArgs_rejects_and_defaults (Some "alice")
                              ["-i"; "~/.ssh/id_rsa"; "example.com"]))
                (mkManualConnection "alice" "example.com" "22" "~/.ssh/id_rsa") eq_refl)
      as (H1 & H2 & H3).
    split; [exact H1 | split].
    + apply H2. repeat constructor.
    + apply H3. repeat constructor.
Defined.

Lemma manualLoop_true (args : list string) :
  manualLoop args = true <->
  exists tok, In tok args /\ (containsByte "@" tok = true \/ HasPrefix tok "-p" = true).
Proof.
  induction args as [|arg rest IH]; simpl.
  - split; [done | by intros (? & [] & _)].
  - destruct (String.eqb arg "-p") eqn:Ep; simpl.
    { split; [intros _ | done]. exists arg. split; [by left |]. right.
      by apply eqb_dash_p_prefix. }
    destruct (HasPrefix arg "-p") eqn:Hp.
    { split; [intros _ | done]. exists arg. split; [by left | by right]. }
    destruct (containsByte "@" arg) eqn:Hc.
    { split; [intros _ | done]. exists arg. split; [by left | by left]. }
    rewrite IH. split.
    + intros (tok & Hin & H). exists tok. split; [by right | done].
    + intros (tok & [<- | Hin] & H); [destruct H; congruence |]. by exists tok.
Qed.

(** A bare token: it is not empty, holds no ['@'] and does not start with
    a dash. *)
Definition bare (tok : string) : Prop :=
  tok <> EmptyString /\ containsByte "@" tok = false /\ HasPrefix tok "-" = false.

Lemma bare_not_flag (tok : string) :
  HasPrefix tok "-" = false ->
  String.eqb tok "-p" = false /\ HasPrefix tok "-p" = false
  /\ String.eqb tok "-i" = false /\ isConfigFlag tok = false.
Proof.
  unfold HasPrefix, isConfigFlag. destruct tok as [|a tok]; [done |].
  rewrite !prefix_cons.
  destruct (ascii_dec "-" a) as [<- | Hne]; [by destruct tok |]. intros _.
  assert (Ascii.eqb a "-" = false) as E by (apply Ascii.eqb_neq; congruence).
  simpl String.eqb. by rewrite E.
Qed.

Lemma parseLoop_bare (conn : ManualConnection) (host : string) :
  bare host -> Hostname conn = EmptyString ->
  parseLoop conn [host] = Some (withHostname conn host).
Proof.
  intros (_ & Hat & Hdash) Hh. rewrite parseLoop_cons.
  destruct (bare_not_flag host Hdash) as (-> & -> & -> & ->).
  by rewrite Hdash, Hat, Hh.
Qed.

(** C10.  [IsManualSSHCommand] answers [true] exactly when some token holds
    an ['@'] or starts with ["-p"].  So it answers [false] on a single bare
    host name, and on [-i key host] for a key path without ['@'] that does
    not start with ["-p"], while [ParseSSHArgs] accepts both lists: the two
    classifiers disagree there. *)
Theorem IsManualSSHCommand_iff_and_disagreement :
  (forall args : list string,
      IsManualSSHCommand args = true <->
      exists tok, In tok args /\ (containsByte "@" tok = true \/ HasPrefix tok "-p" = true))
  /\ (forall (currentUser : option string) (host : string),
        bare host ->
        IsManualSSHCommand [host] = false
        /\ ParseSSHArgs currentUser [host]
           = Some (mkManualConnection (default EmptyString currentUser) host "22" EmptyString))
  /\ (forall (currentUser : option string) (key host : string),
        containsByte "@" key = false -> HasPrefix key "-p" = false -> bare host ->
        IsManualSSHCommand ["-i"; key; host] = false
        /\ ParseSSHArgs currentUser ["-i"; key; host]
           = Some (mkManualConnection (default EmptyString currentUser) host "22" key)).
Proof.
  split; [| split].
  - intros [|a l]; [split; [done | by intros (? & [] & _)] |].
    apply (manualLoop_true (a :: l)).
  - intros currentUser host Hb.
    pose proof Hb as (Hne & Hat & Hdash).
    destruct (bare_not_flag host Hdash) as (Ep & Hp & _ & _).
    split.
    + simpl. by rewrite Ep, Hp, Hat.
    + unfold ParseSSHArgs. fold (initialConn currentUser).
      rewrite (parseLoop_bare (initialConn currentUser) host Hb eq_refl). simpl.
      apply String.eqb_neq in Hne. by rewrite Hne.
  - intros currentUser key host Hkat Hkp Hb.
    pose proof Hb as (Hne & Hat & Hdash).
    destruct (bare_not_flag host Hdash) as (Ep & Hp & _ & _).
    split.
    + simpl. rewrite Hkat, Hkp, Ep, Hp, Hat.
      destruct (String.eqb key "-p") eqn:E; [| done].
      apply eqb_dash_p_prefix in E. congruence.
    + unfold ParseSSHArgs. fold (initialConn currentUser).
      change (parseLoop (initialConn currentUser) ["-i"; key; host])
        with (parseLoop (withIdentity (initialConn currentUser) key) [host]).
      rewrite (parseLoop_bare (withIdentity (initialConn currentUser) key) host Hb eq_refl).
      simpl. apply String.eqb_neq in Hne. by rewrite Hne.
Qed.

Lemma IsManualSSHCommand_iff_and_disagreement_witness :
  (IsManualSSHCommand ["myhost"] = false
   /\ ParseSSHArgs (Some "alice") ["myhost"]
      = Some (mkManualConnection "alice" "myhost" "22" EmptyString))
  /\ (IsManualSSHCommand ["-i"; "~/.ssh/id_rsa"; "myhost"] = false
      /\ ParseSSHArgs (Some "alice") ["-i"; "~/.ssh/id_rsa"; "myhost"]
         = Some (mkManualConnection "alice" "myhost" "22" "~/.ssh/id_rsa")).
Proof.
  split.
  - apply (proj1 (proj2 IsManualSSHCommand_iff_and_disagreement) (Some "alice") "myhost").
    repeat split; [discriminate | reflexivity..].
  - apply (proj2 (proj2 IsManualSSHCommand_iff_and_disagreement)
             (Some "alice") "~/.ssh/id_rsa" "myhost"); [reflexivity | reflexivity |].
    repeat split; [discriminate | reflexivity..].
Defined.

End ParserFacts.

(** ** The history manager: recording and pruning *)
Module StoreFacts.
Import GoStrings GoStringsFacts History.

Lemma wrap_in_range (z : Z) : (minInt <= z <= maxInt)%Z -> wrap z = z.
Proof.
  unfold minInt, maxInt, wrap. intros H.
  rewrite Z.mod_small; lia.
Qed.

Lemma wrap_overflow : wrap (maxInt + 1) = minInt.
Proof. reflexivity. Qed.

(** *** [recordEntry] *)

Lemma recordEntry_new (now : Z) (hostName : string) (conns : gmap string ConnectionInfo) :
  conns !! hostName = None ->
  recordEntry now hostName conns !! hostName = Some (mkConnectionInfo hostName now 1 None).
Proof. intros H. unfold recordEntry. rewrite H. apply lookup_insert_eq. Qed.

Lemma recordEntry_existing (now : Z) (hostName : string) (conns : gmap string ConnectionInfo)
    (conn : ConnectionInfo) :
  conns !! hostName = Some conn ->
  recordEntry now hostName conns !! hostName
  = Some (mkConnectionInfo (HostName conn) now (wrap (ConnectCount conn + 1))
            (PortForwarding conn)).
Proof. intros H. unfold recordEntry. rewrite H. apply lookup_insert_eq. Qed.

Lemma recordEntry_other (now : Z) (hostName other : string)
    (conns : gmap string ConnectionInfo) :
  other <> hostName -> recordEntry now hostName conns !! other = conns !! other.
Proof.
  intros H. unfold recordEntry.
  destruct (conns !! hostName); by rewrite lookup_insert_ne.
Qed.

(** *** [os.WriteFile] *)

Lemma written_trace (p : string * string) (d : bytes) (perm : Z) (w : world) :
  trace (written p d perm w) = trace w.
Proof. unfold written. by destruct (files w !! p). Qed.

Lemma written_lookup (p : string * string) (d : bytes) (perm : Z) (w : world) :
  files (written p d perm w) !! p
  = Some (mkFile d (match files w !! p with Some f => mode f | None => perm end)).
Proof. unfold written. destruct (files w !! p); simpl; apply lookup_insert_eq. Qed.

Lemma written_other (p q : string * string) (d : bytes) (perm : Z) (w : world) :
  q <> p -> files (written p d perm w) !! q = files w !! q.
Proof. intros H. unfold written. destruct (files w !! p); simpl; by rewrite lookup_insert_ne. Qed.

Lemma written_environment (p : string * string) (d : bytes) (perm : Z) (w : world) :
  dirs (written p d perm w) = dirs w
  /\ fails (written p d perm w) = fails w
  /\ torn (written p d perm w) = torn w
  /\ sshmConfigDir (written p d perm w) = sshmConfigDir w
  /\ sshDirectory (written p d perm w) = sshDirectory w.
Proof. unfold written. by destruct (files w !! p). Qed.

Lemma WriteFile_trace (p : string * string) (d : bytes) (perm : Z) (w : world) :
  trace (snd (WriteFile p d perm w)) = EvWriteFile p perm :: trace w.
Proof.
  unfold WriteFile. simpl.
  destruct (fails w (SysWriteFile p)).
  - destruct (torn w p); [| done]. destruct (dirs w !! Dir p); [| done].
    simpl. by rewrite written_trace.
  - destruct (dirs w !! Dir p); [| done]. simpl. by rewrite written_trace.
Qed.

(** A write that reports no error leaves the bytes in the file. *)
Lemma WriteFile_ok (p : string * string) (d : bytes) (perm : Z) (w w' : world) :
  WriteFile p d perm w = (None, w') ->
  files w' !! p = Some (mkFile d (match files w !! p with Some f => mode f | None => perm end))
  /\ fails w (SysWriteFile p) = false.
Proof.
  unfold WriteFile. simpl.
  destruct (fails w (SysWriteFile p)).
  - destruct (torn w p); [| done]. by destruct (dirs w !! Dir p).
  - destruct (dirs w !! Dir p); [| done]. intros [= <-]. split; [| done].
    apply (written_lookup p d perm (logEvent (EvWriteFile p perm) w)).
Qed.

Lemma WriteFile_succeeds (p : string * string) (d : bytes) (perm : Z) (w : world) :
  fails w (SysWriteFile p) = false -> is_Some (dirs w !! Dir p) ->
  fst (WriteFile p d perm w) = None.
Proof. intros Hf [x Hd]. unfold WriteFile. simpl. by rewrite Hf, Hd. Qed.

Lemma MkdirAll_result (d : string) (perm : Z) (w : world) :
  (fst (MkdirAll d perm w) = Some ErrIO /\ fails w (SysMkdirAll d) = true
   /\ snd (MkdirAll d perm w) = logEvent (EvMkdirAll d perm) w)
  \/ (fst (MkdirAll d perm w) = None /\ fails w (SysMkdirAll d) = false
      /\ is_Some (dirs (snd (MkdirAll d perm w)) !! d)
      /\ files (snd (MkdirAll d perm w)) = files w
      /\ fails (snd (MkdirAll d perm w)) = fails w
      /\ torn (snd (MkdirAll d perm w)) = torn w
      /\ trace (snd (MkdirAll d perm w)) = EvMkdirAll d perm :: trace w).
Proof.
  unfold MkdirAll. simpl. destruct (fails w (SysMkdirAll d)); [by left | right].
  destruct (dirs w !! d) eqn:Ed; simpl.
  - rewrite Ed. by repeat split.
  - rewrite lookup_insert_eq. by repeat split.
Qed.

(** *** [saveHistory] *)

(** The calls [saveHistory] makes: the directory first, with [0700], then
    the document, with [0600]; nothing else. *)
Lemma saveHistory_trace (hm : HistoryManager) (w : world) :
  let w' := snd (saveHistory hm w) in
  trace w' = EvMkdirAll (Dir (historyPath hm)) (octal 7 0 0) :: trace w
  \/ trace w' = EvWriteFile (historyPath hm) (octal 6 0 0)
                :: EvMkdirAll (Dir (historyPath hm)) (octal 7 0 0) :: trace w.
Proof.
  cbv zeta. unfold saveHistory, bind, ret.
  destruct (MkdirAll_result (Dir (historyPath hm)) (octal 7 0 0) w)
    as [(He & _ & Hw) | (He & _ & _ & _ & _ & _ & Ht)];
    destruct (MkdirAll _ _ w) as [mk w1]; simpl in *; subst mk.
  - left. by rewrite Hw.
  - right. by rewrite WriteFile_trace, Ht.
Qed.

(** A save that reports no error leaves the whole document in the history
    file. *)
Lemma saveHistory_ok (hm : HistoryManager) (w w' : world) :
  saveHistory hm w = (None, w') ->
  exists f, files w' !! historyPath hm = Some f /\ data f = Document (history hm).
Proof.
  unfold saveHistory, bind, ret.
  destruct (MkdirAll _ _ w) as [[e |] w1]; [done |].
  intros Hw. apply WriteFile_ok in Hw as [Hf _]. by eexists.
Qed.

(** With the directory in place or creatable and the file writable, a save
    does succeed. *)
Lemma saveHistory_succeeds (hm : HistoryManager) (w : world) :
  fails w (SysMkdirAll (Dir (historyPath hm))) = false ->
  fails w (SysWriteFile (historyPath hm)) = false ->
  fst (saveHistory hm w) = None.
Proof.
  intros Hm Hw. unfold saveHistory, bind, ret.
  destruct (MkdirAll_result (Dir (historyPath hm)) (octal 7 0 0) w)
    as [(_ & Hf & _) | (He & _ & Hd & _ & Hfl & _)]; [congruence |].
  destruct (MkdirAll _ _ w) as [mk w1]; simpl in *; subst mk.
  apply WriteFile_succeeds; [by rewrite Hfl | done].
Qed.

Lemma Connections_mk (conns : gmap string ConnectionInfo) :
  Connections (mkConnectionHistory conns) = conns.
Proof. reflexivity. Qed.

(** The map of the manager is not [nil]. *)
Definition allocated (hm : HistoryManager) : Prop := connections (history hm) <> None.

Lemma allocated_history (hm : HistoryManager) :
  allocated hm -> history hm = mkConnectionHistory (Connections (history hm)).
Proof. unfold allocated, Connections. by destruct (history hm) as [[c |]]. Qed.

Lemma RecordConnection_history (now : Z) (hostName : string) (hm : HistoryManager) (w : world) :
  allocated hm ->
  fst (fst (RecordConnection now hostName hm w))
  = mkHistoryManager (historyPath hm)
      (mkConnectionHistory (recordEntry now hostName (Connections (history hm)))).
Proof.
  intros Ha. unfold RecordConnection, Connections, bind, ret.
  destruct (connections (history hm)) as [conns |] eqn:Ec; [| done].
  by destruct (saveHistory _ w).
Qed.

(** On the [nil] map [RecordConnection] panics: nothing is recorded and no
    call to the operating system is made. *)
Lemma RecordConnection_nil (now : Z) (hostName : string) (hm : HistoryManager) (w : world) :
  connections (history hm) = None ->
  RecordConnection now hostName hm w = (hm, Some PanicNilMap, w).
Proof. intros Hn. unfold RecordConnection. by rewrite Hn. Qed.

Lemma RecordConnection_saved (now : Z) (hostName : string) (hm hm' : HistoryManager)
    (w w' : world) :
  RecordConnection now hostName hm w = (hm', None, w') ->
  exists f, files w' !! historyPath hm' = Some f /\ data f = Document (history hm').
Proof.
  unfold RecordConnection, bind, ret.
  destruct (connections (history hm)); [| done].
  destruct (saveHistory _ w) as [err w1] eqn:Es. intros [= <- -> <-].
  by apply saveHistory_ok in Es.
Qed.

(** A world for the examples: the two directories of a user, no file, no
    failing call. *)
Definition configDirOfAlice : string := "/home/alice/.config/sshm".
Definition sshDirOfAlice : string := "/home/alice/.ssh".

Definition worldOfAlice (fs : gmap (string * string) file) (ds : gmap string Z) : world :=
  mkWorld fs ds configDirOfAlice sshDirOfAlice (fun _ => false) (fun _ => None) [].

Definition managerOfAlice (conns : gmap string ConnectionInfo) : HistoryManager :=
  mkHistoryManager (Join configDirOfAlice historyFileName) (mkConnectionHistory conns).

(** C7, as stated, fails at the top of the range of [int]: the count of an
    entry that stands at [maxInt] wraps around to [minInt]. *)
Lemma RecordConnection_count_wraps_at_maxInt :
  let hm := managerOfAlice {[ "web" := mkConnectionInfo "web" 0 maxInt None ]} in
  let hm' := fst (fst (RecordConnection 1 "web" hm (worldOfAlice ∅ ∅))) in
  GetConnectionCount hm "web" = maxInt
  /\ GetConnectionCount hm' "web" = minInt
  /\ GetConnectionCount hm' "web" <> (GetConnectionCount hm "web" + 1)%Z.
Proof.
  cbv zeta. split; [vm_compute; reflexivity |].
  split; [vm_compute; reflexivity | vm_compute; discriminate].
Qed.

(** C7, amended.  On a store whose map is allocated (it is [nil] only in a
    store opened from a document whose map is [null]): without an entry for
    the identifier [RecordConnection] creates one with count 1 and the
    current time; with an entry it sets the time and adds 1 to the count in
    the arithmetic of [int], which is exactly 1 more whenever the count is
    below [maxInt]; the other entries are untouched; the call saves the
    whole document, and when it reports no error the history file holds it.
    Two calls for an identifier that had no entry leave the count at 2 and
    the time of the second call. *)
Theorem RecordConnection_upsert (now : Z) (hostName : string) (hm : HistoryManager) (w : world) :
  let hm' := fst (fst (RecordConnection now hostName hm w)) in
  let err := snd (fst (RecordConnection now hostName hm w)) in
  let w' := snd (RecordConnection now hostName hm w) in
  connections (history hm) <> None ->
  (Connections (history hm) !! hostName = None ->
   Connections (history hm') !! hostName = Some (mkConnectionInfo hostName now 1 None))
  /\ (forall conn : ConnectionInfo,
        Connections (history hm) !! hostName = Some conn ->
        Connections (history hm') !! hostName
        = Some (mkConnectionInfo (HostName conn) now (wrap (ConnectCount conn + 1))
                  (PortForwarding conn))
        /\ ((minInt <= ConnectCount conn < maxInt)%Z ->
            wrap (ConnectCount conn + 1) = (ConnectCount conn + 1)%Z))
  /\ (forall other : string,
        other <> hostName ->
        Connections (history hm') !! other = Connections (history hm) !! other)
  /\ (err = None ->
      exists f, files w' !! historyPath hm' = Some f /\ data f = Document (history hm'))
  /\ (forall now2 : Z,
        Connections (history hm) !! hostName = None ->
        let hm2 := fst (fst (RecordConnection now2 hostName hm' w')) in
        GetConnectionCount hm2 hostName = 2%Z
        /\ GetLastConnectionTime hm2 hostName = Some now2).
Proof.
  cbv zeta. intros Ha.
  rewrite (RecordConnection_history now hostName hm w Ha).
  cbn [history]. rewrite Connections_mk.
  split; [| split; [| split; [| split]]].
  - apply recordEntry_new.
  - intros conn Hc. split; [by apply recordEntry_existing |].
    intros Hr. apply wrap_in_range. unfold minInt, maxInt in *. lia.
  - intros other Ho. by apply recordEntry_other.
  - pose proof (RecordConnection_history now hostName hm w Ha) as Hh.
    destruct (RecordConnection now hostName hm w) as [[hm1 e] w1] eqn:E. simpl in *.
    intros ->. destruct (RecordConnection_saved _ _ _ _ _ _ E) as (f & Hf & Hd).
    subst hm1. by exists f.
  - intros now2 Hn. rewrite RecordConnection_history by done.
    unfold GetConnectionCount, GetLastConnectionTime. cbn [history]. rewrite !Connections_mk.
    rewrite (recordEntry_existing now2 hostName _ _ (recordEntry_new now _ _ Hn)).
    done.
Qed.

Lemma RecordConnection_upsert_witness :
  let hm := managerOfAlice {[ "db" := mkConnectionInfo "db" 10 3 None ]} in
  let r1 := RecordConnection 100 "web" hm (worldOfAlice ∅ ∅) in
  let r2 := RecordConnection 200 "web" (fst (fst r1)) (snd r1) in
  Connections (history (fst (fst r1))) !! "web" = Some (mkConnectionInfo "web" 100 1 None)
  /\ Connections (history (fst (fst r1))) !! "db" = Some (mkConnectionInfo "db" 10 3 None)
  /\ GetConnectionCount (fst (fst r2)) "web" = 2%Z
  /\ GetLastConnectionTime (fst (fst r2)) "web" = Some 200%Z.
Proof.
  cbv zeta.
  pose proof (RecordConnection_upsert 100 "web"
                (managerOfAlice {[ "db" := mkConnectionInfo "db" 10 3 None ]})
                (worldOfAlice ∅ ∅)) as H.
  cbv zeta in H.
  destruct H as (Hnew & _ & Hother & _ & Htwice); [discriminate |].
  assert (Hfresh : Connections (history (managerOfAlice {[ "db" := mkConnectionInfo "db" 10 3 None ]}))
                   !! "web" = None) by (vm_compute; reflexivity).
  split; [exact (Hnew Hfresh) |].
  split.
  - rewrite (Hother "db"); [vm_compute; reflexivity | discriminate].
  - exact (Htwice 200%Z Hfresh).
Defined.

(** *** [CleanupOldEntries] *)

Lemma currentHostNames_fold (hosts : list Config.SSHHost) (acc : gmap string bool) (id : string) :
  fold_left (fun names host => <[Config.Name host := true]> names) hosts acc !! id
  = if decide (Exists (fun host => Config.Name host = id) hosts) then Some true else acc !! id.
Proof.
  revert acc. induction hosts as [|h hosts IH]; intros acc; cbn [fold_left].
  - destruct (decide (Exists _ [])) as [H | H]; [by apply Exists_nil in H | done].
  - rewrite IH.
    destruct (decide (Exists (fun host => Config.Name host = id) hosts)) as [H | H];
      destruct (decide (Exists (fun host => Config.Name host = id) (h :: hosts))) as [H' | H'];
      try done.
    + exfalso. auto using Exists_cons_tl.
    + apply Exists_cons in H' as [<- | H']; [apply lookup_insert_eq | done].
    + rewrite lookup_insert_ne; [done |]. intros Heq. apply H'. by apply Exists_cons_hd.
Qed.

Lemma currentHostNames_lookup (hosts : list Config.SSHHost) (id : string) :
  default false (currentHostNames hosts !! id)
  = bool_decide (Exists (fun host => Config.Name host = id) hosts).
Proof.
  unfold currentHostNames. rewrite currentHostNames_fold.
  case_decide; [by rewrite bool_decide_eq_true_2 | by rewrite bool_decide_eq_false_2].
Qed.

Lemma prune_fold_lookup (names : gmap string bool) (conns : gmap string ConnectionInfo)
    (keys : list string) (id : string) :
  fold_right
    (fun hostName acc => if negb (default false (names !! hostName)) then delete hostName acc else acc)
    conns keys !! id
  = if decide (id ∈ keys) then
      if default false (names !! id) then conns !! id else None
    else conns !! id.
Proof.
  induction keys as [|k keys IH]; cbn [fold_right].
  - destruct (decide (id ∈ [])) as [H | H]; [by apply not_elem_of_nil in H | done].
  - assert (Hin : id ∈ k :: keys <-> k = id \/ id ∈ keys).
    { rewrite elem_of_cons. split; (intros [? | ?]; [left | right]); done. }
    destruct (decide (id ∈ k :: keys)) as [H' | H'];
      destruct (decide (id ∈ keys)) as [H | H];
      destruct (decide (k = id)) as [Heq | Hne]; try (exfalso; tauto).
    + subst k. destruct (default false (names !! id)) eqn:E; cbn [negb].
      * by rewrite IH.
      * apply lookup_delete_eq.
    + destruct (negb (default false (names !! k)));
        [rewrite lookup_delete_ne by done |]; by rewrite IH.
    + subst k. destruct (default false (names !! id)) eqn:E; cbn [negb].
      * by rewrite IH.
      * apply lookup_delete_eq.
    + destruct (negb (default false (names !! k)));
        [rewrite lookup_delete_ne by done |]; by rewrite IH.
Qed.

Lemma pruneEntries_lookup (names : gmap string bool) (conns : gmap string ConnectionInfo)
    (id : string) :
  pruneEntries names conns !! id
  = if default false (names !! id) then conns !! id else None.
Proof.
  unfold pruneEntries. rewrite prune_fold_lookup.
  case_decide as Hin; [done |].
  destruct (conns !! id) as [c|] eqn:E; [| by destruct (default false (names !! id))].
  exfalso. apply Hin. apply list_elem_of_fmap. exists (id, c). split; [done |].
  by apply elem_of_map_to_list.
Qed.

Lemma pruneEntries_empty (names : gmap string bool) : pruneEntries names ∅ = ∅.
Proof. unfold pruneEntries. by rewrite map_to_list_empty. Qed.

Lemma CleanupOldEntries_history (currentHosts : list Config.SSHHost) (hm : HistoryManager)
    (w : world) :
  Connections (history (fst (fst (CleanupOldEntries currentHosts hm w))))
  = pruneEntries (currentHostNames currentHosts) (Connections (history hm)).
Proof.
  unfold CleanupOldEntries, Connections, bind, ret. destruct (saveHistory _ w). simpl.
  destruct (connections (history hm)); simpl; [done | by rewrite pruneEntries_empty].
Qed.

Lemma CleanupOldEntries_path (currentHosts : list Config.SSHHost) (hm : HistoryManager)
    (w : world) :
  historyPath (fst (fst (CleanupOldEntries currentHosts hm w))) = historyPath hm.
Proof. unfold CleanupOldEntries, bind, ret. by destruct (saveHistory _ w). Qed.

Lemma CleanupOldEntries_saved (currentHosts : list Config.SSHHost) (hm hm' : HistoryManager)
    (w w' : world) :
  CleanupOldEntries currentHosts hm w = (hm', None, w') ->
  exists f, files w' !! historyPath hm' = Some f /\ data f = Document (history hm').
Proof.
  unfold CleanupOldEntries, bind, ret.
  destruct (saveHistory _ w) as [err w1] eqn:Es. intros [= <- -> <-].
  by apply saveHistory_ok in Es.
Qed.

Definition hostNamed (name : string) : Config.SSHHost :=
  Config.mkSSHHost name "10.0.0.1" "root" "22" EmptyString EmptyString EmptyString
    EmptyString EmptyString [] "/home/alice/.ssh/config".

(** C1, as stated, fails: [CleanupOldEntries] has no exception for manual
    identifiers.  With the history of the specification's example and no
    current host, the manual entry is deleted along with ["web"]. *)
Lemma CleanupOldEntries_deletes_manual_entry :
  let hm := managerOfAlice
              {[ "web" := mkConnectionInfo "web" 10 3 None;
                 "manual:u@h:22" := mkConnectionInfo "manual:u@h:22" 20 1 None ]} in
  let hm' := fst (fst (CleanupOldEntries [] hm (worldOfAlice ∅ ∅))) in
  IsManualConnection "manual:u@h:22" = true
  /\ is_Some (Connections (history hm) !! "manual:u@h:22")
  /\ Connections (history hm') !! "web" = None
  /\ Connections (history hm') !! "manual:u@h:22" = None.
Proof.
  cbv zeta. rewrite CleanupOldEntries_history.
  split; [reflexivity |]. split.
  - eexists. vm_compute. reflexivity.
  - rewrite !pruneEntries_lookup, !currentHostNames_lookup.
    rewrite bool_decide_eq_false_2 by (intros H; by apply Exists_nil in H).
    rewrite bool_decide_eq_false_2 by (intros H; by apply Exists_nil in H).
    done.
Qed.

(** C1, amended.  After [CleanupOldEntries currentHosts] an entry whose
    identifier is the name of some host of [currentHosts] is still present,
    unchanged, and every other entry is deleted, whether or not its
    identifier is a manual one; the document is then saved, and when the
    call reports no error the history file holds it. *)
Theorem CleanupOldEntries_keeps_exactly_current_hosts
    (currentHosts : list Config.SSHHost) (hm : HistoryManager) (w : world) :
  let hm' := fst (fst (CleanupOldEntries currentHosts hm w)) in
  let err := snd (fst (CleanupOldEntries currentHosts hm w)) in
  let w' := snd (CleanupOldEntries currentHosts hm w) in
  (forall id : string,
      Exists (fun host => Config.Name host = id) currentHosts ->
      Connections (history hm') !! id = Connections (history hm) !! id)
  /\ (forall id : string,
        ~ Exists (fun host => Config.Name host = id) currentHosts ->
        Connections (history hm') !! id = None)
  /\ (err = None ->
      exists f, files w' !! historyPath hm' = Some f /\ data f = Document (history hm')).
Proof.
  cbv zeta. split; [| split].
  - intros id Hid. rewrite CleanupOldEntries_history.
    by rewrite pruneEntries_lookup, currentHostNames_lookup, bool_decide_eq_true_2.
  - intros id Hid. rewrite CleanupOldEntries_history.
    by rewrite pruneEntries_lookup, currentHostNames_lookup, bool_decide_eq_false_2.
  - destruct (CleanupOldEntries currentHosts hm w) as [[hm1 e] w1] eqn:E. simpl.
    intros ->. apply (CleanupOldEntries_saved _ _ _ _ _ E).
Qed.

Lemma CleanupOldEntries_keeps_exactly_current_hosts_witness :
  let hm := managerOfAlice
              {[ "web" := mkConnectionInfo "web" 10 3 None;
                 "db" := mkConnectionInfo "db" 20 1 None ]} in
  let hm' := fst (fst (CleanupOldEntries [hostNamed "db"] hm (worldOfAlice ∅ ∅))) in
  Connections (history hm') !! "db" = Connections (history hm) !! "db"
  /\ Connections (history hm') !! "web" = None.
Proof.
  cbv zeta.
  pose proof (CleanupOldEntries_keeps_exactly_current_hosts [hostNamed "db"]
                (managerOfAlice
                   {[ "web" := mkConnectionInfo "web" 10 3 None;
                      "db" := mkConnectionInfo "db" 20 1 None ]})
                (worldOfAlice ∅ ∅)) as H.
  cbv zeta in H. destruct H as (Hkeep & Hdrop & _).
  split.
  - apply Hkeep. by apply Exists_cons_hd.
  - apply Hdrop. intros H. apply Exists_cons in H as [H | H]; [discriminate |].
    by apply Exists_nil in H.
Defined.

End StoreFacts.

(** ** Opening the store: migration and loading *)
Module OpenFacts.
Import GoStrings History StoreFacts.

(** The history path [NewHistoryManager] builds, the legacy path, and the
    world in which the document is loaded: the one the migration leaves. *)
Definition newPath (w : world) : string * string := Join (sshmConfigDir w) historyFileName.
Definition oldPath (w : world) : string * string := Join (sshDirectory w) historyFileName.

Definition afterMigration (w : world) : world :=
  snd (migrateOldHistoryFile (newPath w) (snd (MkdirAll (sshmConfigDir w) (octal 7 5 5) w))).

(** What loading makes of the history file: the entries of a document go
    into the empty map the manager starts with, and a document whose map is
    [null] leaves the manager with the [nil] map. *)
Definition loadOutcome (p : string * string) (w : world) : HistoryManager + error :=
  match fst (ReadFile p w) with
  | inl (Document doc) =>
      inl (mkHistoryManager p
             (match connections doc with
              | Some conns => mkConnectionHistory (conns ∪ ∅)
              | None => nilConnections
              end))
  | inl (Garbage _) => inr ErrSyntax
  | inr ErrNotExist => inl (mkHistoryManager p (mkConnectionHistory ∅))
  | inr err => inr err
  end.

Lemma ReadFile_world (p : string * string) (w : world) : snd (ReadFile p w) = w.
Proof. unfold ReadFile. destruct (fails w _); [done |]. by destruct (files w !! p). Qed.

Lemma migrate_new_exists (p : string * string) (w : world) (f : file) :
  files w !! p = Some f -> fails w (SysStat p) = false ->
  migrateOldHistoryFile p w = (None, w).
Proof.
  intros Hf Hs. unfold migrateOldHistoryFile, bind, Stat, ret. by rewrite Hs, Hf.
Qed.

Lemma migrate_copies (p : string * string) (w : world) (fo : file) :
  let old := oldPath w in
  files w !! p = None -> files w !! old = Some fo -> is_Some (dirs w !! Dir p) ->
  fails w (SysStat p) = false -> fails w SysSSHDir = false ->
  fails w (SysStat old) = false -> fails w (SysReadFile old) = false ->
  fails w (SysWriteFile p) = false -> fails w (SysRemove old) = false ->
  let r := migrateOldHistoryFile p w in
  fst r = None
  /\ files (snd r) !! p = Some (mkFile (data fo) (octal 6 4 4))
  /\ files (snd r) !! old = None
  /\ trace (snd r) = EvRemove old :: EvWriteFile p (octal 6 4 4) :: trace w.
Proof.
  intros old Hp Ho [d Hd] Hsp Hdir Hso Hro Hwp Hrm. cbv zeta.
  assert (Hne : p <> old) by congruence.
  unfold migrateOldHistoryFile, bind, Stat, GetSSHDirectory, ReadFile, WriteFile, written,
    Remove, ret.
  rewrite Hsp, Hp, Hdir. fold (oldPath w). fold old.
  rewrite Hso, Ho. simpl. rewrite Hro, Ho. simpl. rewrite Hwp, Hd, Hp. simpl.
  rewrite Hrm. rewrite lookup_insert_ne by done. rewrite Ho. simpl.
  repeat split.
  - rewrite lookup_delete_ne by done. apply lookup_insert_eq.
  - apply lookup_delete_eq.
Qed.

(** [NewHistoryManager], case by case: the error of the migration is not
    among the things the result depends on. *)
Lemma NewHistoryManager_outcome (w : world) :
  fst (NewHistoryManager w) =
  if fails w SysConfigDir then inr ErrNoDirectory
  else if fails w (SysMkdirAll (sshmConfigDir w)) then inr ErrIO
  else loadOutcome (newPath w) (afterMigration w).
Proof.
  unfold NewHistoryManager, bind, GetSSHMConfigDir, ret.
  destruct (fails w SysConfigDir); [done |].
  unfold afterMigration, loadOutcome, newPath.
  destruct (MkdirAll (sshmConfigDir w) (octal 7 5 5) w) as [mk w1] eqn:Emk.
  assert (Hmk : mk = if fails w (SysMkdirAll (sshmConfigDir w)) then Some ErrIO else None).
  { revert Emk. unfold MkdirAll. simpl.
    destruct (fails w _); [by intros [= <- _] |].
    destruct (dirs w !! _); by intros [= <- _]. }
  destruct (fails w (SysMkdirAll (sshmConfigDir w))); subst mk; [done |].
  simpl snd.
  destruct (migrateOldHistoryFile _ w1) as [merr w2]. simpl snd.
  unfold loadHistory, bind, ret. simpl historyPath.
  destruct (ReadFile _ w2) as [[d | e] w3]; simpl.
  - destruct d as [doc | raw]; [| done]. simpl.
    by destruct (connections doc).
  - destruct e; done.
Qed.



(** A world in which the lookup of the SSH directory fails, so the migration
    returns an error; there is no history file. *)
Definition worldWithoutSSHDir : world :=
  mkWorld ∅ ∅ configDirOfAlice sshDirOfAlice
    (fun c => match c with SysSSHDir => true | _ => false end) (fun _ => None) [].


(** *** Permissions *)

(** The history of the legacy file in the examples. *)
Definition legacyDocument : ConnectionHistory :=
  mkConnectionHistory {[ "web" := mkConnectionInfo "web" 10 3 None ]}.

(** A world with the legacy file only, as an upgrade from a version before
    the move finds it. *)
Definition legacyWorld : world :=
  worldOfAlice
    {[ Join sshDirOfAlice historyFileName := mkFile (Document legacyDocument) (octal 6 0 0) ]}
    {[ sshDirOfAlice := octal 7 0 0 ]}.

(** [saveHistory] on its own: the directory with [0700], then the document
    with [0600], and a file it creates has mode [0600]. *)
Lemma saveHistory_creates_0600 (hm : HistoryManager) (w w' : world) :
  files w !! historyPath hm = None ->
  saveHistory hm w = (None, w') ->
  files w' !! historyPath hm = Some (mkFile (Document (history hm)) (octal 6 0 0)).
Proof.
  intros Hnone. unfold saveHistory, bind, ret.
  destruct (MkdirAll_result (Dir (historyPath hm)) (octal 7 0 0) w)
    as [(He & _) | (He & _ & _ & Hf & _)];
    destruct (MkdirAll _ _ w) as [mk w1]; simpl in *; subst mk; [done |].
  intros Hw. apply WriteFile_ok in Hw as [Hw _]. by rewrite Hw, Hf, Hnone.
Qed.

(** C5, at the failing input.  Opening the store in a world that has the
    legacy file only writes the history document with [0644], not [0600]:
    the migration's [os.WriteFile] creates the new file with that mode, and
    the later saves, which pass [0600], rewrite the existing file without
    changing its mode. *)
Theorem migration_writes_history_with_0644 :
  let new := Join configDirOfAlice historyFileName in
  let old := Join sshDirOfAlice historyFileName in
  let opened := NewHistoryManager legacyWorld in
  let hm := mkHistoryManager new (mkConnectionHistory (Connections legacyDocument ∪ ∅)) in
  fst opened = inl hm
  /\ trace (snd opened)
     = [EvRemove old; EvWriteFile new (octal 6 4 4); EvMkdirAll configDirOfAlice (octal 7 5 5)]
  /\ files (snd opened) !! new = Some (mkFile (Document legacyDocument) (octal 6 4 4))
  /\ files (snd opened) !! old = None
  /\ snd (fst (RecordConnection 100 "web" hm (snd opened))) = None
  /\ mode <$> files (snd (RecordConnection 100 "web" hm (snd opened))) !! new
     = Some (octal 6 4 4)
  /\ octal 6 4 4 <> octal 6 0 0.
Proof. cbv zeta. repeat split; try (vm_compute; reflexivity). vm_compute. discriminate. Qed.

End OpenFacts.

(** ** Sorting by use *)
Module SortFacts.
Import GoStrings History StoreFacts GoSort.

Section InsertionSortFacts.
Context {A : Type} (less : A -> A -> bool).
Hypothesis less_asym : forall x y, less x y = true -> less y x = false.

(** No element of the prefix is less than its left neighbour (the prefix is
    held right end first). *)
Fixpoint noInversion (prefixRev : list A) : Prop :=
  match prefixRev with
  | y1 :: r => match r with
               | y2 :: _ => less y1 y2 = false /\ noInversion r
               | [] => True
               end
  | [] => True
  end.

Lemma moveLeft_perm (x : A) (prefixRev : list A) :
  Permutation (moveLeft less x prefixRev) (x :: prefixRev).
Proof.
  induction prefixRev as [|y r IH]; simpl; [done |].
  destruct (less x y); [| done].
  rewrite IH. apply perm_swap.
Qed.

Lemma moveLeft_head (x : A) (prefixRev : list A) :
  exists z rest, moveLeft less x prefixRev = z :: rest
                 /\ (z = x \/ (exists r, prefixRev = z :: r) /\ less x z = true).
Proof.
  destruct prefixRev as [|y r]; simpl; [by exists x, []; split; [| left] |].
  destruct (less x y) eqn:E.
  - exists y, (moveLeft less x r). split; [done |]. right. split; [by exists r | done].
  - exists x, (y :: r). split; [done | by left].
Qed.

Lemma noInversion_tail (y : A) (r : list A) : noInversion (y :: r) -> noInversion r.
Proof. destruct r; simpl; [done | by intros [_ ?]]. Qed.

Lemma moveLeft_noInversion (x : A) (prefixRev : list A) :
  noInversion prefixRev -> noInversion (moveLeft less x prefixRev).
Proof.
  induction prefixRev as [|y r IH]; intros Hinv; [done |].
  cbn [moveLeft]. destruct (less x y) eqn:E.
  - specialize (IH (noInversion_tail y r Hinv)).
    destruct (moveLeft_head x r) as (z & rest & Hm & Hz). rewrite Hm in *.
    split; [| done].
    destruct Hz as [-> | [[r' ->] Hxz]]; [by apply less_asym |].
    by destruct Hinv.
  - by split.
Qed.

Lemma fold_moveLeft_noInversion (l acc : list A) :
  noInversion acc -> noInversion (fold_left (fun prefixRev x => moveLeft less x prefixRev) l acc).
Proof.
  revert acc. induction l as [|x l IH]; intros acc Hacc; simpl; [done |].
  apply IH. by apply moveLeft_noInversion.
Qed.

Lemma fold_moveLeft_perm (l acc : list A) :
  Permutation (fold_left (fun prefixRev x => moveLeft less x prefixRev) l acc)
    (rev l ++ acc)%list.
Proof.
  revert acc. induction l as [|x l IH]; intros acc; simpl; [done |].
  rewrite IH, moveLeft_perm, <- app_assoc. done.
Qed.

Lemma noInversion_middle (a b : list A) (y1 y2 : A) :
  noInversion (a ++ y1 :: y2 :: b)%list -> less y1 y2 = false.
Proof.
  induction a as [|z a IH]; [by intros [? _] |].
  intros H. apply IH. by apply noInversion_tail in H.
Qed.

(** The output of the sort holds the elements of its input. *)
Lemma insertionSort_perm (l : list A) : Permutation (insertionSort less l) l.
Proof.
  unfold insertionSort. rewrite <- Permutation_rev, fold_moveLeft_perm, app_nil_r.
  by rewrite <- Permutation_rev.
Qed.

(** In the output, no element is less than the one just before it. *)
Lemma insertionSort_adjacent (l l1 l2 : list A) (u v : A) :
  insertionSort less l = (l1 ++ u :: v :: l2)%list -> less v u = false.
Proof.
  unfold insertionSort. intros H.
  apply (f_equal (@rev A)) in H. rewrite rev_involutive in H.
  assert (Hr : rev (l1 ++ u :: v :: l2) = (rev l2 ++ v :: u :: rev l1)%list).
  { rewrite rev_app_distr. simpl. by rewrite <- !app_assoc. }
  rewrite Hr in H.
  apply (noInversion_middle (rev l2) (rev l1)). rewrite <- H.
  by apply fold_moveLeft_noInversion.
Qed.

End InsertionSortFacts.

Lemma ltb_asym (a b : string) : String.ltb a b = true -> String.ltb b a = false.
Proof.
  unfold String.ltb. rewrite (String.compare_antisym a b).
  destruct (String.compare b a); simpl; congruence.
Qed.

Lemma ltb_false_leb (a b : string) : String.ltb b a = false <-> String.leb a b = true.
Proof.
  unfold String.ltb, String.leb. rewrite (String.compare_antisym b a).
  destruct (String.compare a b); simpl; split; congruence.
Qed.

Lemma ascii_compare_Lt (x y : ascii) :
  Ascii.compare x y = Lt <-> (N_of_ascii x < N_of_ascii y)%N.
Proof. unfold Ascii.compare. apply N.compare_lt_iff. Qed.

Lemma ascii_compare_Eq (x y : ascii) : Ascii.compare x y = Eq <-> x = y.
Proof.
  split; [apply Ascii.compare_eq_iff |]. intros ->. unfold Ascii.compare. apply N.compare_refl.
Qed.

Lemma compare_Lt_trans (a b c : string) :
  String.compare a b = Lt -> String.compare b c = Lt -> String.compare a c = Lt.
Proof.
  revert b c. induction a as [| x a IH]; intros [| y b] [| z c]; simpl; try done.
  destruct (Ascii.compare x y) eqn:Exy; try done;
    destruct (Ascii.compare y z) eqn:Eyz; try done; intros H1 H2.
  - apply ascii_compare_Eq in Exy, Eyz. subst.
    replace (Ascii.compare z z) with Eq by (symmetry; by apply ascii_compare_Eq).
    by apply (IH b c).
  - apply ascii_compare_Eq in Exy. subst. by rewrite Eyz.
  - apply ascii_compare_Eq in Eyz. subst. by rewrite Exy.
  - apply ascii_compare_Lt in Exy, Eyz.
    replace (Ascii.compare x z) with Lt; [done |].
    symmetry. apply ascii_compare_Lt. eapply N.lt_trans; eassumption.
Qed.

Lemma ltb_Lt (a b : string) : String.ltb a b = true <-> String.compare a b = Lt.
Proof. unfold String.ltb. by destruct (String.compare a b). Qed.

Lemma ltb_trans (a b c : string) :
  String.ltb a b = true -> String.ltb b c = true -> String.ltb a c = true.
Proof. rewrite !ltb_Lt. apply compare_Lt_trans. Qed.

Lemma ltb_negtrans (a b c : string) :
  String.ltb a b = false -> String.ltb b c = false -> String.ltb a c = false.
Proof.
  intros Hab Hbc. destruct (String.ltb a c) eqn:Hac; [| done]. exfalso.
  apply ltb_Lt in Hac.
  destruct (String.compare a b) eqn:E.
  - apply String.compare_eq_iff in E. subst b. apply ltb_Lt in Hac. congruence.
  - apply ltb_Lt in E. congruence.
  - assert (Hba : String.compare b a = Lt).
    { rewrite (String.compare_antisym b a), E. done. }
    pose proof (compare_Lt_trans b a c Hba Hac) as H. apply ltb_Lt in H. congruence.
Qed.

Lemma lessMostUsed_asym (hm : HistoryManager) (hi hj : Config.SSHHost) :
  lessMostUsed hm hi hj = true -> lessMostUsed hm hj hi = false.
Proof.
  unfold lessMostUsed. cbv zeta.
  destruct (Z.eqb_spec (GetConnectionCount hm (Config.Name hi))
              (GetConnectionCount hm (Config.Name hj))) as [Heq | Hne].
  - rewrite Heq, Z.eqb_refl. simpl.
    destruct (GetLastConnectionTime hm (Config.Name hi)) as [ti|],
             (GetLastConnectionTime hm (Config.Name hj)) as [tj|];
      try apply ltb_asym.
    intros H%Z.ltb_lt. apply Z.ltb_ge. lia.
  - destruct (Z.eqb_spec (GetConnectionCount hm (Config.Name hj))
                (GetConnectionCount hm (Config.Name hi))); [congruence |].
    simpl. intros H%Z.ltb_lt. apply Z.ltb_ge. lia.
Qed.

(** The comparison of [SortHostsByMostUsed], branch by branch. *)
Lemma lessMostUsed_counts_differ (hm : HistoryManager) (hi hj : Config.SSHHost) :
  GetConnectionCount hm (Config.Name hi) <> GetConnectionCount hm (Config.Name hj) ->
  lessMostUsed hm hi hj
  = (GetConnectionCount hm (Config.Name hj) <? GetConnectionCount hm (Config.Name hi))%Z.
Proof.
  intros Hne. unfold lessMostUsed. cbv zeta.
  by destruct (Z.eqb_spec (GetConnectionCount hm (Config.Name hi))
                 (GetConnectionCount hm (Config.Name hj))).
Qed.

Lemma lessMostUsed_both_known (hm : HistoryManager) (hi hj : Config.SSHHost) (ti tj : Z) :
  GetConnectionCount hm (Config.Name hi) = GetConnectionCount hm (Config.Name hj) ->
  GetLastConnectionTime hm (Config.Name hi) = Some ti ->
  GetLastConnectionTime hm (Config.Name hj) = Some tj ->
  lessMostUsed hm hi hj = (tj <? ti)%Z.
Proof.
  intros Heq Hi Hj. unfold lessMostUsed. cbv zeta.
  by rewrite Heq, Z.eqb_refl, Hi, Hj.
Qed.

Lemma lessMostUsed_by_name (hm : HistoryManager) (hi hj : Config.SSHHost) :
  GetConnectionCount hm (Config.Name hi) = GetConnectionCount hm (Config.Name hj) ->
  GetLastConnectionTime hm (Config.Name hi) = None
  \/ GetLastConnectionTime hm (Config.Name hj) = None ->
  lessMostUsed hm hi hj = String.ltb (Config.Name hi) (Config.Name hj).
Proof.
  intros Heq Hnone. unfold lessMostUsed. cbv zeta.
  rewrite Heq, Z.eqb_refl. simpl.
  destruct Hnone as [-> | ->]; [done |].
  by destruct (GetLastConnectionTime hm (Config.Name hi)).
Qed.

(** The hosts and the history of the specification's example: [A] with 5
    connections, the last one now; [B] with 5, the last one an hour ago;
    [C] with 2. *)
Definition exampleNow : Z := 1700000000.

Definition exampleHistory : HistoryManager :=
  managerOfAlice
    {[ "A" := mkConnectionInfo "A" exampleNow 5 None;
       "B" := mkConnectionInfo "B" (exampleNow - 3600) 5 None;
       "C" := mkConnectionInfo "C" (exampleNow - 60) 2 None ]}.

(** C4, as stated, fails: two hosts with equal counts and equal times of
    last connection are not ordered by name; the comparison calls neither
    of them less, and the sort leaves them as they came. *)
Lemma SortHostsByMostUsed_equal_times_not_by_name :
  let hm := managerOfAlice
              {[ "a" := mkConnectionInfo "a" exampleNow 5 None;
                 "b" := mkConnectionInfo "b" exampleNow 5 None ]} in
  String.ltb "a" "b" = true
  /\ lessMostUsed hm (hostNamed "a") (hostNamed "b") = false
  /\ lessMostUsed hm (hostNamed "b") (hostNamed "a") = false
  /\ SortHostsByMostUsed hm [hostNamed "b"; hostNamed "a"] = [hostNamed "b"; hostNamed "a"].
Proof. cbv zeta. repeat split; vm_compute; reflexivity. Qed.

Lemma lessMostUsed_known_before_unknown (hm : HistoryManager) (hi hj : Config.SSHHost) (ti : Z) :
  GetLastConnectionTime hm (Config.Name hi) = Some ti ->
  (1 <= GetConnectionCount hm (Config.Name hi))%Z ->
  GetLastConnectionTime hm (Config.Name hj) = None ->
  lessMostUsed hm hi hj = true /\ lessMostUsed hm hj hi = false.
Proof.
  intros Hi Hc Hj.
  assert (Hzero : GetConnectionCount hm (Config.Name hj) = 0%Z).
  { revert Hj. unfold GetLastConnectionTime, GetConnectionCount.
    by destruct (Connections (history hm) !! Config.Name hj). }
  rewrite !lessMostUsed_counts_differ by lia. rewrite Hzero.
  split; [apply Z.ltb_lt | apply Z.ltb_ge]; lia.
Qed.

(** No entry of the history has a count of 0, the count that a host
    without an entry is given. *)
Definition countsNotZero (hm : HistoryManager) : Prop :=
  forall (id : string) (conn : ConnectionInfo),
    Connections (history hm) !! id = Some conn -> ConnectCount conn <> 0%Z.

(** A host has no entry and the count 0, or an entry and another count. *)
Lemma count_and_time (hm : HistoryManager) (h : Config.SSHHost) :
  countsNotZero hm ->
  (GetLastConnectionTime hm (Config.Name h) = None
   /\ GetConnectionCount hm (Config.Name h) = 0%Z)
  \/ (exists t, GetLastConnectionTime hm (Config.Name h) = Some t)
     /\ GetConnectionCount hm (Config.Name h) <> 0%Z.
Proof.
  intros Hnz. unfold GetLastConnectionTime, GetConnectionCount.
  destruct (Connections (history hm) !! Config.Name h) as [conn |] eqn:E; [right | by left].
  split; [by eexists | by apply (Hnz _ _ E)].
Qed.

(** When no entry has the count 0, the comparison of [SortHostsByMostUsed]
    is the transitive ordering that [sort.Slice] asks for. *)
Lemma lessMostUsed_transitive (hm : HistoryManager) (a b c : Config.SSHHost) :
  countsNotZero hm ->
  (lessMostUsed hm a b = true -> lessMostUsed hm b c = true -> lessMostUsed hm a c = true)
  /\ (lessMostUsed hm a b = false -> lessMostUsed hm b c = false ->
      lessMostUsed hm a c = false).
Proof.
  intros Hnz. unfold lessMostUsed. cbv zeta.
  destruct (count_and_time hm a Hnz) as [[Ta Ca] | [[ta Ta] Ca]];
    destruct (count_and_time hm b Hnz) as [[Tb Cb] | [[tb Tb] Cb]];
    destruct (count_and_time hm c Hnz) as [[Tc Cc] | [[tc Tc] Cc]];
    rewrite ?Ta, ?Tb, ?Tc;
    destruct (Z.eqb_spec (GetConnectionCount hm (Config.Name a))
                (GetConnectionCount hm (Config.Name b)));
    destruct (Z.eqb_spec (GetConnectionCount hm (Config.Name b))
                (GetConnectionCount hm (Config.Name c)));
    destruct (Z.eqb_spec (GetConnectionCount hm (Config.Name a))
                (GetConnectionCount hm (Config.Name c)));
    cbn [negb]; try lia;
    (split; intros H1 H2;
     repeat match goal with
            | H : (_ <? _)%Z = true |- _ => apply Z.ltb_lt in H
            | H : (_ <? _)%Z = false |- _ => apply Z.ltb_ge in H
            end;
     first [ apply Z.ltb_lt; lia
           | apply Z.ltb_ge; lia
           | lia
           | eapply ltb_trans; eassumption
           | eapply ltb_negtrans; eassumption ]).
Qed.

(** Without that, it is not: with [a] and [b] in the history at a count of
    0, [a] the more recent, and [m] not in the history, [a] is before [b] by
    time, [b] before [m] and [m] before [a] by name. *)
Lemma lessMostUsed_not_transitive :
  let hm := managerOfAlice
              {[ "x" := mkConnectionInfo "x" 10 0 None;
                 "a" := mkConnectionInfo "a" 5 0 None ]} in
  lessMostUsed hm (hostNamed "x") (hostNamed "a") = true
  /\ lessMostUsed hm (hostNamed "a") (hostNamed "m") = true
  /\ lessMostUsed hm (hostNamed "m") (hostNamed "x") = true.
Proof. cbv zeta. repeat split; vm_compute; reflexivity. Qed.

(** C4, amended.  [SortHostsByMostUsed] returns the hosts it was given.
    For a list of at most 12 hosts (which [sort.Slice] sorts by insertion),
    or a history in which no entry has the count 0 (the comparison is then
    the transitive ordering that [sort.Slice] asks for), the counts never
    increase from a host to the next; two neighbours with equal counts that
    both have history are in order of last connection, the more recent
    first, and two neighbours without history are in ascending order of
    name.  The comparison it sorts by puts the higher count first; for equal
    counts and both with history, the later last connection first, and it
    calls neither host less when the times are equal too (no tie-break by
    name); a host with history and a count of at least 1 before a host
    without history; for two hosts without history, the smaller name first.
    On the example, [C; B; A] comes out as [A; B; C]. *)
Theorem SortHostsByMostUsed_order (hm : HistoryManager) (hosts : list Config.SSHHost) :
  Permutation (SortHostsByMostUsed hm hosts) hosts
  /\ (countsNotZero hm ->
      forall a b c : Config.SSHHost,
        (lessMostUsed hm a b = true -> lessMostUsed hm b c = true ->
         lessMostUsed hm a c = true)
        /\ (lessMostUsed hm a b = false -> lessMostUsed hm b c = false ->
            lessMostUsed hm a c = false))
  /\ ((length hosts <= maxInsertion)%nat \/ countsNotZero hm ->
      forall (l1 l2 : list Config.SSHHost) (u v : Config.SSHHost),
        SortHostsByMostUsed hm hosts = (l1 ++ u :: v :: l2)%list ->
        (GetConnectionCount hm (Config.Name v) <= GetConnectionCount hm (Config.Name u))%Z
        /\ (GetConnectionCount hm (Config.Name u) = GetConnectionCount hm (Config.Name v) ->
            forall tu tv : Z,
              GetLastConnectionTime hm (Config.Name u) = Some tu ->
              GetLastConnectionTime hm (Config.Name v) = Some tv ->
              (tv <= tu)%Z)
        /\ (GetLastConnectionTime hm (Config.Name u) = None ->
            GetLastConnectionTime hm (Config.Name v) = None ->
            String.leb (Config.Name u) (Config.Name v) = true))
  /\ (forall hi hj : Config.SSHHost,
        GetConnectionCount hm (Config.Name hi) <> GetConnectionCount hm (Config.Name hj) ->
        lessMostUsed hm hi hj
        = (GetConnectionCount hm (Config.Name hj) <? GetConnectionCount hm (Config.Name hi))%Z)
  /\ (forall (hi hj : Config.SSHHost) (ti tj : Z),
        GetConnectionCount hm (Config.Name hi) = GetConnectionCount hm (Config.Name hj) ->
        GetLastConnectionTime hm (Config.Name hi) = Some ti ->
        GetLastConnectionTime hm (Config.Name hj) = Some tj ->
        lessMostUsed hm hi hj = (tj <? ti)%Z
        /\ (ti = tj -> lessMostUsed hm hi hj = false /\ lessMostUsed hm hj hi = false))
  /\ (forall (hi hj : Config.SSHHost) (ti : Z),
        GetLastConnectionTime hm (Config.Name hi) = Some ti ->
        (1 <= GetConnectionCount hm (Config.Name hi))%Z ->
        GetLastConnectionTime hm (Config.Name hj) = None ->
        lessMostUsed hm hi hj = true /\ lessMostUsed hm hj hi = false)
  /\ (forall hi hj : Config.SSHHost,
        GetLastConnectionTime hm (Config.Name hi) = None ->
        GetLastConnectionTime hm (Config.Name hj) = None ->
        lessMostUsed hm hi hj = String.ltb (Config.Name hi) (Config.Name hj))
  /\ SortHostsByMostUsed exampleHistory [hostNamed "C"; hostNamed "B"; hostNamed "A"]
     = [hostNamed "A"; hostNamed "B"; hostNamed "C"].
Proof.
  assert (Hzero : forall h : Config.SSHHost,
             GetLastConnectionTime hm (Config.Name h) = None ->
             GetConnectionCount hm (Config.Name h) = 0%Z).
  { intros h. unfold GetLastConnectionTime, GetConnectionCount.
    by destruct (Connections (history hm) !! Config.Name h). }
  split; [apply insertionSort_perm |].
  split; [intros Hnz a b c; by apply lessMostUsed_transitive |].
  split.
  { intros _ l1 l2 u v Hout.
    pose proof (insertionSort_adjacent (lessMostUsed hm) (lessMostUsed_asym hm)
                  hosts l1 l2 u v Hout) as Hvu.
    split; [| split].
    - destruct (Z.eq_dec (GetConnectionCount hm (Config.Name v))
                  (GetConnectionCount hm (Config.Name u))) as [Heq | Hne]; [lia |].
      rewrite (lessMostUsed_counts_differ hm v u Hne) in Hvu.
      apply Z.ltb_ge in Hvu. lia.
    - intros Heq tu tv Hu Hv.
      rewrite (lessMostUsed_both_known hm v u tv tu (eq_sym Heq) Hv Hu) in Hvu.
      by apply Z.ltb_ge in Hvu.
    - intros Hu Hv.
      rewrite (lessMostUsed_by_name hm v u) in Hvu;
        [by apply ltb_false_leb | by rewrite (Hzero u Hu), (Hzero v Hv) | by left]. }
  split; [apply lessMostUsed_counts_differ |].
  split.
  { intros hi hj ti tj Heq Hi Hj. split; [by apply lessMostUsed_both_known |].
    intros ->.
    rewrite (lessMostUsed_both_known hm hi hj tj tj Heq Hi Hj).
    rewrite (lessMostUsed_both_known hm hj hi tj tj (eq_sym Heq) Hj Hi).
    by rewrite Z.ltb_irrefl. }
  split; [apply lessMostUsed_known_before_unknown |].
  split.
  { intros hi hj Hi Hj. apply lessMostUsed_by_name; [| by left].
    by rewrite (Hzero hi Hi), (Hzero hj Hj). }
  vm_compute. reflexivity.
Qed.

Lemma SortHostsByMostUsed_order_witness :
  (GetConnectionCount exampleHistory "B" <= GetConnectionCount exampleHistory "A")%Z
  /\ (exampleNow - 3600 <= exampleNow)%Z
  /\ lessMostUsed exampleHistory (hostNamed "A") (hostNamed "C") = true.
Proof.
  pose proof (SortHostsByMostUsed_order exampleHistory
                [hostNamed "C"; hostNamed "B"; hostNamed "A"])
    as (_ & _ & Hadj & Hcount & _).
  destruct (Hadj ltac:(left; vm_compute; lia)
              [] [hostNamed "C"] (hostNamed "A") (hostNamed "B")) as (H1 & H2 & _);
    [vm_compute; reflexivity |].
  split; [exact H1 |]. split.
  - apply H2; vm_compute; reflexivity.
  - rewrite (Hcount (hostNamed "A") (hostNamed "C")); [reflexivity |].
    vm_compute. discriminate.
Defined.

End SortFacts.

(** ** The scripts: deleting and editing a host block *)
Module ShellFacts.
Import GoStrings GoStringsFacts Shell.

Lemma backupOf_ne (config_file : string) : config_file <> backupOf config_file.
Proof.
  intros H. apply (f_equal String.length) in H.
  unfold backupOf in H. rewrite length_app in H. simpl in H. lia.
Qed.

Lemma append_empty (s : string) : s +:+ EmptyString = s.
Proof. induction s as [| c s IH]; simpl; [done | by rewrite IH]. Qed.

(** *** Files as lines *)

Lemma readLines_complete (lines : list string) : readLines (complete lines) = lines.
Proof. reflexivity. Qed.

Lemma hasSizeZero_readLines (t : text) :
  hasSizeZero t = match readLines t with [] => true | _ :: _ => false end.
Proof.
  unfold hasSizeZero, readLines. destruct t as [[| l ls] u]; simpl.
  - by destruct (String.eqb u EmptyString).
  - by destruct (String.eqb u EmptyString).
Qed.

Lemma newBlock_not_empty (portIsNot22 : string -> bool) (host : string) (a : answers) :
  newBlock portIsNot22 host a <> [].
Proof. done. Qed.

(** What is appended to a file makes it a file with bytes. *)
Lemma appendLines_not_empty (t : text) (l : string) (more : list string) :
  hasSizeZero (appendLines t (l :: more)) = false.
Proof. unfold appendLines, hasSizeZero. simpl. by destruct (terminated t). Qed.

Section SedFacts.
Variable sedHostLine : string -> string -> bool.

Lemma sedDelete_app (host : string) (inRange : bool) (lines more : list string) :
  sedDelete sedHostLine host inRange (lines ++ more)
  = (sedDelete sedHostLine host inRange lines
     ++ sedDelete sedHostLine host (sedInRange sedHostLine host inRange lines) more)%list.
Proof.
  revert inRange. induction lines as [| l lines IH]; intros inRange; simpl; [done |].
  destruct inRange.
  - destruct (String.eqb l EmptyString); simpl; apply IH.
  - destruct (sedHostLine host l); simpl; [apply IH | by rewrite IH].
Qed.

Lemma sedDelete_no_host_line (host : string) (inRange : bool) (lines : list string) :
  Forall (fun l => sedHostLine host l = false) (sedDelete sedHostLine host inRange lines).
Proof.
  revert inRange. induction lines as [|l lines IH]; intros inRange; simpl; [constructor |].
  destruct inRange.
  - destruct (String.eqb l EmptyString); apply IH.
  - destruct (sedHostLine host l) eqn:E; [apply IH |]. constructor; [done | apply IH].
Qed.

Lemma sedDelete_absent (host : string) (lines : list string) :
  Forall (fun l => sedHostLine host l = false) lines ->
  sedDelete sedHostLine host false lines = lines.
Proof.
  induction 1 as [|l lines Hl _ IH]; simpl; [done |]. by rewrite Hl, IH.
Qed.

Lemma sedInRange_absent (host : string) (lines : list string) :
  Forall (fun l => sedHostLine host l = false) lines ->
  sedInRange sedHostLine host false lines = false.
Proof. induction 1 as [|l lines Hl _ IH]; simpl; [done |]. by rewrite Hl. Qed.

Lemma sedDelete_sublist (host : string) (inRange : bool) (lines : list string) :
  sublist (sedDelete sedHostLine host inRange lines) lines.
Proof.
  revert inRange. induction lines as [|l lines IH]; intros inRange; simpl; [constructor |].
  destruct inRange.
  - destruct (String.eqb l EmptyString); apply sublist_cons, IH.
  - destruct (sedHostLine host l); [apply sublist_cons, IH | apply sublist_skip, IH].
Qed.

Lemma sedDelete_open_range (host : string) (lines : list string) :
  Forall (fun l => l <> EmptyString) lines -> sedDelete sedHostLine host true lines = [].
Proof.
  induction 1 as [|l lines Hl _ IH]; simpl; [done |].
  apply String.eqb_neq in Hl. by rewrite Hl.
Qed.

Lemma sedDelete_app_absent (host : string) (before rest : list string) :
  Forall (fun l => sedHostLine host l = false) before ->
  sedDelete sedHostLine host false (before ++ rest)
  = (before ++ sedDelete sedHostLine host false rest)%list.
Proof. induction 1 as [|l ls Hl _ IH]; simpl; [done |]. by rewrite Hl, IH. Qed.

End SedFacts.

(** The lines of what [sed] writes are the lines [sed] keeps of the lines
    it reads. *)
Lemma readLines_sedOutput (T : tools) (host : string) (t : text) :
  readLines (sedOutput T host t)
  = sedDelete (sedHostLine T) host false (readLines t).
Proof.
  unfold sedOutput, readLines. cbv zeta.
  destruct (String.eqb (unterminated t) EmptyString) eqn:Eu; [done |].
  rewrite sedDelete_app. simpl.
  destruct (sedInRange (sedHostLine T) host false (terminated t)); simpl.
  - rewrite Eu. by rewrite app_nil_r.
  - destruct (sedHostLine T host (unterminated t)); simpl; [by rewrite app_nil_r |].
    destruct (sedCompletesLastLine T); simpl; [done | by rewrite Eu].
Qed.

(** Running [sed] on its own output changes nothing. *)
Lemma sedOutput_idempotent (T : tools) (host : string) (t : text) :
  sedOutput T host (sedOutput T host t) = sedOutput T host t.
Proof.
  pose proof (sedDelete_no_host_line (sedHostLine T) host false (terminated t)) as Hkept.
  assert (Hc : forall ls, Forall (fun l => sedHostLine T host l = false) ls ->
                 sedOutput T host (complete ls) = complete ls).
  { intros ls Hls. unfold sedOutput. simpl. by rewrite sedDelete_absent. }
  assert (Hshape :
            (exists ls, Forall (fun l => sedHostLine T host l = false) ls
                        /\ sedOutput T host t = complete ls)
            \/ (exists ls u, Forall (fun l => sedHostLine T host l = false) ls
                             /\ String.eqb u EmptyString = false
                             /\ sedHostLine T host u = false
                             /\ sedCompletesLastLine T = false
                             /\ sedOutput T host t = mkText ls u)).
  { unfold sedOutput. cbv zeta.
    destruct (String.eqb (unterminated t) EmptyString) eqn:Eu; [left; by eexists |].
    destruct (sedInRange (sedHostLine T) host false (terminated t)
              || sedHostLine T host (unterminated t)) eqn:Ed; [left; by eexists |].
    apply orb_false_iff in Ed as [_ Hm].
    destruct (sedCompletesLastLine T) eqn:Es.
    - left. eexists. split; [| done]. apply Forall_app. split; [done |]. by constructor.
    - right. by exists (sedDelete (sedHostLine T) host false (terminated t)), (unterminated t). }
  destruct Hshape as [(ls & Hls & ->) | (ls & u & Hls & Hu & Hm & Hs & ->)]; [by apply Hc |].
  unfold sedOutput. simpl. rewrite Hu, Hs, Hm.
  rewrite sedInRange_absent by done. simpl. by rewrite sedDelete_absent.
Qed.

(** *** The runs of the two scripts *)

Section ScriptFacts.
Variable T : tools.
Variables tmp_file config_file host : string.
Variable fs : gmap string text.
Variable original : text.
Hypothesis host_given : host <> EmptyString.
Hypothesis config_there : fs !! config_file = Some original.
Hypothesis tmp_not_config : tmp_file <> config_file.
Hypothesis tmp_not_backup : tmp_file <> backupOf config_file.

(** The file systems after the backup, after [mktemp] and after [sed]. *)
Definition backedUp : gmap string text := <[backupOf config_file := original]> fs.
Definition withTemp : gmap string text := <[tmp_file := emptyFile]> backedUp.
Definition withResidue : gmap string text :=
  <[tmp_file := sedOutput T host original]> (<[tmp_file := emptyFile]> withTemp).

Lemma sedInto_after_backup :
  sedAccepts T host = true ->
  sedInto T host config_file tmp_file withTemp = Some withResidue.
Proof.
  intros Hs. unfold sedInto. rewrite Hs. simpl.
  pose proof (backupOf_ne config_file) as Hb.
  unfold withTemp, backedUp.
  rewrite lookup_insert_ne by done. rewrite lookup_insert_ne by done.
  rewrite lookup_insert_ne by done. by rewrite config_there.
Qed.

Lemma sedInto_rejected :
  sedAccepts T host = false -> sedInto T host config_file tmp_file withTemp = None.
Proof. intros Hs. unfold sedInto. by rewrite Hs. Qed.

Lemma withResidue_config : withResidue !! config_file = Some original.
Proof.
  pose proof (backupOf_ne config_file) as Hb. unfold withResidue, withTemp, backedUp.
  rewrite !lookup_insert_ne by done. done.
Qed.

Lemma withResidue_tmp : withResidue !! tmp_file = Some (sedOutput T host original).
Proof. unfold withResidue. apply lookup_insert_eq. Qed.

Lemma withResidue_backup : withResidue !! backupOf config_file = Some original.
Proof.
  unfold withResidue, withTemp, backedUp.
  rewrite !lookup_insert_ne by done. apply lookup_insert_eq.
Qed.

Lemma withResidue_other (f : string) :
  f <> tmp_file -> f <> backupOf config_file -> withResidue !! f = fs !! f.
Proof.
  intros Hft Hfb. unfold withResidue, withTemp, backedUp.
  by rewrite !lookup_insert_ne by done.
Qed.

(** The run of [sshm_delete] when [sed] leaves no byte: the backup is moved
    back and the temporary file removed. *)
Lemma sshm_delete_empty :
  sedAccepts T host = true ->
  hasSizeZero (sedOutput T host original) = true ->
  sshm_delete_states T tmp_file config_file host fs
  = (Exit1 msgEmpty,
     [backedUp; withTemp; withResidue;
      <[config_file := original]> (delete (backupOf config_file) withResidue);
      delete tmp_file
        (<[config_file := original]> (delete (backupOf config_file) withResidue))]).
Proof.
  intros Hs Hz. unfold sshm_delete_states.
  apply String.eqb_neq in host_given. rewrite host_given.
  unfold cp. rewrite config_there. fold backedUp. unfold mktemp. fold withTemp.
  rewrite (sedInto_after_backup Hs).
  unfold nonEmptyFile. rewrite withResidue_tmp, Hz. simpl.
  unfold mv. by rewrite withResidue_backup.
Qed.

(** The run when bytes are left: the temporary file is moved onto the
    configuration file and the backup removed. *)
Lemma sshm_delete_nonempty :
  sedAccepts T host = true ->
  hasSizeZero (sedOutput T host original) = false ->
  sshm_delete_states T tmp_file config_file host fs
  = (Exit0,
     [backedUp; withTemp; withResidue]
     ++ moving (renames T) tmp_file config_file withResidue
     ++ [<[config_file := sedOutput T host original]> (delete tmp_file withResidue);
         delete (backupOf config_file)
           (<[config_file := sedOutput T host original]> (delete tmp_file withResidue))])%list.
Proof.
  intros Hs Hz. unfold sshm_delete_states.
  apply String.eqb_neq in host_given. rewrite host_given.
  unfold cp. rewrite config_there. fold backedUp. unfold mktemp. fold withTemp.
  rewrite (sedInto_after_backup Hs).
  unfold nonEmptyFile. rewrite withResidue_tmp, Hz. simpl.
  unfold mv. by rewrite withResidue_tmp.
Qed.

(** The run when [sed] rejects its program: the script ends there, with the
    backup and the empty temporary file left behind. *)
Lemma sshm_delete_rejected :
  sedAccepts T host = false ->
  sshm_delete_states T tmp_file config_file host fs = (Aborted, [backedUp; withTemp]).
Proof.
  intros Hs. unfold sshm_delete_states.
  apply String.eqb_neq in host_given. rewrite host_given.
  unfold cp. rewrite config_there. fold backedUp. unfold mktemp. fold withTemp.
  by rewrite (sedInto_rejected Hs).
Qed.

(** The file with the new block appended to what [sed] left. *)
Definition withBlock (a : answers) : gmap string text :=
  appendTo tmp_file (newBlock (portIsNot22 T) host a) withResidue.

Lemma withBlock_tmp (a : answers) :
  withBlock a !! tmp_file
  = Some (appendLines (sedOutput T host original) (newBlock (portIsNot22 T) host a)).
Proof. unfold withBlock, appendTo. by rewrite withResidue_tmp, lookup_insert_eq. Qed.

Lemma withBlock_other (a : answers) (f : string) :
  f <> tmp_file -> withBlock a !! f = withResidue !! f.
Proof. intros Hf. unfold withBlock, appendTo. by rewrite lookup_insert_ne. Qed.

Lemma sshm_edit_empty (a : answers) :
  sedAccepts T host = true -> awkAccepts T host = true ->
  captureIsEmpty (awkRange (awkHostLine T) host false (readLines original)) = false ->
  hasSizeZero (sedOutput T host original) = true ->
  sshm_edit_states T tmp_file config_file host (Answered a) fs
  = sshm_delete_states T tmp_file config_file host fs.
Proof.
  intros Hs Ha Hfound Hz. rewrite (sshm_delete_empty Hs Hz). unfold sshm_edit_states.
  apply String.eqb_neq in host_given. rewrite host_given, config_there, Ha, Hfound. simpl.
  unfold cp. rewrite config_there. fold backedUp. unfold mktemp. fold withTemp.
  rewrite (sedInto_after_backup Hs).
  unfold nonEmptyFile. rewrite withResidue_tmp, Hz. simpl.
  unfold mv. by rewrite withResidue_backup.
Qed.

Lemma sshm_edit_nonempty (a : answers) :
  sedAccepts T host = true -> awkAccepts T host = true ->
  captureIsEmpty (awkRange (awkHostLine T) host false (readLines original)) = false ->
  hasSizeZero (sedOutput T host original) = false ->
  let rewritten := appendLines (sedOutput T host original) (newBlock (portIsNot22 T) host a) in
  sshm_edit_states T tmp_file config_file host (Answered a) fs
  = (Exit0,
     [backedUp; withTemp; withResidue; withBlock a]
     ++ moving (renames T) tmp_file config_file (withBlock a)
     ++ [<[config_file := rewritten]> (delete tmp_file (withBlock a));
         delete (backupOf config_file)
           (<[config_file := rewritten]> (delete tmp_file (withBlock a)))])%list.
Proof.
  intros Hs Ha Hfound Hz. cbv zeta. unfold sshm_edit_states.
  apply String.eqb_neq in host_given. rewrite host_given, config_there, Ha, Hfound. simpl.
  unfold cp. rewrite config_there. fold backedUp. unfold mktemp. fold withTemp.
  rewrite (sedInto_after_backup Hs).
  unfold nonEmptyFile. rewrite withResidue_tmp, Hz. simpl. fold (withBlock a).
  unfold mv. by rewrite withBlock_tmp.
Qed.

(** The states at the configuration file. *)
Lemma before_install_config (a : answers) :
  backedUp !! config_file = Some original
  /\ withTemp !! config_file = Some original
  /\ withResidue !! config_file = Some original
  /\ withBlock a !! config_file = Some original.
Proof.
  pose proof (backupOf_ne config_file) as Hb.
  unfold withBlock, appendTo, withResidue, withTemp, backedUp.
  by rewrite !lookup_insert_ne by done.
Qed.

End ScriptFacts.

(** The files a failed rewrite leaves: the configuration file as it was,
    byte for byte, and neither the backup nor the temporary file. *)
Definition restored (config_file tmp_file : string)
    (before after : gmap string text) : Prop :=
  after !! config_file = before !! config_file
  /\ after !! backupOf config_file = None
  /\ after !! tmp_file = None
  /\ forall f, f <> backupOf config_file -> f <> tmp_file -> after !! f = before !! f.

(** The files a successful rewrite leaves: the new content in the
    configuration file, neither the backup nor the temporary file, and
    every other file as it was. *)
Definition installed (config_file tmp_file : string) (content : text)
    (before after : gmap string text) : Prop :=
  after !! config_file = Some content
  /\ after !! backupOf config_file = None
  /\ after !! tmp_file = None
  /\ forall f, f <> config_file -> f <> backupOf config_file -> f <> tmp_file ->
               after !! f = before !! f.

(** In each of the states, the configuration file holds [content]. *)
Definition untouched (config_file : string) (content : text)
    (states : list (gmap string text)) : Prop :=
  Forall (fun s => s !! config_file = Some content) states.

(** The configuration file holds [old] in the first states and [new] in
    all the states after them, of which there are some: it goes from the
    one to the other in one step, and no state shows it with anything
    else. *)
Definition replacedInOneStep (config_file : string) (old new : text)
    (states : list (gmap string text)) : Prop :=
  exists before after,
    states = (before ++ after)%list /\ after <> []
    /\ untouched config_file old before /\ untouched config_file new after.

(** Some state shows the configuration file with no byte in it. *)
Definition seenEmpty (config_file : string) (states : list (gmap string text)) : Prop :=
  Exists (fun s => s !! config_file = Some emptyFile) states.

Lemma last_two {A} (l : list A) (x y d : A) : List.last (l ++ [x; y]) d = y.
Proof. change (l ++ [x; y])%list with (l ++ [x] ++ [y])%list. by rewrite app_assoc, last_last. Qed.

Section RewriteFacts.
Variable T : tools.
Variables tmp_file config_file host : string.
Variable fs : gmap string text.
Variable original : text.
Hypothesis config_there : fs !! config_file = Some original.
Hypothesis tmp_not_config : tmp_file <> config_file.
Hypothesis host_given : host <> EmptyString.
Hypothesis tmp_not_backup : tmp_file <> backupOf config_file.

Lemma restored_intro (base : gmap string text) :
  base !! config_file = Some original ->
  (forall f, f <> tmp_file -> f <> backupOf config_file -> base !! f = fs !! f) ->
  restored config_file tmp_file fs
    (delete tmp_file (<[config_file := original]> (delete (backupOf config_file) base))).
Proof.
  intros Hc Hother. pose proof (backupOf_ne config_file) as Hb.
  split; [| split; [| split]].
  - rewrite lookup_delete_ne by done. by rewrite lookup_insert_eq.
  - rewrite lookup_delete_ne by done. rewrite lookup_insert_ne by done.
    apply lookup_delete_eq.
  - apply lookup_delete_eq.
  - intros f Hfb Hft. rewrite lookup_delete_ne by done.
    destruct (decide (f = config_file)) as [-> | Hfc]; [by rewrite lookup_insert_eq |].
    rewrite lookup_insert_ne by done. rewrite lookup_delete_ne by done. by apply Hother.
Qed.

Lemma installed_intro (base : gmap string text) (content : text) :
  (forall f, f <> tmp_file -> f <> backupOf config_file -> base !! f = fs !! f) ->
  installed config_file tmp_file content fs
    (delete (backupOf config_file) (<[config_file := content]> (delete tmp_file base))).
Proof.
  intros Hother. pose proof (backupOf_ne config_file) as Hb.
  split; [| split; [| split]].
  - rewrite lookup_delete_ne by done. apply lookup_insert_eq.
  - apply lookup_delete_eq.
  - destruct (decide (tmp_file = backupOf config_file)) as [E | Hne]; [done |].
    rewrite lookup_delete_ne by done. rewrite lookup_insert_ne by done.
    apply lookup_delete_eq.
  - intros f Hfc Hfb Hft. rewrite lookup_delete_ne by done.
    rewrite lookup_insert_ne by done. rewrite lookup_delete_ne by done. by apply Hother.
Qed.

(** The states of a rewrite that installs [content], held in [base] at the
    temporary file when [mv] begins. *)
Lemma install_states (before : list (gmap string text)) (base : gmap string text)
    (content : text) :
  untouched config_file original before ->
  base !! config_file = Some original -> base !! tmp_file = Some content ->
  let states :=
    (before ++ moving (renames T) tmp_file config_file base
     ++ [<[config_file := content]> (delete tmp_file base);
         delete (backupOf config_file)
           (<[config_file := content]> (delete tmp_file base))])%list in
  (renames T = true -> replacedInOneStep config_file original content states)
  /\ (renames T = false -> seenEmpty config_file states).
Proof.
  intros Hbefore Hc Ht. cbv zeta. pose proof (backupOf_ne config_file) as Hb.
  unfold moving. split; intros Hr; rewrite Hr.
  - exists before. eexists. split; [done |]. split; [done |]. split; [done |].
    repeat constructor.
    + apply lookup_insert_eq.
    + rewrite lookup_delete_ne by done. apply lookup_insert_eq.
  - rewrite Ht. apply Exists_app. right. apply Exists_cons_hd. apply lookup_insert_eq.
Qed.


(** *** What a run of [sshm_delete] ends with *)

Lemma hasSizeZero_emptyFile (t : text) : hasSizeZero t = true -> t = emptyFile.
Proof.
  destruct t as [[| l ls] u]; unfold hasSizeZero; simpl; [| done].
  intros H. apply String.eqb_eq in H. by subst u.
Qed.

Lemma sshm_delete_installs :
  sedAccepts T host = true -> hasSizeZero (sedOutput T host original) = false ->
  fst (sshm_delete T tmp_file config_file host fs) = Exit0
  /\ installed config_file tmp_file (sedOutput T host original) fs
       (snd (sshm_delete T tmp_file config_file host fs)).
Proof.
  intros Hs Hz. unfold sshm_delete, outcome.
  rewrite (sshm_delete_nonempty T tmp_file config_file host fs original) by done.
  cbn [fst snd]. split; [done |]. rewrite app_assoc, last_two.
  apply installed_intro; try done. intros f Hft Hfb. by apply withResidue_other.
Qed.

Lemma sshm_delete_restores :
  sedAccepts T host = true -> hasSizeZero (sedOutput T host original) = true ->
  fst (sshm_delete T tmp_file config_file host fs) = Exit1 msgEmpty
  /\ restored config_file tmp_file fs (snd (sshm_delete T tmp_file config_file host fs)).
Proof.
  intros Hs Hz. unfold sshm_delete, outcome.
  rewrite (sshm_delete_empty T tmp_file config_file host fs original) by done.
  cbn [fst snd List.last]. split; [done |].
  apply restored_intro; try done.
  - by apply withResidue_config.
  - intros f Hft Hfb. by apply withResidue_other.
Qed.

Lemma sshm_delete_aborts :
  sedAccepts T host = false ->
  sshm_delete T tmp_file config_file host fs
  = (Aborted, withTemp tmp_file config_file fs original).
Proof.
  intros Hs. unfold sshm_delete, outcome.
  by rewrite (sshm_delete_rejected T tmp_file config_file host fs original) by done.
Qed.

Lemma withTemp_lookups :
  withTemp tmp_file config_file fs original !! config_file = Some original
  /\ withTemp tmp_file config_file fs original !! backupOf config_file = Some original
  /\ withTemp tmp_file config_file fs original !! tmp_file = Some emptyFile.
Proof.
  pose proof (backupOf_ne config_file) as Hb. unfold withTemp, backedUp.
  split; [| split].
  - by rewrite !lookup_insert_ne by done.
  - rewrite lookup_insert_ne by done. apply lookup_insert_eq.
  - apply lookup_insert_eq.
Qed.

End RewriteFacts.

(** For the examples: a machine with GNU [sed], on which the address
    [/^Host <host>$/] matches the line ["Host <host>"] only (host names
    without special characters) and a host name with a [/] in it makes
    [sed] and [awk] reject their programs. *)
Definition plainHostLine (host line : string) : bool := String.eqb line ("Host " +:+ host).

Definition plainTools (renames : bool) : tools :=
  mkTools plainHostLine plainHostLine plainHostLine
    (fun host => negb (containsByte "/" host)) (fun host => negb (containsByte "/" host))
    false (fun p => negb (String.eqb p "22")) renames.

Definition configOfAlice : string := "/home/alice/.ssh/config".
Definition tmpOfAlice : string := "/tmp/tmp.k3Jx".
Definition tmp2OfAlice : string := "/tmp/tmp.Qw8e".

Definition oneHost : list string :=
  ["Host web"; "    HostName 10.0.0.1"; "    User root"].

Definition twoHosts : list string :=
  ["Host web"; "    HostName 10.0.0.1"; "    User root"; EmptyString;
   "Host db"; "    HostName 10.0.0.2"; "    User root"].

Definition answersOfAlice : answers :=
  mkAnswers "10.0.0.9" "root" "22" "~/.ssh/id_rsa" EmptyString "~/.ssh/id_rsa".




End ShellFacts.

(** ** The history manager: further properties *)
Module MoreStoreFacts.
Import GoStrings GoStringsFacts History HistoryMore StoreFacts.

(** *** Port forwarding *)

Lemma recordForwardEntry_lookup (now : Z) (hostName : string) (cfg : PortForwardConfig)
    (conns : gmap string ConnectionInfo) :
  recordForwardEntry now hostName cfg conns !! hostName
  = Some match conns !! hostName with
         | Some conn =>
             mkConnectionInfo (HostName conn) now (wrap (ConnectCount conn + 1)) (Some cfg)
         | None => mkConnectionInfo hostName now 1 (Some cfg)
         end.
Proof. unfold recordForwardEntry. destruct (conns !! hostName); apply lookup_insert_eq. Qed.

Lemma recordForwardEntry_other (now : Z) (hostName other : string) (cfg : PortForwardConfig)
    (conns : gmap string ConnectionInfo) :
  other <> hostName -> recordForwardEntry now hostName cfg conns !! other = conns !! other.
Proof.
  intros H. unfold recordForwardEntry. destruct (conns !! hostName); by rewrite lookup_insert_ne.
Qed.

Lemma RecordPortForwarding_history (now : Z) (hostName ty lp rh rp ba : string)
    (hm : HistoryManager) (w : world) :
  allocated hm ->
  fst (fst (RecordPortForwarding now hostName ty lp rh rp ba hm w))
  = mkHistoryManager (historyPath hm)
      (mkConnectionHistory
         (recordForwardEntry now hostName (mkPortForwardConfig ty lp rh rp ba)
            (Connections (history hm)))).
Proof.
  intros Ha. unfold RecordPortForwarding, Connections, bind, ret.
  destruct (connections (history hm)) as [conns |] eqn:Ec; [| done].
  by destruct (saveHistory _ w).
Qed.

Lemma RecordPortForwarding_nil (now : Z) (hostName ty lp rh rp ba : string)
    (hm : HistoryManager) (w : world) :
  connections (history hm) = None ->
  RecordPortForwarding now hostName ty lp rh rp ba hm w = (hm, Some PanicNilMap, w).
Proof. intros Hn. unfold RecordPortForwarding. by rewrite Hn. Qed.

Lemma RecordManualConnection_nil (now : Z) (conn : ManualConnection)
    (hm : HistoryManager) (w : world) :
  connections (history hm) = None ->
  RecordManualConnection now conn hm w = (hm, Some PanicNilMap, w).
Proof. intros Hn. unfold RecordManualConnection. by rewrite Hn. Qed.

Lemma RecordManualConnection_recorded (now : Z) (conn : ManualConnection)
    (hm : HistoryManager) (w : world) :
  allocated hm ->
  fst (fst (RecordManualConnection now conn hm w))
  = mkHistoryManager (historyPath hm)
      (mkConnectionHistory
         (recordEntry now (generateManualHostID conn) (Connections (history hm)))).
Proof.
  intros Ha. unfold RecordManualConnection, Connections, bind, ret.
  destruct (connections (history hm)) as [conns |] eqn:Ec; [| done].
  by destruct (saveHistory _ w).
Qed.

(** X1.  On a store whose map is [nil], [RecordPortForwarding] panics and
    records nothing.  On every other store it replaces the stored
    configuration of the host by the one it is given, whatever was stored
    before; it counts the connection and sets its time like
    [RecordConnection]; and it leaves the entries, and so the
    configurations, of all other hosts alone. *)
Theorem RecordPortForwarding_overwrites (now : Z) (hostName ty lp rh rp ba : string)
    (hm : HistoryManager) (w : world) :
  let hm' := fst (fst (RecordPortForwarding now hostName ty lp rh rp ba hm w)) in
  (connections (history hm) = None ->
   RecordPortForwarding now hostName ty lp rh rp ba hm w = (hm, Some PanicNilMap, w))
  /\ (connections (history hm) <> None ->
      GetPortForwardingConfig hm' hostName = Some (mkPortForwardConfig ty lp rh rp ba)
      /\ GetLastConnectionTime hm' hostName = Some now
      /\ GetConnectionCount hm' hostName
         = match Connections (history hm) !! hostName with
           | Some conn => wrap (ConnectCount conn + 1)
           | None => 1%Z
           end
      /\ (forall other : string,
            other <> hostName ->
            Connections (history hm') !! other = Connections (history hm) !! other)).
Proof.
  cbv zeta. split; [apply RecordPortForwarding_nil |]. intros Ha.
  rewrite RecordPortForwarding_history by done.
  unfold GetPortForwardingConfig, GetLastConnectionTime, GetConnectionCount.
  cbn [history]. rewrite Connections_mk.
  rewrite recordForwardEntry_lookup.
  split; [| split; [| split]].
  - by destruct (Connections (history hm) !! hostName).
  - by destruct (Connections (history hm) !! hostName).
  - by destruct (Connections (history hm) !! hostName).
  - intros other Ho. by apply recordForwardEntry_other.
Qed.

Lemma RecordPortForwarding_overwrites_witness :
  let hm := managerOfAlice {[ "db" := mkConnectionInfo "db" 10 3 None ]} in
  let hm' := fst (fst (RecordPortForwarding 100 "db" "local" "8080" "localhost" "80"
                         EmptyString hm (worldOfAlice ∅ ∅))) in
  GetPortForwardingConfig hm' "db"
  = Some (mkPortForwardConfig "local" "8080" "localhost" "80" EmptyString)
  /\ GetConnectionCount hm' "db" = 4%Z.
Proof.
  cbv zeta.
  destruct (proj2 (RecordPortForwarding_overwrites 100 "db" "local" "8080" "localhost" "80"
                     EmptyString (managerOfAlice {[ "db" := mkConnectionInfo "db" 10 3 None ]})
                     (worldOfAlice ∅ ∅)) ltac:(discriminate)) as (Hc & _ & Hn & _).
  split; [exact Hc |]. rewrite Hn. reflexivity.
Defined.

(** X2.  [RecordConnection] never touches a stored port-forwarding
    configuration: every host, the recorded one included, answers
    [GetPortForwardingConfig] after the call as it did before. *)
Theorem RecordConnection_keeps_port_forwarding (now : Z) (hostName queried : string)
    (hm : HistoryManager) (w : world) :
  GetPortForwardingConfig (fst (fst (RecordConnection now hostName hm w))) queried
  = GetPortForwardingConfig hm queried.
Proof.
  destruct (connections (history hm)) as [conns |] eqn:Ec;
    [| by rewrite RecordConnection_nil].
  rewrite RecordConnection_history by (unfold allocated; congruence).
  unfold GetPortForwardingConfig. cbn [history]. rewrite Connections_mk.
  destruct (decide (queried = hostName)) as [-> | Hne].
  - destruct (Connections (history hm) !! hostName) as [conn|] eqn:E.
    + by rewrite (recordEntry_existing _ _ _ conn E).
    + by rewrite (recordEntry_new _ _ _ E).
  - by rewrite recordEntry_other.
Qed.

(** *** Invariants of the map *)

(** Every entry is filed under its own [HostName], and has been counted at
    least once. *)
Definition keyed (conns : gmap string ConnectionInfo) : Prop :=
  forall (id : string) (conn : ConnectionInfo), conns !! id = Some conn -> HostName conn = id.

Definition counted (conns : gmap string ConnectionInfo) : Prop :=
  forall (id : string) (conn : ConnectionInfo),
    conns !! id = Some conn -> (1 <= ConnectCount conn)%Z.

Definition belowMax (conns : gmap string ConnectionInfo) : Prop :=
  forall (id : string) (conn : ConnectionInfo),
    conns !! id = Some conn -> (ConnectCount conn < maxInt)%Z.

Lemma recordEntry_invariants (now : Z) (hostName : string) (conns : gmap string ConnectionInfo) :
  keyed conns -> counted conns -> belowMax conns ->
  keyed (recordEntry now hostName conns) /\ counted (recordEntry now hostName conns).
Proof.
  intros Hk Hc Hm. split; intros id conn; destruct (decide (id = hostName)) as [-> | Hne].
  - destruct (conns !! hostName) as [c|] eqn:E.
    + rewrite (recordEntry_existing _ _ _ c E). intros [= <-]. simpl. by apply Hk.
    + rewrite (recordEntry_new _ _ _ E). by intros [= <-].
  - rewrite recordEntry_other by done. apply Hk.
  - destruct (conns !! hostName) as [c|] eqn:E.
    + rewrite (recordEntry_existing _ _ _ c E). intros [= <-]. simpl.
      specialize (Hc _ _ E). specialize (Hm _ _ E).
      rewrite wrap_in_range; unfold minInt, maxInt in *; lia.
    + rewrite (recordEntry_new _ _ _ E). by intros [= <-].
  - rewrite recordEntry_other by done. apply Hc.
Qed.

Lemma recordForwardEntry_invariants (now : Z) (hostName : string) (cfg : PortForwardConfig)
    (conns : gmap string ConnectionInfo) :
  keyed conns -> counted conns -> belowMax conns ->
  keyed (recordForwardEntry now hostName cfg conns)
  /\ counted (recordForwardEntry now hostName cfg conns).
Proof.
  intros Hk Hc Hm. split; intros id conn; destruct (decide (id = hostName)) as [-> | Hne].
  - rewrite recordForwardEntry_lookup. destruct (conns !! hostName) as [c|] eqn:E.
    + intros [= <-]. simpl. by apply Hk.
    + by intros [= <-].
  - rewrite recordForwardEntry_other by done. apply Hk.
  - rewrite recordForwardEntry_lookup. destruct (conns !! hostName) as [c|] eqn:E.
    + intros [= <-]. simpl. specialize (Hc _ _ E). specialize (Hm _ _ E).
      rewrite wrap_in_range; unfold minInt, maxInt in *; lia.
    + by intros [= <-].
  - rewrite recordForwardEntry_other by done. apply Hc.
Qed.

Lemma pruneEntries_invariants (names : gmap string bool) (conns : gmap string ConnectionInfo) :
  keyed conns -> counted conns ->
  keyed (pruneEntries names conns) /\ counted (pruneEntries names conns).
Proof.
  intros Hk Hc. split; intros id conn; rewrite pruneEntries_lookup;
    destruct (default false (names !! id)); try done; [apply Hk | apply Hc].
Qed.

(** X3.  The four operations that change the map keep it well formed: if
    every entry is filed under its own [HostName] with a count between 1
    and [maxInt - 1], then after [RecordConnection], [RecordManualConnection],
    [RecordPortForwarding] or [CleanupOldEntries] every entry is still filed
    under its own [HostName] with a count of at least 1. *)
Theorem operations_keep_entries_well_formed (hm : HistoryManager) (w : world) :
  keyed (Connections (history hm)) ->
  counted (Connections (history hm)) ->
  belowMax (Connections (history hm)) ->
  (forall (now : Z) (hostName : string),
      let hm' := fst (fst (RecordConnection now hostName hm w)) in
      keyed (Connections (history hm')) /\ counted (Connections (history hm')))
  /\ (forall (now : Z) (conn : ManualConnection),
        let hm' := fst (fst (RecordManualConnection now conn hm w)) in
        keyed (Connections (history hm')) /\ counted (Connections (history hm')))
  /\ (forall (now : Z) (hostName ty lp rh rp ba : string),
        let hm' := fst (fst (RecordPortForwarding now hostName ty lp rh rp ba hm w)) in
        keyed (Connections (history hm')) /\ counted (Connections (history hm')))
  /\ (forall currentHosts : list Config.SSHHost,
        let hm' := fst (fst (CleanupOldEntries currentHosts hm w)) in
        keyed (Connections (history hm')) /\ counted (Connections (history hm'))).
Proof.
  intros Hk Hc Hm. cbv zeta.
  split; [| split; [| split]].
  - intros now hostName.
    destruct (connections (history hm)) as [conns |] eqn:Ec;
      [| by rewrite RecordConnection_nil].
    rewrite RecordConnection_history by (unfold allocated; congruence).
    by apply recordEntry_invariants.
  - intros now conn.
    destruct (connections (history hm)) as [conns |] eqn:Ec;
      [| by rewrite RecordManualConnection_nil].
    rewrite RecordManualConnection_recorded by (unfold allocated; congruence).
    by apply recordEntry_invariants.
  - intros now hostName ty lp rh rp ba.
    destruct (connections (history hm)) as [conns |] eqn:Ec;
      [| by rewrite RecordPortForwarding_nil].
    rewrite RecordPortForwarding_history by (unfold allocated; congruence).
    by apply recordForwardEntry_invariants.
  - intros currentHosts. rewrite CleanupOldEntries_history.
    by apply pruneEntries_invariants.
Qed.

Lemma operations_keep_entries_well_formed_witness :
  let hm := managerOfAlice {[ "db" := mkConnectionInfo "db" 10 3 None ]} in
  let hm' := fst (fst (RecordConnection 100 "db" hm (worldOfAlice ∅ ∅))) in
  keyed (Connections (history hm')) /\ counted (Connections (history hm')).
Proof.
  cbv zeta.
  assert (Hone : forall (P : ConnectionInfo -> Prop),
             P (mkConnectionInfo "db" 10 3 None) ->
             forall (id : string) (conn : ConnectionInfo),
               Connections (history (managerOfAlice {[ "db" := mkConnectionInfo "db" 10 3 None ]}))
               !! id = Some conn -> P conn /\ id = "db").
  { intros P HP id conn H. simpl in H. rewrite Connections_mk in H.
    apply lookup_singleton_Some in H as [<- <-]. done. }
  apply (proj1 (operations_keep_entries_well_formed
                  (managerOfAlice {[ "db" := mkConnectionInfo "db" 10 3 None ]})
                  (worldOfAlice ∅ ∅)
                  (fun id conn H => eq_trans (proj1 (Hone (fun c => HostName c = "db") eq_refl id conn H))
                                      (eq_sym (proj2 (Hone (fun c => HostName c = "db") eq_refl id conn H))))
                  (fun id conn H => proj1 (Hone (fun c => (1 <= ConnectCount c)%Z) ltac:(simpl; lia) id conn H))
                  (fun id conn H => proj1 (Hone (fun c => (ConnectCount c < maxInt)%Z) ltac:(simpl; unfold maxInt; lia) id conn H)))
           100%Z "db").
Defined.

(** *** Pruning *)

(** X4.  [CleanupOldEntries] only removes: every entry it leaves was there
    before, unchanged; and pruning twice against the same hosts removes
    nothing more than pruning once. *)
Theorem CleanupOldEntries_shrinks_and_is_idempotent
    (currentHosts : list Config.SSHHost) (hm : HistoryManager) (w w2 : world) :
  let hm' := fst (fst (CleanupOldEntries currentHosts hm w)) in
  Connections (history hm') ⊆ Connections (history hm)
  /\ Connections (history (fst (fst (CleanupOldEntries currentHosts hm' w2))))
     = Connections (history hm').
Proof.
  cbv zeta. rewrite !CleanupOldEntries_history. split.
  - apply map_subseteq_spec. intros id conn. rewrite pruneEntries_lookup.
    by destruct (default false (currentHostNames currentHosts !! id)).
  - apply map_eq. intros id. rewrite !pruneEntries_lookup.
    by destruct (default false (currentHostNames currentHosts !! id)).
Qed.

End MoreStoreFacts.

(** ** Sorting by recency, and the list of all connections *)
Module MoreSortFacts.
Import GoStrings History HistoryMore StoreFacts GoSort SortFacts.

Lemma lessLastUsed_asym (hm : HistoryManager) (hi hj : Config.SSHHost) :
  lessLastUsed hm hi hj = true -> lessLastUsed hm hj hi = false.
Proof.
  unfold lessLastUsed.
  destruct (GetLastConnectionTime hm (Config.Name hi)) as [ti|],
           (GetLastConnectionTime hm (Config.Name hj)) as [tj|]; try done.
  - intros H%Z.ltb_lt. apply Z.ltb_ge. lia.
  - apply ltb_asym.
Qed.

(** The history of the specification's example for the order by recency:
    [A] connected now, [B] an hour ago, [C] never. *)
Definition recencyExample : HistoryManager :=
  managerOfAlice
    {[ "A" := mkConnectionInfo "A" exampleNow 1 None;
       "B" := mkConnectionInfo "B" (exampleNow - 3600) 4 None ]}.

(** X5.  [SortHostsByLastUsed] returns the hosts it was given, in an order
    in which, from a host to the next, the time of last connection never
    increases, a host without history is never followed by one with
    history, and two hosts without history are in ascending order of name.
    With [A] connected now, [B] an hour ago and [C] never, [C; B; A] comes
    out as [A; B; C]. *)
Theorem SortHostsByLastUsed_order (hm : HistoryManager) (hosts : list Config.SSHHost) :
  Permutation (SortHostsByLastUsed hm hosts) hosts
  /\ (forall (l1 l2 : list Config.SSHHost) (u v : Config.SSHHost),
        SortHostsByLastUsed hm hosts = (l1 ++ u :: v :: l2)%list ->
        (forall tu tv : Z,
            GetLastConnectionTime hm (Config.Name u) = Some tu ->
            GetLastConnectionTime hm (Config.Name v) = Some tv ->
            (tv <= tu)%Z)
        /\ (GetLastConnectionTime hm (Config.Name u) = None ->
            GetLastConnectionTime hm (Config.Name v) = None
            /\ String.leb (Config.Name u) (Config.Name v) = true))
  /\ SortHostsByLastUsed recencyExample [hostNamed "C"; hostNamed "B"; hostNamed "A"]
     = [hostNamed "A"; hostNamed "B"; hostNamed "C"].
Proof.
  split; [apply insertionSort_perm |]. split; [| vm_compute; reflexivity].
  intros l1 l2 u v Hout.
  pose proof (insertionSort_adjacent (lessLastUsed hm) (lessLastUsed_asym hm)
                hosts l1 l2 u v Hout) as Hvu.
  unfold lessLastUsed in Hvu. split.
  - intros tu tv Hu Hv. rewrite Hu, Hv in Hvu. by apply Z.ltb_ge in Hvu.
  - intros Hu. rewrite Hu in Hvu.
    destruct (GetLastConnectionTime hm (Config.Name v)); [done |].
    split; [done | by apply ltb_false_leb].
Qed.

Lemma SortHostsByLastUsed_order_witness :
  (exampleNow - 3600 <= exampleNow)%Z.
Proof.
  destruct (SortHostsByLastUsed_order recencyExample
              [hostNamed "C"; hostNamed "B"; hostNamed "A"]) as (_ & Hadj & _).
  destruct (Hadj [] [hostNamed "C"] (hostNamed "A") (hostNamed "B")) as [Htimes _];
    [vm_compute; reflexivity |].
  apply Htimes; vm_compute; reflexivity.
Defined.

(** *** [GetAllConnectionsInfo] *)

Lemma lessLastConnect_asym (ci cj : ConnectionInfo) :
  lessLastConnect ci cj = true -> lessLastConnect cj ci = false.
Proof. unfold lessLastConnect. intros H%Z.ltb_lt. apply Z.ltb_ge. lia. Qed.

Lemma collect_fold (conns : gmap string ConnectionInfo) (visit : list string)
    (acc : list ConnectionInfo) :
  fold_left
    (fun acc hostName =>
       match conns !! hostName with
       | Some conn => (acc ++ [conn])%list
       | None => acc
       end) visit acc
  = (acc ++ omap (fun hostName => conns !! hostName) visit)%list.
Proof.
  revert acc. induction visit as [|k visit IH]; intros acc; simpl.
  - by rewrite app_nil_r.
  - rewrite IH. destruct (conns !! k); [by rewrite <- app_assoc | done].
Qed.

Lemma omap_lookup_keys (conns : gmap string ConnectionInfo)
    (l : list (string * ConnectionInfo)) :
  (forall k v, (k, v) ∈ l -> conns !! k = Some v) ->
  omap (fun hostName => conns !! hostName) (map fst l) = map snd l.
Proof.
  induction l as [|[k v] l IH]; intros H; simpl; [done |].
  rewrite (H k v) by left. simpl. f_equal. apply IH.
  intros k' v' Hin. apply H. by right.
Qed.

(** X6.  [GetAllConnectionsInfo] returns every entry of the map exactly
    once, whatever order the [range] over the map takes, and in the list it
    returns the time of last connection never increases from an entry to
    the next. *)
Theorem GetAllConnectionsInfo_all_sorted (visit : list string) (hm : HistoryManager) :
  Permutation visit (map fst (map_to_list (Connections (history hm)))) ->
  Permutation (GetAllConnectionsInfo visit hm)
    (map snd (map_to_list (Connections (history hm))))
  /\ (forall (l1 l2 : list ConnectionInfo) (ci cj : ConnectionInfo),
        GetAllConnectionsInfo visit hm = (l1 ++ ci :: cj :: l2)%list ->
        (LastConnect cj <= LastConnect ci)%Z).
Proof.
  intros Hvisit. unfold GetAllConnectionsInfo, Slice. cbv zeta. split.
  - rewrite insertionSort_perm, collect_fold. simpl.
    rewrite Hvisit. rewrite omap_lookup_keys; [done |].
    intros k v. apply elem_of_map_to_list.
  - intros l1 l2 ci cj Hout.
    pose proof (insertionSort_adjacent lessLastConnect lessLastConnect_asym _ l1 l2 ci cj Hout)
      as H.
    by apply Z.ltb_ge in H.
Qed.

Lemma GetAllConnectionsInfo_all_sorted_witness :
  Permutation (GetAllConnectionsInfo ["B"; "A"] recencyExample)
    (map snd (map_to_list (Connections (history recencyExample)))).
Proof.
  apply (proj1 (GetAllConnectionsInfo_all_sorted ["B"; "A"] recencyExample
                  ltac:(vm_compute; apply perm_swap))).
Defined.

End MoreSortFacts.

(** ** The manual-connection codec: further properties *)
Module MoreCodecFacts.
Import GoStrings GoStringsFacts History HistoryMore StoreFacts CodecFacts MoreStoreFacts.

Lemma slice_to_from (n : nat) (s : string) : slice_to n s +:+ slice_from n s = s.
Proof.
  revert s. induction n as [|n IH]; intros [|a s]; simpl; try done. by rewrite IH.
Qed.

Lemma indexByte_Some (c : ascii) (s : string) (i : nat) :
  indexByte c s = Some i ->
  s = slice_to i s +:+ String c (slice_from (S i) s) /\ indexByte c (slice_to i s) = None.
Proof.
  revert i. induction s as [|a s IH]; intros i; simpl; [done |].
  destruct (Ascii.eqb a c) eqn:E.
  - intros [= <-]. apply Ascii.eqb_eq in E. subst a. by destruct s.
  - destruct (indexByte c s) as [j|]; [| done]. simpl. intros [= <-].
    destruct (IH j eq_refl) as [Hs Hn]. simpl. rewrite E, Hn. split; [| done].
    f_equal. exact Hs.
Qed.

Lemma lastIndexByte_Some (c : ascii) (s : string) (i : nat) :
  lastIndexByte c s = Some i ->
  s = slice_to i s +:+ String c (slice_from (S i) s)
  /\ lastIndexByte c (slice_from (S i) s) = None.
Proof.
  revert i. induction s as [|a s IH]; intros i; simpl; [done |].
  destruct (lastIndexByte c s) as [j|] eqn:El.
  - intros [= <-]. destruct (IH j eq_refl) as [Hs Hn]. simpl. split; [| done].
    f_equal. exact Hs.
  - destruct (Ascii.eqb a c) eqn:E; [| done]. intros [= <-].
    apply Ascii.eqb_eq in E. subst a. simpl. split; [by destruct s |].
    by destruct s.
Qed.

Lemma IsManualConnection_inv (id : string) :
  IsManualConnection id = true -> id = "manual:" +:+ slice_from 7 id.
Proof.
  unfold IsManualConnection. intros [_ H]%andb_true_iff. apply String.eqb_eq in H.
  rewrite <- H at 1. by rewrite slice_to_from.
Qed.

(** Decoding an identifier built from any three parts. *)
Lemma ParseManualConnectionID_built (u h p : string) :
  indexByte "@" u = None -> indexByte ":" p = None ->
  ParseManualConnectionID ("manual:" +:+ ((u +:+ String "@" h) +:+ String ":" p))
  = Some (u, h, p).
Proof.
  intros Hu Hp. unfold ParseManualConnectionID.
  rewrite IsManualConnection_prefixed by (by destruct u).
  simpl negb. cbv iota.
  change (slice_from 7 ("manual:" +:+ ?r)) with r. cbv zeta.
  apply lastIndexByte_None_indexByte in Hp.
  rewrite (lastIndexByte_app_sep ":" _ _ Hp).
  rewrite slice_to_app, slice_from_S_app.
  rewrite (indexByte_app_sep "@" _ _ Hu).
  by rewrite slice_to_app, slice_from_S_app.
Qed.

(** X7.  [ParseManualConnectionID] succeeds exactly on the strings of the
    form [manual:<user>@<host>:<port>] in which the user holds no ['@'] and
    the port no [':'], and then returns these three parts: putting the
    parts it returns back together gives the identifier it was given. *)
Theorem ParseManualConnectionID_Some (id u h p : string) :
  ParseManualConnectionID id = Some (u, h, p) <->
  id = "manual:" +:+ u +:+ "@" +:+ h +:+ ":" +:+ p
  /\ indexByte "@" u = None /\ indexByte ":" p = None.
Proof.
  split.
  - unfold ParseManualConnectionID.
    destruct (IsManualConnection id) eqn:Em; [| done]. simpl negb. cbv iota zeta.
    apply IsManualConnection_inv in Em.
    destruct (lastIndexByte ":" (slice_from 7 id)) as [i|] eqn:El; [| done].
    destruct (indexByte "@" (slice_to i (slice_from 7 id))) as [j|] eqn:Ea; [| done].
    intros [= <- <- <-].
    destruct (lastIndexByte_Some _ _ _ El) as [Hparts Hport].
    destruct (indexByte_Some _ _ _ Ea) as [Huh Huser].
    split; [| split; [done | by apply lastIndexByte_None_indexByte]].
    rewrite Em at 1. f_equal. rewrite Hparts at 1. rewrite Huh at 1.
    by rewrite append_assoc.
  - intros (-> & Hu & Hp).
    rewrite <- (ParseManualConnectionID_built u h p Hu Hp). f_equal. f_equal.
    by rewrite append_assoc.
Qed.

Lemma ParseManualConnectionID_generate (conn : ManualConnection) :
  indexByte "@" (User conn) = None -> indexByte ":" (Port conn) = None ->
  ParseManualConnectionID (generateManualHostID conn)
  = Some (userOrDefault conn, Hostname conn, portOrDefault conn).
Proof.
  intros Hu Hp. rewrite generateManualHostID_shape.
  apply ParseManualConnectionID_built.
  - by apply userOrDefault_no_at.
  - apply lastIndexByte_None_indexByte. by apply portOrDefault_no_colon.
Qed.

(** X8.  The identifier tells two manual connections apart exactly by
    user, host name and port after the defaults: for connections whose user
    holds no ['@'] and whose port holds no [':'], the identifiers are equal
    if and only if these three are.  The identity file plays no part, and
    an empty user or port is the same as ["default"] or ["22"]. *)
Theorem generateManualHostID_eq (c1 c2 : ManualConnection) :
  indexByte "@" (User c1) = None -> indexByte ":" (Port c1) = None ->
  indexByte "@" (User c2) = None -> indexByte ":" (Port c2) = None ->
  generateManualHostID c1 = generateManualHostID c2 <->
  userOrDefault c1 = userOrDefault c2 /\ Hostname c1 = Hostname c2
  /\ portOrDefault c1 = portOrDefault c2.
Proof.
  intros Hu1 Hp1 Hu2 Hp2. split.
  - intros Heq.
    pose proof (ParseManualConnectionID_generate c1 Hu1 Hp1) as H1.
    pose proof (ParseManualConnectionID_generate c2 Hu2 Hp2) as H2.
    rewrite Heq, H2 in H1. by injection H1 as -> -> ->.
  - intros (Hu & Hh & Hp). rewrite !generateManualHostID_shape. by rewrite Hu, Hh, Hp.
Qed.

Lemma generateManualHostID_eq_witness :
  generateManualHostID (mkManualConnection EmptyString "example.com" EmptyString "~/.ssh/a")
  = generateManualHostID (mkManualConnection "default" "example.com" "22" "~/.ssh/b").
Proof.
  apply (proj2 (generateManualHostID_eq
                  (mkManualConnection EmptyString "example.com" EmptyString "~/.ssh/a")
                  (mkManualConnection "default" "example.com" "22" "~/.ssh/b")
                  eq_refl eq_refl eq_refl eq_refl)).
  repeat split.
Defined.

(** X9.  On a store whose map is [nil], [RecordManualConnection] panics and
    records nothing.  On every other store it files the connection under
    its identifier: after the call the entry of [generateManualHostID conn]
    carries that identifier and the current time, [IsManualConnection]
    recognises it, and every entry with another identifier is as before.
    Recording, on a store that has no entry for it, one connection and then
    a second one with the same identifier leaves a single entry with a count
    of 2. *)
Theorem RecordManualConnection_files_under_identifier (now : Z) (conn : ManualConnection)
    (hm : HistoryManager) (w : world) :
  let id := generateManualHostID conn in
  let hm' := fst (fst (RecordManualConnection now conn hm w)) in
  IsManualConnection id = true
  /\ (connections (history hm) = None ->
      RecordManualConnection now conn hm w = (hm, Some PanicNilMap, w))
  /\ (connections (history hm) <> None ->
      (exists entry, Connections (history hm') !! id = Some entry
                     /\ LastConnect entry = now
                     /\ (Connections (history hm) !! id = None -> HostName entry = id))
      /\ (forall other : string,
            other <> id ->
            Connections (history hm') !! other = Connections (history hm) !! other)
      /\ (forall (now2 : Z) (conn2 : ManualConnection) (w2 : world),
            generateManualHostID conn2 = id ->
            Connections (history hm) !! id = None ->
            GetConnectionCount (fst (fst (RecordManualConnection now2 conn2 hm' w2))) id
            = 2%Z)).
Proof.
  cbv zeta.
  split; [apply IsManualConnection_generate |].
  split; [apply RecordManualConnection_nil |]. intros Ha.
  rewrite RecordManualConnection_recorded by done.
  cbn [history]. rewrite Connections_mk.
  split; [| split].
  - destruct (Connections (history hm) !! generateManualHostID conn) as [c|] eqn:E.
    + eexists. split; [by apply recordEntry_existing | by split].
    + eexists. split; [by apply recordEntry_new | by split].
  - intros other Ho. by apply recordEntry_other.
  - intros now2 conn2 w2 Hid Hnone. rewrite RecordManualConnection_recorded by done.
    rewrite Hid. unfold GetConnectionCount. repeat (cbn [history]; rewrite Connections_mk).
    by rewrite (recordEntry_existing now2 _ _ _ (recordEntry_new now _ _ Hnone)).
Qed.

Lemma RecordManualConnection_files_under_identifier_witness :
  let c1 := mkManualConnection EmptyString "example.com" EmptyString "~/.ssh/a" in
  let c2 := mkManualConnection "default" "example.com" "22" "~/.ssh/b" in
  let r1 := RecordManualConnection 100 c1 (managerOfAlice ∅) (worldOfAlice ∅ ∅) in
  GetConnectionCount (fst (fst (RecordManualConnection 200 c2 (fst (fst r1)) (snd r1))))
    "manual:default@example.com:22" = 2%Z.
Proof.
  cbv zeta.
  pose proof (RecordManualConnection_files_under_identifier 100
                (mkManualConnection EmptyString "example.com" EmptyString "~/.ssh/a")
                (managerOfAlice ∅) (worldOfAlice ∅ ∅)) as H.
  cbv zeta in H. destruct H as (_ & _ & H).
  destruct H as (_ & _ & Htwice); [discriminate |].
  apply (Htwice 200%Z (mkManualConnection "default" "example.com" "22" "~/.ssh/b"));
    reflexivity.
Defined.

End MoreCodecFacts.

(** ** Opening the store: further properties *)
Module MoreOpenFacts.
Import GoStrings History HistoryMore StoreFacts OpenFacts MoreStoreFacts.

Lemma Stat_world (p : string * string) (w : world) : snd (Stat p w) = w.
Proof. unfold Stat. destruct (fails w _); [done |]. by destruct (files w !! p). Qed.

Lemma GetSSHDirectory_world (w : world) : snd (GetSSHDirectory w) = w.
Proof. unfold GetSSHDirectory. by destruct (fails w _). Qed.

Lemma ReadFile_data (p : string * string) (w : world) (d : bytes) :
  fst (ReadFile p w) = inl d -> exists f, files w !! p = Some f /\ data f = d.
Proof.
  unfold ReadFile. destruct (fails w _); [done |].
  destruct (files w !! p) as [f|]; [| done]. intros [= <-]. by exists f.
Qed.

Lemma written_files (p : string * string) (d : bytes) (perm : Z) (w : world) :
  exists m, files (written p d perm w) = <[p := mkFile d m]> (files w).
Proof. unfold written. destruct (files w !! p) as [f|]; by eexists. Qed.

(** The files after [os.WriteFile]: with an error, those before, or those
    before with what the failing call had written; without, those before
    with the bytes in the file. *)
Lemma WriteFile_files (p : string * string) (d : bytes) (perm : Z) (w : world) :
  (fst (WriteFile p d perm w) <> None
   /\ (files (snd (WriteFile p d perm w)) = files w
       \/ exists partial m,
            fails w (SysWriteFile p) = true /\ torn w p = Some partial
            /\ files (snd (WriteFile p d perm w)) = <[p := mkFile partial m]> (files w)))
  \/ (fst (WriteFile p d perm w) = None
      /\ exists m, files (snd (WriteFile p d perm w)) = <[p := mkFile d m]> (files w)).
Proof.
  unfold WriteFile. simpl. destruct (fails w _) eqn:Ef.
  - left. destruct (torn w p) as [partial |] eqn:Et; [| by split; [| left]].
    destruct (dirs w !! Dir p); [| by split; [| left]].
    split; [done |]. right.
    destruct (written_files p partial perm (logEvent (EvWriteFile p perm) w)) as (m & Hm).
    by exists partial, m.
  - destruct (dirs w !! Dir p); [| left; by split; [| left]].
    right. split; [done |].
    apply (written_files p d perm (logEvent (EvWriteFile p perm) w)).
Qed.

Lemma Remove_files (p : string * string) (w : world) :
  files (snd (Remove p w)) = files w \/ files (snd (Remove p w)) = delete p (files w).
Proof.
  unfold Remove. simpl. destruct (fails w _); [by left |].
  destruct (files w !! p); [by right | by left].
Qed.

Lemma WriteFile_fails (p : string * string) (d : bytes) (perm : Z) (w : world) :
  fails (snd (WriteFile p d perm w)) = fails w
  /\ sshmConfigDir (snd (WriteFile p d perm w)) = sshmConfigDir w
  /\ sshDirectory (snd (WriteFile p d perm w)) = sshDirectory w.
Proof.
  unfold WriteFile. simpl.
  destruct (fails w _).
  - destruct (torn w p); [| done]. destruct (dirs w !! Dir p); [| done].
    simpl. unfold written. by destruct (files _ !! p).
  - destruct (dirs w !! Dir p); [| done].
    simpl. unfold written. by destruct (files _ !! p).
Qed.

Lemma Remove_fails (p : string * string) (w : world) :
  fails (snd (Remove p w)) = fails w
  /\ sshmConfigDir (snd (Remove p w)) = sshmConfigDir w
  /\ sshDirectory (snd (Remove p w)) = sshDirectory w.
Proof. unfold Remove. simpl. destruct (fails w _); [done |]. by destruct (files w !! p). Qed.

Lemma migration_fails (p : string * string) (w : world) :
  fails (snd (migrateOldHistoryFile p w)) = fails w.
Proof.
  unfold migrateOldHistoryFile, bind, ret.
  pose proof (Stat_world p w) as Hs. destruct (Stat p w) as [st w1]. simpl in Hs. subst w1.
  destruct st as [e|]; [| done].
  pose proof (GetSSHDirectory_world w) as Hg.
  destruct (GetSSHDirectory w) as [[sshDir | e'] w1]; simpl in Hg; subst w1; [| done].
  pose proof (Stat_world (Join sshDir historyFileName) w) as Hs'.
  destruct (Stat _ w) as [st' w1]. simpl in Hs'. subst w1.
  destruct (IsNotExist st'); [done |].
  pose proof (ReadFile_world (Join sshDir historyFileName) w) as Hr.
  destruct (ReadFile _ w) as [[d | e'] w1]; simpl in Hr; subst w1; [| done].
  pose proof (WriteFile_fails p d (octal 6 4 4) w) as (Hw & _).
  destruct (WriteFile p d (octal 6 4 4) w) as [wr w1]. simpl in Hw.
  destruct wr; [done |].
  pose proof (Remove_fails (Join sshDir historyFileName) w1) as (Hrm & _).
  destruct (Remove _ w1) as [rm w2]. simpl in *. congruence.
Qed.

(** The files the migration leaves: those it found; or, when the write
    failed after the new file was opened, those it found with the new file
    holding what had been written by then; or those it found with the bytes
    of the old file written to the new path and, possibly, the old file
    removed. *)
Lemma migrate_files (p : string * string) (w : world) :
  let r := migrateOldHistoryFile p w in
  files (snd r) = files w
  \/ (fst r <> None
      /\ exists partial m,
           fails w (SysWriteFile p) = true /\ torn w p = Some partial
           /\ files (snd r) = <[p := mkFile partial m]> (files w))
  \/ (fst r = None
      /\ exists fo m,
           files w !! oldPath w = Some fo
           /\ (files (snd r) = <[p := mkFile (data fo) m]> (files w)
               \/ files (snd r) = delete (oldPath w) (<[p := mkFile (data fo) m]> (files w)))).
Proof.
  cbv zeta. unfold migrateOldHistoryFile, bind, ret.
  pose proof (Stat_world p w) as Hs. destruct (Stat p w) as [st w1]. simpl in Hs. subst w1.
  destruct st as [e|]; [| by left].
  pose proof (GetSSHDirectory_world w) as Hg.
  assert (Hdir : forall d, fst (GetSSHDirectory w) = inl d -> d = sshDirectory w).
  { unfold GetSSHDirectory. destruct (fails w _); [done | by intros d [= <-]]. }
  destruct (GetSSHDirectory w) as [[sshDir | e'] w1]; simpl in Hg; subst w1; [| by left].
  rewrite (Hdir sshDir eq_refl). fold (oldPath w).
  pose proof (Stat_world (oldPath w) w) as Hs'.
  destruct (Stat (oldPath w) w) as [st' w1]. simpl in Hs'. subst w1.
  destruct (IsNotExist st'); [by left |].
  pose proof (ReadFile_world (oldPath w) w) as Hr.
  pose proof (ReadFile_data (oldPath w) w) as Hd.
  destruct (ReadFile (oldPath w) w) as [[d | e'] w1]; simpl in Hr; subst w1; [| by left].
  destruct (Hd d eq_refl) as (fo & Hfo & <-).
  pose proof (WriteFile_files p (data fo) (octal 6 4 4) w) as Hw.
  destruct (WriteFile p (data fo) (octal 6 4 4) w) as [wr w1]. simpl in Hw.
  destruct Hw as [[Hwr [Hfiles | (partial & m & Hf & Ht & Hfiles)]] | [-> (m & Hfiles)]].
  - destruct wr; [by left | done].
  - destruct wr as [e' |]; [| done]. simpl. right. left.
    split; [done |]. by exists partial, m.
  - pose proof (Remove_files (oldPath w) w1) as Hrm.
    destruct (Remove (oldPath w) w1) as [rm w2]. simpl in Hrm. simpl.
    right. right. split; [done |]. exists fo, m. split; [done |].
    rewrite <- Hfiles. destruct Hrm as [-> | ->]; [by left | by right].
Qed.

(** X10.  The migration cannot lose the legacy history.  When the two paths
    differ: a migration that returns an error has left the legacy file as
    it was, and has changed the new file only if its [os.WriteFile] failed
    after opening the file, which then holds what had been written by then;
    the old file disappears only if the new file then holds its bytes; a
    file other than these two is never touched; and after a migration that
    returns no error the new file is as it was or holds the bytes of the
    old one. *)
Theorem migration_never_loses_history (p : string * string) (w : world) :
  p <> oldPath w ->
  let r := migrateOldHistoryFile p w in
  (fst r <> None ->
   files (snd r) !! oldPath w = files w !! oldPath w
   /\ (files (snd r) !! p = files w !! p
       \/ fails w (SysWriteFile p) = true
          /\ exists partial f, torn w p = Some partial
                               /\ files (snd r) !! p = Some f /\ data f = partial))
  /\ (forall fo : file,
      files w !! oldPath w = Some fo -> files (snd r) !! oldPath w = None ->
      exists f, files (snd r) !! p = Some f /\ data f = data fo)
  /\ (forall q : string * string,
        q <> p -> q <> oldPath w -> files (snd r) !! q = files w !! q)
  /\ (fst r = None ->
      files (snd r) !! p = files w !! p
      \/ exists fo f, files w !! oldPath w = Some fo
                      /\ files (snd r) !! p = Some f /\ data f = data fo).
Proof.
  intros Hne. cbv zeta.
  destruct (migrate_files p w)
    as [Hsame | [(Herr & partial & m & Hf & Ht & Hfiles) | (Hok & fo & m & Ho & Hfiles)]].
  - rewrite Hsame. split; [intros _; split; [done | by left] |].
    split; [congruence |]. split; [done | by left].
  - rewrite Hfiles. split; [| split; [| split]].
    + intros _. split; [by rewrite lookup_insert_ne |].
      right. split; [done |]. exists partial. eexists.
      split; [done |]. split; [apply lookup_insert_eq | done].
    + intros fo Ho. rewrite lookup_insert_ne by done. congruence.
    + intros q Hqp Hqo. by rewrite lookup_insert_ne.
    + done.
  - assert (Hp : files (snd (migrateOldHistoryFile p w)) !! p = Some (mkFile (data fo) m)).
    { destruct Hfiles as [-> | ->]; rewrite ?lookup_delete_ne by done; apply lookup_insert_eq. }
    split; [by rewrite Hok |]. split; [| split].
    + intros fo' Ho' _. rewrite Ho in Ho'. injection Ho' as <-. by eexists.
    + intros q Hqp Hqo.
      destruct Hfiles as [-> | ->]; rewrite ?lookup_delete_ne by done;
        by rewrite lookup_insert_ne.
    + intros _. right. exists fo. by eexists.
Qed.

(** The world of the upgrade, with a new file that cannot be written to the
    end: the write fails after the first bytes. *)
Definition tornLegacyWorld : world :=
  mkWorld (files legacyWorld) {[ sshDirOfAlice := octal 7 0 0; configDirOfAlice := octal 7 5 5 ]}
    configDirOfAlice sshDirOfAlice
    (fun c => match c with SysWriteFile _ => true | _ => false end)
    (fun _ => Some (Garbage "{")) [].

Lemma migration_never_loses_history_witness :
  (exists f,
     files (snd (migrateOldHistoryFile (Join configDirOfAlice historyFileName)
                   (snd (MkdirAll configDirOfAlice (octal 7 5 5) legacyWorld))))
     !! Join configDirOfAlice historyFileName = Some f
     /\ data f = Document legacyDocument)
  /\ files (snd (migrateOldHistoryFile (Join configDirOfAlice historyFileName) tornLegacyWorld))
     !! Join sshDirOfAlice historyFileName
     = Some (mkFile (Document legacyDocument) (octal 6 0 0)).
Proof.
  split.
  - apply (proj1 (proj2 (migration_never_loses_history
                           (Join configDirOfAlice historyFileName)
                           (snd (MkdirAll configDirOfAlice (octal 7 5 5) legacyWorld))
                           ltac:(discriminate)))
             (mkFile (Document legacyDocument) (octal 6 0 0)));
      vm_compute; reflexivity.
  - etrans.
    + exact (proj1 (proj1 (migration_never_loses_history
                             (Join configDirOfAlice historyFileName) tornLegacyWorld
                             ltac:(discriminate))
                      ltac:(vm_compute; discriminate))).
    + vm_compute. reflexivity.
Defined.

Lemma MkdirAll_ok (d : string) (perm : Z) (w : world) :
  fails w (SysMkdirAll d) = false ->
  let w1 := snd (MkdirAll d perm w) in
  files w1 = files w /\ is_Some (dirs w1 !! d) /\ fails w1 = fails w
  /\ sshDirectory w1 = sshDirectory w /\ sshmConfigDir w1 = sshmConfigDir w.
Proof.
  intros Hm. unfold MkdirAll. simpl. rewrite Hm.
  destruct (dirs w !! d) eqn:Ed; simpl; repeat split; try done;
    rewrite ?Ed, ?lookup_insert_eq; by eexists.
Qed.

Lemma NewHistoryManager_world (w : world) :
  fails w SysConfigDir = false -> fails w (SysMkdirAll (sshmConfigDir w)) = false ->
  snd (NewHistoryManager w) = afterMigration w.
Proof.
  intros Hc Hm. unfold NewHistoryManager, bind, GetSSHMConfigDir, ret, afterMigration. rewrite Hc.
  assert (Hmk : fst (MkdirAll (sshmConfigDir w) (octal 7 5 5) w) = None).
  { unfold MkdirAll. simpl. rewrite Hm. by destruct (dirs w !! _). }
  destruct (MkdirAll (sshmConfigDir w) (octal 7 5 5) w) as [mk w1]. simpl in Hmk. subst mk.
  simpl snd. fold (newPath w).
  destruct (migrateOldHistoryFile (newPath w) w1) as [merr w2]. simpl snd.
  unfold loadHistory, bind, ret. simpl historyPath.
  pose proof (ReadFile_world (newPath w) w2) as Hr.
  destruct (ReadFile (newPath w) w2) as [[d | e] w3]; simpl in Hr; subst w3; simpl.
  - destruct d as [doc | raw]; [| done]. simpl. by destruct (connections doc).
  - by destruct e.
Qed.

(** X11.  Opening the store where only the legacy file exists, with every
    call succeeding, loads the legacy history: the manager returned holds
    exactly the legacy document (its entries, or the [nil] map when the
    document's map is [null]), the document now lies at the new path, and
    the legacy file is gone. *)
Theorem NewHistoryManager_loads_legacy_history (w : world) (fo : file)
    (doc : ConnectionHistory) :
  (forall c : syscall, fails w c = false) ->
  files w !! newPath w = None ->
  files w !! oldPath w = Some fo -> data fo = Document doc ->
  fst (NewHistoryManager w) = inl (mkHistoryManager (newPath w) doc)
  /\ (exists f, files (snd (NewHistoryManager w)) !! newPath w = Some f
                /\ data f = Document doc)
  /\ files (snd (NewHistoryManager w)) !! oldPath w = None.
Proof.
  intros Hok Hnew Hold Hdoc.
  rewrite NewHistoryManager_outcome, (NewHistoryManager_world w) by apply Hok.
  rewrite !Hok. unfold afterMigration, loadOutcome.
  destruct (MkdirAll_ok (sshmConfigDir w) (octal 7 5 5) w (Hok _))
    as (Hfiles & Hdirs & Hfails & Hssh & Hcfg).
  set (w1 := snd (MkdirAll (sshmConfigDir w) (octal 7 5 5) w)) in *.
  assert (Hold1 : oldPath w1 = oldPath w) by (unfold oldPath; by rewrite Hssh).
  destruct (migrate_copies (newPath w) w1 fo) as (_ & Hp & Ho & _);
    rewrite ?Hold1, ?Hfiles, ?Hfails, ?Hok; try done.
  rewrite Hold1 in Ho.
  set (w2 := snd (migrateOldHistoryFile (newPath w) w1)) in *.
  assert (Hfails2 : fails w2 (SysReadFile (newPath w)) = false).
  { pose proof (migration_fails (newPath w) w1) as H. fold w2 in H. by rewrite H, Hfails. }
  unfold ReadFile. rewrite Hfails2, Hp. simpl. rewrite Hdoc.
  split; [| split; [| done]].
  - destruct doc as [[conns |]]; simpl; [| done].
    unfold mkConnectionHistory. by rewrite (right_id_L ∅ (∪)).
  - eexists. split; [done | by simpl].
Qed.

Lemma NewHistoryManager_loads_legacy_history_witness :
  fst (NewHistoryManager legacyWorld)
  = inl (mkHistoryManager (newPath legacyWorld) legacyDocument).
Proof.
  apply (proj1 (NewHistoryManager_loads_legacy_history legacyWorld
                  (mkFile (Document legacyDocument) (octal 6 0 0)) legacyDocument
                  ltac:(reflexivity) ltac:(vm_compute; reflexivity)
                  ltac:(vm_compute; reflexivity) ltac:(reflexivity))).
Defined.

End MoreOpenFacts.

(** ** The command-line parser and the history view: further properties *)
Module MoreParserFacts.
Import GoStrings GoStringsFacts History HistoryMore HistoryView CodecFacts ParserFacts
  MoreCodecFacts.

(** An option that the parser does not know: it starts with a dash, and is
    none of the tokens with a branch of their own. *)
Definition unknownOption (tok : string) : Prop :=
  HasPrefix tok "-" = true /\ HasPrefix tok "-p" = false
  /\ String.eqb tok "-i" = false /\ isConfigFlag tok = false.

Lemma unknownOption_not_dash_p (tok : string) :
  HasPrefix tok "-p" = false -> String.eqb tok "-p" = false.
Proof.
  intros H. destruct (String.eqb tok "-p") eqn:E; [| done].
  apply eqb_dash_p_prefix in E. congruence.
Qed.

Lemma parseLoop_unknownOption (conn : ManualConnection) (f v : string) (rest : list string) :
  unknownOption f -> HasPrefix v "-" = false ->
  parseLoop conn (f :: v :: rest) = parseLoop conn rest.
Proof.
  intros (Hd & Hp & Hi & Hc) Hv. rewrite parseLoop_cons.
  by rewrite (unknownOption_not_dash_p f Hp), Hp, Hi, Hc, Hd, Hv.
Qed.

(** X13.  An option the parser does not know swallows the token after it
    when that token does not start with a dash: the result is the same as
    if both were absent.  A host name in that place is lost, so an unknown
    option followed by a bare host name, and nothing else, is rejected. *)
Theorem ParseSSHArgs_unknown_option_swallows_value
    (currentUser : option string) (f v : string) (rest : list string) :
  unknownOption f -> HasPrefix v "-" = false ->
  ParseSSHArgs currentUser (f :: v :: rest) = ParseSSHArgs currentUser rest
  /\ ParseSSHArgs currentUser [f; v] = None.
Proof.
  intros Hf Hv.
  assert (Hgen : forall rest', ParseSSHArgs currentUser (f :: v :: rest')
                               = ParseSSHArgs currentUser rest').
  { intros rest'. unfold ParseSSHArgs. rewrite (parseLoop_unknownOption _ f v rest' Hf Hv).
    by destruct rest'. }
  split; [apply Hgen | by rewrite Hgen].
Qed.

Lemma ParseSSHArgs_unknown_option_swallows_value_witness :
  ParseSSHArgs (Some "alice") ["-v"; "example.com"] = None.
Proof.
  apply (proj2 (ParseSSHArgs_unknown_option_swallows_value (Some "alice") "-v" "example.com" []
                  ltac:(repeat split) eq_refl)).
Defined.

Lemma parseLoop_dashes_bounded (n : nat) :
  forall (args : list string) (conn conn' : ManualConnection),
    length args <= n ->
    Forall (fun a => HasPrefix a "-" = true) args ->
    parseLoop conn args = Some conn' -> Hostname conn' = Hostname conn.
Proof.
  induction n as [|n IH]; intros args conn conn' Hlen Hall.
  - destruct args; [by intros [= <-] | simpl in Hlen; lia].
  - destruct args as [|arg rest]; [by intros [= <-] |].
    apply Forall_cons in Hall as [Harg Hrest]. simpl in Hlen.
    assert (Hnext : forall c, Hostname c = Hostname conn ->
                              parseLoop c rest = Some conn' -> Hostname conn' = Hostname conn).
    { intros c <-. apply IH; [lia | done]. }
    assert (Hskip : forall c v rest', rest = v :: rest' -> Hostname c = Hostname conn ->
                      parseLoop c rest' = Some conn' -> Hostname conn' = Hostname conn).
    { intros c v rest' -> <-. apply Forall_cons in Hrest as [_ Hrest'].
      apply IH; [simpl in Hlen; lia | done]. }
    rewrite parseLoop_cons, Harg.
    destruct (String.eqb arg "-p").
    { destruct rest as [|v rest']; [by intros [= <-] | by apply (Hskip _ v rest')]. }
    destruct (HasPrefix arg "-p"); [by apply Hnext |].
    destruct (String.eqb arg "-i").
    { destruct rest as [|v rest']; [by intros [= <-] | by apply (Hskip _ v rest')]. }
    destruct (isConfigFlag arg); [done |].
    destruct rest as [|v rest']; [by intros [= <-] |].
    destruct (negb (HasPrefix v "-")); [by apply (Hskip _ v rest') | by apply Hnext].
Qed.

(** X14.  An argument list in which every token starts with a dash names no
    host: [ParseSSHArgs] rejects it, also when [IsManualSSHCommand] accepts
    it because one of the tokens starts with ["-p"]. *)
Theorem ParseSSHArgs_only_options (currentUser : option string) (args : list string) :
  Forall (fun a => HasPrefix a "-" = true) args ->
  ParseSSHArgs currentUser args = None
  /\ (Exists (fun a => HasPrefix a "-p" = true) args -> IsManualSSHCommand args = true).
Proof.
  intros Hall. split.
  - destruct (ParseSSHArgs currentUser args) as [conn|] eqn:E; [| done].
    apply ParseSSHArgs_Some in E as (_ & Hloop & Hhost).
    apply (parseLoop_dashes_bounded (length args) args _ conn (le_n _) Hall) in Hloop.
    by rewrite Hloop in Hhost.
  - intros Hex. apply Exists_exists in Hex as (tok & Hin & Hp).
    destruct args as [|a l]; [by apply elem_of_nil in Hin |].
    apply list_elem_of_In in Hin.
    apply (manualLoop_true (a :: l)). exists tok. split; [done | by right].
Qed.

Lemma ParseSSHArgs_only_options_witness :
  ParseSSHArgs (Some "alice") ["-p"; "-2222"; "-A"] = None
  /\ IsManualSSHCommand ["-p"; "-2222"; "-A"] = true.
Proof.
  destruct (ParseSSHArgs_only_options (Some "alice") ["-p"; "-2222"; "-A"]
              ltac:(repeat constructor)) as [H1 H2].
  split; [exact H1 |]. apply H2. apply Exists_cons_hd. reflexivity.
Defined.

End MoreParserFacts.

(** ** The history view *)
Module ViewFacts.
Import GoStrings GoStringsFacts History HistoryMore HistoryView StoreFacts CodecFacts
  ParserFacts MoreCodecFacts MoreParserFacts.

Lemma userOrDefault_not_empty (conn : ManualConnection) : userOrDefault conn <> EmptyString.
Proof.
  unfold userOrDefault. destruct (String.eqb (User conn) EmptyString) eqn:E; [done |].
  by apply String.eqb_neq in E.
Qed.

Lemma portOrDefault_not_empty (conn : ManualConnection) : portOrDefault conn <> EmptyString.
Proof.
  unfold portOrDefault. destruct (String.eqb (Port conn) EmptyString) eqn:E; [done |].
  by apply String.eqb_neq in E.
Qed.

Lemma prefix_dash_app (u rest : string) :
  u <> EmptyString -> HasPrefix (u +:+ rest) "-" = HasPrefix u "-".
Proof.
  unfold HasPrefix. destruct u as [|a u]; [done |]. intros _.
  change (String a u +:+ rest) with (String a (u +:+ rest)).
  rewrite !prefix_cons. destruct (ascii_dec "-" a); [| done].
  by destruct u, rest.
Qed.

Lemma splitN2_at (u h : string) :
  indexByte "@" u = None -> splitN2 "@" (u +:+ String "@" h) = Some (u, h).
Proof.
  intros Hu. unfold splitN2. rewrite (indexByte_app_sep "@" u h Hu).
  by rewrite slice_to_app, slice_from_S_app.
Qed.

Lemma parseLoop_user_at_host (conn : ManualConnection) (u h : string) :
  u <> EmptyString -> HasPrefix u "-" = false -> indexByte "@" u = None ->
  parseLoop conn [u +:+ String "@" h] = Some (withUserHost conn u h).
Proof.
  intros Hne Hdash Hu. rewrite parseLoop_cons.
  assert (Hd : HasPrefix (u +:+ String "@" h) "-" = false) by (by rewrite prefix_dash_app).
  destruct (bare_not_flag _ Hd) as (-> & -> & -> & ->). rewrite Hd.
  assert (Hc : containsByte "@" (u +:+ String "@" h) = true).
  { apply containsByte_true. by rewrite (indexByte_app_sep "@" u h Hu). }
  by rewrite Hc, (splitN2_at u h Hu).
Qed.

(** X15.  The [ssh] arguments that the history view builds for a manual
    entry name the connection that was recorded.  For a connection whose
    user holds no ['@'] and does not start with a dash, whose port holds no
    [':'] and whose host name is not empty, [connectToHistory] builds, from
    the entry's identifier, an argument list that [IsManualSSHCommand]
    accepts and that [ParseSSHArgs] parses back to the user, host name and
    port of the connection (defaults filled in). *)
Theorem connectArgs_parse_back (currentUser : option string) (configFile : string)
    (conn : ManualConnection) (entry : ConnectionInfo) :
  indexByte "@" (User conn) = None -> indexByte ":" (Port conn) = None ->
  Hostname conn <> EmptyString -> HasPrefix (userOrDefault conn) "-" = false ->
  HostName entry = generateManualHostID conn ->
  exists args,
    connectArgs configFile entry = Some args
    /\ IsManualSSHCommand args = true
    /\ ParseSSHArgs currentUser args
       = Some (mkManualConnection (userOrDefault conn) (Hostname conn) (portOrDefault conn)
                 EmptyString).
Proof.
  intros Hu Hp Hh Hdash Hid. unfold connectArgs.
  rewrite Hid, IsManualConnection_generate, (ParseManualConnectionID_generate conn Hu Hp).
  pose proof (userOrDefault_not_empty conn) as Hune.
  pose proof (portOrDefault_not_empty conn) as Hpne.
  pose proof (userOrDefault_no_at conn Hu) as Hu'.
  apply String.eqb_neq in Hune as Hune'. apply String.eqb_neq in Hpne as Hpne'.
  rewrite Hune', Hpne'. cbn [negb andb].
  apply String.eqb_neq in Hh as Hh'.
  assert (Htok : forall c, parseLoop c [userOrDefault conn +:+ "@" +:+ Hostname conn]
                           = Some (withUserHost c (userOrDefault conn) (Hostname conn))).
  { intros c. by apply parseLoop_user_at_host. }
  assert (Hman : manualLoop [userOrDefault conn +:+ "@" +:+ Hostname conn] = true).
  { apply manualLoop_true. eexists. split; [by left |]. left.
    apply containsByte_true.
    change (userOrDefault conn +:+ "@" +:+ Hostname conn)
      with (userOrDefault conn +:+ String "@" (Hostname conn)).
    by rewrite (indexByte_app_sep "@" _ _ Hu'). }
  destruct (String.eqb (portOrDefault conn) "22") eqn:E22.
  - apply String.eqb_eq in E22. eexists. split; [reflexivity |]. simpl app.
    split; [exact Hman |].
    unfold ParseSSHArgs. rewrite Htok. simpl. by rewrite Hh', E22.
  - eexists. split; [reflexivity |]. simpl app. split; [reflexivity |].
    unfold ParseSSHArgs.
    change (parseLoop ?c ("-p" :: portOrDefault conn :: ?l))
      with (parseLoop (withPort c (portOrDefault conn)) l).
    rewrite Htok. simpl. by rewrite Hh'.
Qed.

Lemma connectArgs_parse_back_witness :
  exists args,
    connectArgs "/home/alice/.ssh/config"
      (mkConnectionInfo "manual:guillaume@127.0.0.1:2222" 10 1 None) = Some args
    /\ IsManualSSHCommand args = true
    /\ ParseSSHArgs (Some "alice") args
       = Some (mkManualConnection "guillaume" "127.0.0.1" "2222" EmptyString).
Proof.
  apply (connectArgs_parse_back (Some "alice") "/home/alice/.ssh/config"
           (mkManualConnection "guillaume" "127.0.0.1" "2222" "~/.ssh/id_rsa")
           (mkConnectionInfo "manual:guillaume@127.0.0.1:2222" 10 1 None));
    [reflexivity | reflexivity | discriminate | reflexivity | reflexivity].
Defined.

(** X16.  The row of a manual entry shows what was recorded: for a
    connection whose user holds no ['@'] and whose port holds no [':'], the
    cells of the entry filed under its identifier are the star, the user,
    the host name and the port (defaults filled in), whatever the configured
    hosts are.  An identifier that [IsManualConnection] accepts but that
    does not decode gives four empty cells. *)
Theorem rowCells_manual (hostsMap : gmap string Config.SSHHost) (entry : ConnectionInfo) :
  (forall conn : ManualConnection,
      indexByte "@" (User conn) = None -> indexByte ":" (Port conn) = None ->
      HostName entry = generateManualHostID conn ->
      rowCells hostsMap entry
      = (star, userOrDefault conn, Hostname conn, portOrDefault conn))
  /\ (IsManualConnection (HostName entry) = true ->
      ParseManualConnectionID (HostName entry) = None ->
      rowCells hostsMap entry = (EmptyString, EmptyString, EmptyString, EmptyString)).
Proof.
  split.
  - intros conn Hu Hp Hid. unfold rowCells.
    by rewrite Hid, IsManualConnection_generate, (ParseManualConnectionID_generate conn Hu Hp).
  - intros Hm Hd. unfold rowCells. by rewrite Hm, Hd.
Qed.

Lemma rowCells_manual_witness :
  rowCells ∅ (mkConnectionInfo "manual:default@example.com:22" 10 1 None)
  = (star, "default", "example.com", "22")
  /\ rowCells ∅ (mkConnectionInfo "manual:hostname:22" 10 1 None)
     = (EmptyString, EmptyString, EmptyString, EmptyString).
Proof.
  split.
  - apply (proj1 (rowCells_manual ∅ (mkConnectionInfo "manual:default@example.com:22" 10 1 None))
             (mkManualConnection EmptyString "example.com" EmptyString EmptyString));
      reflexivity.
  - apply (proj2 (rowCells_manual ∅ (mkConnectionInfo "manual:hostname:22" 10 1 None)));
      reflexivity.
Defined.

(** X17.  The height of the history table.  For a terminal height and a
    row count that an [int] holds with room to spare, [calculateTableHeight]
    returns the number of rows plus 2 (the header and one spare line) when
    the rows fit in the space left, and otherwise that space plus 1; the
    space left is the terminal height minus 13, minus 3 more when an error
    is shown, and never less than 4.  So the result is at least 2, at most
    the number of rows plus 2, and at most the space left plus 1. *)
Theorem calculateTableHeight_bounds (height : Z) (hasError : bool) (rowCount : Z) :
  (0 <= rowCount <= maxInt - 2)%Z -> (minInt + 16 <= height <= maxInt)%Z ->
  let available := (height - 13 - (if hasError then 3 else 0))%Z in
  let space := Z.max 4 available in
  calculateTableHeight height hasError rowCount = (Z.min rowCount (space - 1) + 2)%Z
  /\ (2 <= calculateTableHeight height hasError rowCount <= rowCount + 2)%Z
  /\ (calculateTableHeight height hasError rowCount <= space + 1)%Z.
Proof.
  intros Hrows Hheight. cbv zeta.
  assert (Hcalc : calculateTableHeight height hasError rowCount
                  = (Z.min rowCount
                       (Z.max 4 (height - 13 - (if hasError then 3 else 0)) - 1) + 2)%Z).
  { unfold calculateTableHeight. cbv zeta.
    unfold minInt, maxInt in *.
    rewrite (wrap_in_range (height - 13)) by (unfold minInt, maxInt; lia).
    assert (Havail : (if hasError then wrap (height - 13 - 3) else (height - 13)%Z)
                     = (height - 13 - (if hasError then 3 else 0))%Z).
    { destruct hasError; [apply wrap_in_range; unfold minInt, maxInt; lia | lia]. }
    rewrite Havail.
    set (available := (height - 13 - (if hasError then 3 else 0))%Z).
    assert (Hav : (- 2 ^ 63 + 0 <= available <= 2 ^ 63 - 1)%Z).
    { unfold available. destruct hasError; lia. }
    assert (Hmax : (if (available <? 4)%Z then 4%Z else available) = Z.max 4 available).
    { destruct (Z.ltb_spec available 4); lia. }
    rewrite Hmax.
    rewrite (wrap_in_range (Z.max 4 available - 1)) by (unfold minInt, maxInt; lia).
    destruct (Z.leb_spec rowCount (Z.max 4 available - 1)).
    - rewrite (wrap_in_range (1 + rowCount)) by (unfold minInt, maxInt; lia).
      rewrite wrap_in_range by (unfold minInt, maxInt; lia). lia.
    - rewrite (wrap_in_range (1 + (Z.max 4 available - 1))) by (unfold minInt, maxInt; lia).
      rewrite wrap_in_range by (unfold minInt, maxInt; lia). lia. }
  rewrite Hcalc. split; [done |]. lia.
Qed.

Lemma calculateTableHeight_bounds_witness :
  calculateTableHeight 24 false 30 = 12%Z /\ calculateTableHeight 24 true 3 = 5%Z.
Proof.
  split.
  - rewrite (proj1 (calculateTableHeight_bounds 24 false 30
                      ltac:(unfold maxInt; lia) ltac:(unfold minInt, maxInt; lia))).
    reflexivity.
  - rewrite (proj1 (calculateTableHeight_bounds 24 true 3
                      ltac:(unfold maxInt; lia) ltac:(unfold minInt, maxInt; lia))).
    reflexivity.
Defined.

End ViewFacts.

(** ** The scripts: further properties *)
Module MoreShellFacts.
Import GoStrings GoStringsFacts Shell ShellMore ShellFacts.

(** [sed] writes a file without a line for the host as it reads it, but for
    the newline it may add at the end. *)
Lemma sedOutput_absent (T : tools) (host : string) (t : text) :
  Forall (fun l => sedHostLine T host l = false) (readLines t) ->
  sedOutput T host t
  = if String.eqb (unterminated t) EmptyString || negb (sedCompletesLastLine T) then t
    else complete (terminated t ++ [unterminated t]).
Proof.
  unfold readLines, sedOutput. cbv zeta. destruct t as [ls u]. simpl.
  destruct (String.eqb u EmptyString) eqn:Eu.
  - intros Habsent. apply String.eqb_eq in Eu. subst u. simpl.
    by rewrite sedDelete_absent.
  - intros Habsent. apply Forall_app in Habsent as [Hls Hu].
    apply Forall_cons in Hu as [Hu _].
    rewrite sedInRange_absent by done. rewrite Hu. simpl.
    rewrite sedDelete_absent by done. by destruct (sedCompletesLastLine T).
Qed.

Lemma sedOutput_absent_lines (T : tools) (host : string) (t : text) :
  Forall (fun l => sedHostLine T host l = false) (readLines t) ->
  readLines (sedOutput T host t) = readLines t.
Proof. intros H. rewrite readLines_sedOutput. by apply sedDelete_absent. Qed.

Section MoreScriptFacts.
Variable T : tools.




Lemma view_delete_partition (host : string) (inRange : bool) (lines : list string) :
  (forall l, sedHostLine T host l = true -> l <> EmptyString) ->
  (forall l, awkHostLine T host l = sedHostLine T host l) ->
  Permutation (awkRange (awkHostLine T) host inRange lines
               ++ sedDelete (sedHostLine T) host inRange lines) lines.
Proof.
  intros Hhost Hsame. revert inRange.
  induction lines as [|l lines IH]; intros inRange; simpl; [done |].
  destruct inRange.
  - destruct (String.eqb l EmptyString); simpl; by rewrite IH.
  - rewrite Hsame. destruct (sedHostLine T host l) eqn:E.
    + apply Hhost, String.eqb_neq in E. rewrite E. simpl. by rewrite IH.
    + rewrite <- Permutation_middle. by rewrite IH.
Qed.

Lemma dropTrailingEmpty_split (lines : list string) :
  exists blanks, lines = (dropTrailingEmpty lines ++ blanks)%list
                 /\ Forall (fun l => l = EmptyString) blanks.
Proof.
  induction lines as [|l lines (blanks & Hl & Hb)]; simpl; [by exists [] |].
  destruct (dropTrailingEmpty lines) as [|l' ls'] eqn:E.
  - destruct (String.eqb l EmptyString) eqn:El.
    + apply String.eqb_eq in El. subst l. exists (EmptyString :: blanks).
      split; [by rewrite Hl | by constructor].
    + exists blanks. split; [by rewrite Hl | done].
  - exists blanks. split; [by rewrite Hl | done].
Qed.


(** *** [sshm_add] *)

Lemma touch_then_append (config_file : string) (lines : list string) (fs : gmap string text) :
  appendTo config_file lines (touch config_file fs)
  = <[config_file := appendLines (default emptyFile (fs !! config_file)) lines]> fs.
Proof.
  unfold appendTo, touch. destruct (fs !! config_file) as [c|] eqn:E.
  - by rewrite E.
  - rewrite lookup_insert_eq. simpl. by rewrite insert_insert_eq.
Qed.

Lemma sshm_add_success (config_file host typed_host : string) (a : answers)
    (fs : gmap string text) :
  host <> EmptyString -> new_hostname a <> EmptyString ->
  existsb (grepHostLine T host) (readLines (default emptyFile (fs !! config_file))) = false ->
  sshm_add T config_file host typed_host (Answered a) fs
  = (Exit0, <[config_file := appendLines (default emptyFile (fs !! config_file))
                               (newBlock (portIsNot22 T) host a)]> fs).
Proof.
  intros Hh Hn Hg. unfold sshm_add.
  apply String.eqb_neq in Hh. apply String.eqb_neq in Hn. rewrite Hh. rewrite Hh, Hg, Hn.
  by rewrite touch_then_append.
Qed.

(** X23.  [sshm_add] only ever appends.  When [find] fails on the
    directory of the keys the script ends before anything else, and no
    file is changed.  When the file already has a line that matches the
    host's address the command ends with an error and no file is changed.
    When it succeeds, the prompts have been answered and the configuration
    file holds its old bytes followed by the new block: the first [echo]
    ends the last line of the file when it had no newline, and otherwise
    writes an empty line; the [Host] line follows; every other file is as
    it was.  Whenever the command does not end normally, no file is
    changed. *)
Theorem sshm_add_appends (config_file host typed_host : string) (p : prompts)
    (fs : gmap string text) :
  let r := sshm_add T config_file host typed_host p fs in
  let name := if String.eqb host EmptyString then typed_host else host in
  let old := default emptyFile (fs !! config_file) in
  (p = FindFails -> r = (Aborted, fs))
  /\ (existsb (grepHostLine T name) (readLines old) = true ->
      name <> EmptyString -> p <> FindFails -> (p = EndOfInput -> host <> EmptyString) ->
      r = (Exit1 (msgExists name), fs))
  /\ (fst r = Exit0 ->
      exists a block,
        p = Answered a
        /\ newBlock (portIsNot22 T) name a = EmptyString :: ("Host " +:+ name) :: block
        /\ snd r !! config_file
           = Some (complete (terminated old ++ unterminated old :: ("Host " +:+ name) :: block))
        /\ forall f, f <> config_file -> snd r !! f = fs !! f)
  /\ (fst r <> Exit0 -> snd r = fs).
Proof.
  cbv zeta. unfold sshm_add. destruct p as [| | a].
  - split; [done |]. split; [done |]. by split.
  - split; [done |]. destruct (String.eqb host EmptyString) eqn:Eh.
    { apply String.eqb_eq in Eh. split; [by intros _ _ _ Hh; destruct (Hh eq_refl) | by split]. }
    destruct (existsb (grepHostLine T host)
                (readLines (default emptyFile (fs !! config_file)))); by repeat split.
  - split; [done |].
    set (name := if String.eqb host EmptyString then typed_host else host).
    destruct (String.eqb name EmptyString) eqn:En.
    { apply String.eqb_eq in En. split; [by intros _ ? | by split]. }
    destruct (existsb (grepHostLine T name)
                (readLines (default emptyFile (fs !! config_file)))) eqn:Eg.
    { split; [done | by split]. }
    destruct (String.eqb (new_hostname a) EmptyString) eqn:Ea.
    { split; [done | by split]. }
    split; [done |]. split; [| done]. intros _. cbn [fst snd].
    rewrite touch_then_append. exists a. eexists. split; [done |].
    split; [reflexivity |]. split.
    + rewrite lookup_insert_eq. unfold newBlock, appendLines. cbn [app].
      by rewrite append_empty.
    + intros f Hf. by rewrite lookup_insert_ne.
Qed.


End MoreScriptFacts.

Section UnclosedBlock.
Variable sedHostLine : string -> string -> bool.

(** X20.  A block that no empty line closes takes the rest of the file with
    it: when a line matches the host's address and no empty line follows
    it, [sed] deletes everything from that line to the end, the blocks of
    other hosts included, and what [sshm_delete] can install is the part of
    the file before that line. *)
Theorem sedDelete_unclosed_block (host : string) (before after : list string) (l : string) :
  Forall (fun x => sedHostLine host x = false) before ->
  sedHostLine host l = true ->
  Forall (fun x => x <> EmptyString) after ->
  sedDelete sedHostLine host false (before ++ l :: after) = before.
Proof.
  intros Hb Hl Ha. rewrite (sedDelete_app_absent sedHostLine host before _ Hb). simpl.
  by rewrite Hl, (sedDelete_open_range sedHostLine host after Ha), app_nil_r.
Qed.

End UnclosedBlock.

(** The examples: a file whose two blocks no empty line separates, and the
    file of one host with a last line that no newline ends. *)
Definition crampedHosts : list string :=
  ["Host web"; "    HostName 10.0.0.1"; "Host db"; "    HostName 10.0.0.2"].

Definition oneHostUnended : text :=
  mkText ["Host web"; "    HostName 10.0.0.1"] "    User root".



Lemma sedDelete_unclosed_block_witness :
  sedDelete plainHostLine "web" false crampedHosts = [].
Proof.
  apply (sedDelete_unclosed_block plainHostLine "web" []
           ["    HostName 10.0.0.1"; "Host db"; "    HostName 10.0.0.2"] "Host web");
    [constructor | reflexivity | repeat constructor; discriminate].
Defined.



Lemma sshm_add_appends_witness :
  sshm_add (plainTools true) configOfAlice "web" EmptyString (Answered answersOfAlice)
    {[ configOfAlice := complete oneHost ]}
  = (Exit1 (msgExists "web"), {[ configOfAlice := complete oneHost ]})
  /\ exists block,
       snd (sshm_add (plainTools true) configOfAlice "mail" EmptyString
              (Answered answersOfAlice) {[ configOfAlice := oneHostUnended ]})
       !! configOfAlice
       = Some (complete (["Host web"; "    HostName 10.0.0.1"; "    User root"; "Host mail"]
                         ++ block)).
Proof.
  split.
  - apply (proj1 (proj2 (sshm_add_appends (plainTools true) configOfAlice "web" EmptyString
                           (Answered answersOfAlice)
                           {[ configOfAlice := complete oneHost ]})));
      [reflexivity | discriminate | discriminate | discriminate].
  - pose proof (sshm_add_appends (plainTools true) configOfAlice "mail" EmptyString
                  (Answered answersOfAlice) {[ configOfAlice := oneHostUnended ]}) as H.
    cbv zeta in H. destruct H as (_ & _ & H & _).
    destruct (H ltac:(vm_compute; reflexivity)) as (a & block & _ & _ & H' & _).
    exists block. exact H'.
Defined.


End MoreShellFacts.

(** ** Contexts *)
Module ContextFacts.
Import GoStrings GoStringsFacts Shell ShellMore.

Definition newline : ascii := ascii_of_nat 10.

Lemma linesOf_one_line (s : string) : indexByte newline s = None -> linesOf s = [s].
Proof.
  induction s as [|c s IH]; simpl; [done |].
  fold newline. destruct (Ascii.eqb c newline); [done |].
  destruct (indexByte newline s); [done |]. intros _. by rewrite IH.
Qed.

Lemma captured_one_line (s : string) : captured [s] = s.
Proof.
  unfold captured. simpl. destruct (String.eqb s EmptyString) eqn:E; [| done].
  apply String.eqb_eq in E. by subst.
Qed.

Lemma indexByte_app_None (c : ascii) (a b : string) :
  indexByte c a = None -> indexByte c b = None -> indexByte c (a +:+ b) = None.
Proof.
  intros Ha Hb. induction a as [|x a IH]; simpl in *; [done |].
  destruct (Ascii.eqb x c); [done |].
  destruct (indexByte c a); [done |]. by rewrite IH.
Qed.

Section Commands.
Variable HOME : string.

Lemma contextPath_one_line (context : string) :
  indexByte newline HOME = None -> indexByte newline context = None ->
  indexByte newline (contextPath HOME context) = None.
Proof.
  intros Hh Hc. unfold contextPath, CONFIG_DIR.
  repeat apply indexByte_app_None; done.
Qed.

Lemma DEFAULT_CONFIG_one_line :
  indexByte newline HOME = None -> indexByte newline (DEFAULT_CONFIG HOME) = None.
Proof. intros Hh. unfold DEFAULT_CONFIG. by apply indexByte_app_None. Qed.

(** A context name that names a file of the configuration directory: it
    holds no ['/'] and is neither ["."] nor [".."].  For these names the
    text of the path [$CONFIG_DIR/<name>] tells the files apart. *)
Definition plainName (context : string) : Prop :=
  indexByte "/" context = None /\ context <> "." /\ context <> "..".

(** X25.  A context that has been created can be selected, and the
    selection outlives the session.  For a plain file name that is neither
    empty nor ["default"] and has no file yet (no newline in the name or in
    the home directory): [context_create] ends normally and leaves an empty
    file with permissions [0600]; [context_use] of that name then ends
    normally and makes the file the current configuration; and a script
    started afterwards without [SSHM_CONTEXT] in its environment starts on
    that file. *)
Theorem context_create_use_persists (context : string) (s : session) :
  plainName context ->
  context <> EmptyString -> context <> "default" ->
  isFile (sfiles s) (contextPath HOME context) = false ->
  indexByte newline HOME = None -> indexByte newline context = None ->
  let created := context_create HOME context s in
  let used := context_use HOME context (snd created) in
  let restarted := startSession HOME None (sfiles (snd used)) (sperms (snd used)) in
  fst created = Exit0
  /\ sfiles (snd created) !! contextPath HOME context = Some []
  /\ sperms (snd created) !! contextPath HOME context = Some (History.octal 6 0 0)
  /\ fst used = Exit0
  /\ SSHM_CONTEXT (snd used) = contextPath HOME context
  /\ CONFIG_FILE (snd used) = contextPath HOME context
  /\ SSHM_CONTEXT restarted = contextPath HOME context
  /\ CONFIG_FILE restarted = contextPath HOME context.
Proof.
  intros _ Hne Hnd Hfile Hh Hc. cbv zeta.
  apply String.eqb_neq in Hne. apply String.eqb_neq in Hnd.
  set (s1 := mkSession (touch (contextPath HOME context) (sfiles s))
               (<[contextPath HOME context := History.octal 6 0 0]> (sperms s))
               (SSHM_CONTEXT s) (CONFIG_FILE s)).
  assert (Hcreated : context_create HOME context s = (Exit0, s1)).
  { unfold context_create. by rewrite Hne, Hfile. }
  assert (Htouch : sfiles s1 !! contextPath HOME context = Some []).
  { simpl. unfold touch. unfold isFile in Hfile.
    destruct (sfiles s !! contextPath HOME context); [done | apply lookup_insert_eq]. }
  set (s2 := mkSession
               (<[CURRENT_CONTEXT_FILE HOME := linesOf (contextPath HOME context)]> (sfiles s1))
               (sperms s1) (contextPath HOME context) (contextPath HOME context)).
  assert (Hused : context_use HOME context s1 = (Exit0, s2)).
  { unfold context_use. rewrite Hne, Hnd. unfold isFile. by rewrite Htouch. }
  rewrite Hcreated. cbn [fst snd]. rewrite Hused. cbn [fst snd].
  split; [done |]. split; [done |]. split; [apply lookup_insert_eq |].
  split; [done |]. split; [done |]. split; [done |].
  unfold startSession. cbn [sfiles s2]. rewrite lookup_insert_eq.
  rewrite (linesOf_one_line _ (contextPath_one_line context Hh Hc)). cbv iota beta.
  by rewrite captured_one_line.
Qed.

(** The current context is the default configuration, or the file of a
    context of the configuration directory, which exists. *)
Definition selectionValid (s : session) : Prop :=
  SSHM_CONTEXT s = DEFAULT_CONFIG HOME
  \/ exists current : string,
       plainName current /\ SSHM_CONTEXT s = contextPath HOME current
       /\ isFile (sfiles s) (contextPath HOME current) = true.

Lemma isFile_insert (fs : gmap string (list string)) (f g : string) (c : list string) :
  isFile fs g = true -> isFile (<[f := c]> fs) g = true.
Proof.
  unfold isFile. destruct (decide (f = g)) as [-> | Hne].
  - by rewrite lookup_insert_eq.
  - by rewrite lookup_insert_ne.
Qed.

(** X26.  The context commands never leave the session on a context that
    does not exist: if the current context is the default configuration or
    the existing file of a context, it still is after [context_use],
    [context_create] or [context_delete] of any plain file name, whether
    they succeed or not; deleting the current context puts the session back
    on the default configuration; and [CONFIG_FILE] keeps following
    [SSHM_CONTEXT]. *)
Theorem context_commands_keep_selection_valid (context : string) (s : session) :
  plainName context ->
  selectionValid s -> CONFIG_FILE s = SSHM_CONTEXT s ->
  (selectionValid (snd (context_use HOME context s))
   /\ CONFIG_FILE (snd (context_use HOME context s))
      = SSHM_CONTEXT (snd (context_use HOME context s)))
  /\ (selectionValid (snd (context_create HOME context s))
      /\ CONFIG_FILE (snd (context_create HOME context s))
         = SSHM_CONTEXT (snd (context_create HOME context s)))
  /\ (selectionValid (snd (context_delete HOME context s))
      /\ CONFIG_FILE (snd (context_delete HOME context s))
         = SSHM_CONTEXT (snd (context_delete HOME context s)))
  /\ (fst (context_delete HOME context s) = Exit0 ->
      SSHM_CONTEXT s = contextPath HOME context ->
      SSHM_CONTEXT (snd (context_delete HOME context s)) = DEFAULT_CONFIG HOME).
Proof.
  intros Hplain Hvalid Hcfg. unfold selectionValid in *.
  split; [| split; [| split]].
  - unfold context_use.
    destruct (String.eqb context EmptyString); [done |].
    destruct (String.eqb context "default"); [split; [by left | done] |].
    destruct (isFile (sfiles s) (contextPath HOME context)) eqn:E; [| done].
    simpl. split; [| done]. right. exists context.
    split; [done |]. split; [done |]. by apply isFile_insert.
  - unfold context_create.
    destruct (String.eqb context EmptyString); [done |].
    destruct (isFile (sfiles s) (contextPath HOME context)) eqn:E; [done |].
    simpl. split; [| done]. destruct Hvalid as [Hd | (c & Hc & Hcur & Hf)]; [by left | right].
    exists c. split; [done |]. split; [done |].
    unfold touch. destruct (sfiles s !! contextPath HOME context); [done |].
    by apply isFile_insert.
  - unfold context_delete.
    destruct (String.eqb context EmptyString); [done |].
    destruct (isFile (sfiles s) (contextPath HOME context)) eqn:E; [| done].
    simpl. destruct (String.eqb (SSHM_CONTEXT s) (contextPath HOME context)) eqn:Ec.
    + split; [by left | done].
    + simpl. split; [| done]. destruct Hvalid as [Hd | (c & Hc & Hcur & Hf)]; [by left | right].
      apply String.eqb_neq in Ec. exists c. split; [done |]. split; [done |].
      unfold isFile, rm_f in *. rewrite lookup_delete_ne; [done |]. congruence.
  - unfold context_delete.
    destruct (String.eqb context EmptyString); [done |].
    destruct (isFile (sfiles s) (contextPath HOME context)) eqn:E; [| done].
    simpl. intros _ Hcur. apply String.eqb_eq in Hcur. by rewrite Hcur.
Qed.

End Commands.

Definition sessionOfAlice : session :=
  startSession "/home/alice" None ∅ ∅.

Lemma plainName_work : plainName "work".
Proof. split; [reflexivity |]. split; discriminate. Defined.

Lemma context_create_use_persists_witness :
  let used := context_use "/home/alice" "work"
                (snd (context_create "/home/alice" "work" sessionOfAlice)) in
  SSHM_CONTEXT (startSession "/home/alice" None (sfiles (snd used)) (sperms (snd used)))
  = "/home/alice/.config/sshm/work".
Proof.
  cbv zeta.
  destruct (context_create_use_persists "/home/alice" "work" sessionOfAlice
              plainName_work
              ltac:(discriminate) ltac:(discriminate) ltac:(reflexivity)
              ltac:(reflexivity) ltac:(reflexivity)) as (_ & _ & _ & _ & _ & _ & H & _).
  exact H.
Defined.

Lemma context_commands_keep_selection_valid_witness :
  let used := snd (context_use "/home/alice" "work"
                     (snd (context_create "/home/alice" "work" sessionOfAlice))) in
  SSHM_CONTEXT (snd (context_delete "/home/alice" "work" used)) = "/home/alice/.ssh/config".
Proof.
  cbv zeta.
  apply (proj2 (proj2 (proj2
           (context_commands_keep_selection_valid "/home/alice" "work"
              (snd (context_use "/home/alice" "work"
                      (snd (context_create "/home/alice" "work" sessionOfAlice))))
              plainName_work
              ltac:(right; exists "work"; split; [exact plainName_work | split; reflexivity])
              ltac:(reflexivity)))));
    reflexivity.
Defined.

End ContextFacts.

(** ** The focus of the edit form *)
Module EditFormFacts.
Import History StoreFacts EditForm.

(** The position of the focus counted over all fields, the host inputs
    first. *)
Definition globalIndex (m : editFormModel) : Z :=
  if (focusArea m =? focusAreaProperties)%Z then (len (hostInputs m) + focused m)%Z
  else focused m.

Definition totalFields (m : editFormModel) : Z := (len (hostInputs m) + len (inputs m))%Z.

(** The focus is on a field that exists (and the fields can be counted in
    an [int]). *)
Definition focusValid (m : editFormModel) : Prop :=
  (totalFields m < maxInt)%Z
  /\ ((focusArea m = focusAreaHosts /\ (0 <= focused m < len (hostInputs m))%Z)
      \/ (focusArea m = focusAreaProperties /\ (0 <= focused m < len (inputs m))%Z)).

(** Of the inputs of a list, the one at [pos] has the focus and no other. *)
Definition focusOnlyAt (pos : option nat) (l : list input) : Prop :=
  forall (j : nat) (x : input), l !! j = Some x -> hasFocus x = bool_decide (pos = Some j).

(** The position of the focus within each of the two lists. *)
Definition hostFocus (m : editFormModel) : option nat :=
  if (focusArea m =? focusAreaHosts)%Z then Some (Z.to_nat (focused m)) else None.

Definition propertyFocus (m : editFormModel) : option nat :=
  if (focusArea m =? focusAreaHosts)%Z then None else Some (Z.to_nat (focused m)).

Lemma len_nonneg {A} (l : list A) : (0 <= len l)%Z.
Proof. unfold len. lia. Qed.

Lemma len_map_Blur (l : list input) : len (map Blur l) = len l.
Proof. unfold len. by rewrite length_map. Qed.

Lemma wrap_small (z : Z) : (- 1 <= z <= maxInt)%Z -> wrap z = z.
Proof. intros H. apply wrap_in_range. unfold minInt, maxInt in *. lia. Qed.

Lemma Blur_all (l : list input) :
  map value (map Blur l) = map value l /\ focusOnlyAt None (map Blur l).
Proof.
  split.
  - rewrite map_map. by apply map_ext.
  - intros j x Hj. rewrite list_lookup_fmap in Hj.
    destruct (l !! j); [| done]. injection Hj as <-. done.
Qed.

Lemma updateAt_Focus_Blur (i : Z) (l : list input) :
  (0 <= i < len l)%Z ->
  exists l', updateAt Focus i (map Blur l) = Some l'
             /\ map value l' = map value l
             /\ length l' = length l
             /\ focusOnlyAt (Some (Z.to_nat i)) l'.
Proof.
  intros [H0 Hlt]. unfold updateAt.
  destruct (Z.ltb_spec i 0); [lia |].
  assert (Hn : (Z.to_nat i < length l)%nat) by (unfold len in Hlt; lia).
  destruct (lookup_lt_is_Some_2 (map Blur l) (Z.to_nat i)) as [x Hx].
  { by rewrite length_map. }
  rewrite Hx. eexists. split; [done |]. split; [| split].
  - rewrite <- (proj1 (Blur_all l)).
    apply list_eq. intros j. rewrite !(list_lookup_fmap value).
    destruct (decide (j = Z.to_nat i)) as [-> | Hne].
    + rewrite list_lookup_insert_eq by (by rewrite length_map). by rewrite Hx.
    + by rewrite list_lookup_insert_ne.
  - by rewrite length_insert, length_map.
  - intros j y Hj. destruct (decide (j = Z.to_nat i)) as [-> | Hne].
    + rewrite list_lookup_insert_eq in Hj by (by rewrite length_map).
      injection Hj as <-. simpl. by rewrite bool_decide_eq_true_2.
    + rewrite list_lookup_insert_ne in Hj by done.
      rewrite (proj2 (Blur_all l) j y Hj).
      rewrite !bool_decide_eq_false_2; [done | congruence | done].
Qed.

(** [updateFocus] on a valid position: the values stay, and the focus is on
    the field at that position and on no other. *)
Lemma updateFocus_valid (m : editFormModel) :
  focusValid m ->
  exists m', updateFocus m = Some m'
             /\ focusArea m' = focusArea m /\ focused m' = focused m
             /\ map value (hostInputs m') = map value (hostInputs m)
             /\ map value (inputs m') = map value (inputs m)
             /\ focusOnlyAt (hostFocus m') (hostInputs m')
             /\ focusOnlyAt (propertyFocus m') (inputs m').
Proof.
  intros [_ [[Ha Hf] | [Ha Hf]]]; unfold updateFocus, hostFocus, propertyFocus;
    rewrite Ha; simpl; rewrite len_map_Blur.
  - destruct (Z.ltb_spec (focused m) (len (hostInputs m))); [| lia].
    destruct (updateAt_Focus_Blur (focused m) (hostInputs m) Hf) as (l' & -> & Hv & _ & Hfoc).
    eexists. split; [done |]. simpl.
    repeat split; try done; apply Blur_all.
  - destruct (Z.ltb_spec (focused m) (len (inputs m))); [| lia].
    destruct (updateAt_Focus_Blur (focused m) (inputs m) Hf) as (l' & -> & Hv & _ & Hfoc).
    eexists. split; [done |]. simpl.
    repeat split; try done; apply Blur_all.
Qed.

Lemma updateFocus_lengths (m m' : editFormModel) :
  updateFocus m = Some m' ->
  map value (hostInputs m') = map value (hostInputs m) ->
  map value (inputs m') = map value (inputs m) ->
  len (hostInputs m') = len (hostInputs m) /\ len (inputs m') = len (inputs m).
Proof.
  intros _ Hh Hp. unfold len.
  apply (f_equal (@length string)) in Hh, Hp. rewrite !length_map in Hh, Hp. lia.
Qed.

(** The field the focus moves to: one further, or one back, around the
    ends. *)
Definition isBack (s : string) : bool := String.eqb s "up" || String.eqb s "shift+tab".

Definition nextIndex (s : string) (m : editFormModel) : Z :=
  if isBack s then (if (globalIndex m =? 0)%Z then totalFields m - 1 else globalIndex m - 1)%Z
  else (if (globalIndex m =? totalFields m - 1)%Z then 0 else globalIndex m + 1)%Z.

Definition placed (m : editFormModel) (g : Z) : editFormModel :=
  if (g <? len (hostInputs m))%Z
  then mkEditForm (hostInputs m) (inputs m) focusAreaHosts g
  else mkEditForm (hostInputs m) (inputs m) focusAreaProperties (g - len (hostInputs m)).

Lemma globalIndex_range (m : editFormModel) :
  focusValid m -> (0 <= globalIndex m < totalFields m)%Z /\ (totalFields m < maxInt)%Z.
Proof.
  intros [Ht [[Ha Hf] | [Ha Hf]]]; unfold globalIndex, totalFields in *; rewrite Ha; simpl;
    pose proof (len_nonneg (hostInputs m)); pose proof (len_nonneg (inputs m)); lia.
Qed.

Lemma placed_valid (m : editFormModel) (g : Z) :
  (totalFields m < maxInt)%Z -> (0 <= g < totalFields m)%Z ->
  focusValid (placed m g) /\ globalIndex (placed m g) = g.
Proof.
  intros Ht Hg. unfold placed, focusValid, globalIndex, totalFields in *.
  destruct (Z.ltb_spec g (len (hostInputs m))); simpl.
  - split; [split; [done | left; split; [done | lia]] | done].
  - split; [split; [done | right; split; [done | lia]] | lia].
Qed.

Lemma navigate_step (s : string) (m : editFormModel) :
  focusValid m ->
  navigate s m
  = if String.eqb s "enter" && (globalIndex m =? totalFields m - 1)%Z then Submit
    else Moved (updateFocus (placed m (nextIndex s m))).
Proof.
  intros Hv. destruct (globalIndex_range m Hv) as [Hg Ht].
  pose proof (len_nonneg (hostInputs m)) as Hh. pose proof (len_nonneg (inputs m)) as Hp.
  unfold navigate. cbv zeta. fold (totalFields m).
  rewrite (wrap_small (totalFields m)) by lia.
  assert (Hgi : (if (focusArea m =? focusAreaProperties)%Z
                 then wrap (len (hostInputs m) + focused m) else focused m) = globalIndex m).
  { unfold globalIndex. destruct (focusArea m =? focusAreaProperties)%Z eqn:E; [| done].
    apply wrap_small. revert Hg. unfold globalIndex. rewrite E. lia. }
  rewrite Hgi. rewrite (wrap_small (totalFields m - 1)) by lia.
  destruct (String.eqb s "enter" && (globalIndex m =? totalFields m - 1)%Z); [done |].
  fold (isBack s). unfold nextIndex, placed.
  destruct (isBack s).
  - rewrite (wrap_small (globalIndex m - 1)) by lia.
    destruct (Z.leb_spec (totalFields m) (globalIndex m - 1)); [lia |].
    destruct (Z.eqb_spec (globalIndex m) 0) as [E0 | E0].
    + destruct (Z.ltb_spec (globalIndex m - 1) 0); [| lia].
      destruct (Z.ltb_spec (totalFields m - 1) (len (hostInputs m))); [done |].
      by rewrite wrap_small by (unfold totalFields in *; lia).
    + destruct (Z.ltb_spec (globalIndex m - 1) 0); [lia |].
      destruct (Z.ltb_spec (globalIndex m - 1) (len (hostInputs m))); [done |].
      by rewrite wrap_small by (unfold totalFields in *; lia).
  - rewrite (wrap_small (globalIndex m + 1)) by lia.
    destruct (Z.eqb_spec (globalIndex m) (totalFields m - 1)) as [E0 | E0].
    + destruct (Z.leb_spec (totalFields m) (globalIndex m + 1)); [| lia].
      destruct (Z.ltb_spec 0 (len (hostInputs m))); [done |].
      by rewrite wrap_small by (unfold totalFields in *; lia).
    + destruct (Z.leb_spec (totalFields m) (globalIndex m + 1)); [lia |].
      destruct (Z.ltb_spec (globalIndex m + 1) 0); [lia |].
      destruct (Z.ltb_spec (globalIndex m + 1) (len (hostInputs m))); [done |].
      by rewrite wrap_small by (unfold totalFields in *; lia).
Qed.

(** The flags of the inputs show the focus: the input the model points at
    has it, and no other input of the form. *)
Definition focusShown (m : editFormModel) : Prop :=
  focusOnlyAt (hostFocus m) (hostInputs m) /\ focusOnlyAt (propertyFocus m) (inputs m).

(** A check of [focusOnlyAt] that evaluates. *)
Fixpoint focusFrom (k : nat) (pos : option nat) (l : list input) : bool :=
  match l with
  | [] => true
  | x :: l' => Bool.eqb (hasFocus x) (bool_decide (pos = Some k)) && focusFrom (S k) pos l'
  end.

Lemma focusFrom_sound (pos : option nat) (l : list input) (k : nat) :
  focusFrom k pos l = true ->
  forall (j : nat) (x : input), l !! j = Some x -> hasFocus x = bool_decide (pos = Some (k + j)%nat).
Proof.
  revert k. induction l as [| y l IH]; intros k H j x Hj; [done |].
  simpl in H. apply andb_true_iff in H as [Hy Hl].
  destruct j as [| j]; simpl in Hj.
  - injection Hj as <-. apply Bool.eqb_prop in Hy. by rewrite Nat.add_0_r.
  - rewrite <- Nat.add_succ_comm. by apply IH.
Qed.

Lemma focusShown_checked (m : editFormModel) :
  focusFrom 0 (hostFocus m) (hostInputs m) && focusFrom 0 (propertyFocus m) (inputs m) = true ->
  focusShown m.
Proof.
  intros H. apply andb_true_iff in H as [Hh Hp].
  split; intros j x Hj; [apply (focusFrom_sound _ _ 0 Hh j x Hj) | apply (focusFrom_sound _ _ 0 Hp j x Hj)].
Qed.

Lemma map_value_length (l l' : list input) : map value l' = map value l -> len l' = len l.
Proof. intros H. apply (f_equal (@length string)) in H. rewrite !length_map in H. unfold len. lia. Qed.

Lemma focusValid_transfer (a b : editFormModel) :
  focusValid a ->
  focusArea b = focusArea a -> focused b = focused a ->
  map value (hostInputs b) = map value (hostInputs a) ->
  map value (inputs b) = map value (inputs a) ->
  focusValid b /\ globalIndex b = globalIndex a /\ totalFields b = totalFields a
  /\ len (hostInputs b) = len (hostInputs a).
Proof.
  intros Hv Ha Hf Hh Hp.
  apply map_value_length in Hh, Hp.
  unfold focusValid, globalIndex, totalFields in *. rewrite Ha, Hf, Hh, Hp. done.
Qed.

Lemma placed_lists (m : editFormModel) (g : Z) :
  hostInputs (placed m g) = hostInputs m /\ inputs (placed m g) = inputs m.
Proof. unfold placed. by destruct (g <? len (hostInputs m))%Z. Qed.

Lemma nextIndex_range (s : string) (m : editFormModel) :
  (0 <= globalIndex m < totalFields m)%Z -> (0 <= nextIndex s m < totalFields m)%Z.
Proof.
  intros H. unfold nextIndex.
  destruct (isBack s);
    [destruct (Z.eqb_spec (globalIndex m) 0) | destruct (Z.eqb_spec (globalIndex m) (totalFields m - 1))];
    lia.
Qed.

(** A key that does not submit moves the focus to the next field. *)
Lemma navigate_moved (s : string) (m : editFormModel) :
  focusValid m ->
  String.eqb s "enter" && (globalIndex m =? totalFields m - 1)%Z = false ->
  exists m', navigate s m = Moved (Some m')
             /\ focusValid m' /\ globalIndex m' = nextIndex s m
             /\ totalFields m' = totalFields m
             /\ len (hostInputs m') = len (hostInputs m)
             /\ map value (hostInputs m') = map value (hostInputs m)
             /\ map value (inputs m') = map value (inputs m)
             /\ focusShown m'.
Proof.
  intros Hv Hc. rewrite (navigate_step s m Hv), Hc.
  destruct (globalIndex_range m Hv) as [Hg Ht].
  pose proof (nextIndex_range s m Hg) as Hn.
  destruct (placed_valid m (nextIndex s m) Ht Hn) as [Hpv Hpg].
  destruct (placed_lists m (nextIndex s m)) as [Eh Ep].
  destruct (updateFocus_valid _ Hpv) as (m' & Hm' & Ha & Hf & Hh & Hp & Hfh & Hfp).
  destruct (focusValid_transfer _ m' Hpv Ha Hf Hh Hp) as (Hv' & Hg' & Ht' & Hl').
  exists m'. rewrite Hm'. split; [done |]. split; [done |].
  split; [by rewrite Hg' |].
  split; [rewrite Ht'; unfold totalFields; by rewrite Eh, Ep |].
  split; [by rewrite Hl', Eh |].
  split; [by rewrite Hh, Eh |].
  split; [by rewrite Hp, Ep |].
  by split.
Qed.

Lemma globalIndex_inj (a b : editFormModel) :
  focusValid a -> focusValid b ->
  len (hostInputs b) = len (hostInputs a) ->
  globalIndex b = globalIndex a ->
  focusArea b = focusArea a /\ focused b = focused a.
Proof.
  intros [_ [[Ha Hfa] | [Ha Hfa]]] [_ [[Hb Hfb] | [Hb Hfb]]] Hl;
    unfold globalIndex; rewrite Ha, Hb; simpl; intros Hg; split; try congruence; lia.
Qed.

Lemma isBack_not_enter (s : string) : isBack s = true -> String.eqb s "enter" = false.
Proof.
  unfold isBack. intros H. apply orb_true_iff in H as [H | H]; apply String.eqb_eq in H; by subst s.
Qed.

(** X27 ([Update], keys tab, shift+tab, enter, up, down; [updateFocus]).
    On a form whose focus is on an existing field, a navigation key submits
    the form exactly when it is enter on the last field; otherwise it does
    not panic, moves the focus one field forward, or one field back for up
    and shift+tab, going around at the ends, leaves every value as it is,
    and afterwards exactly the input the model points at has the focus. *)
Theorem navigate_moves_focus_one_field (s : string) (m : editFormModel) :
  focusValid m ->
  (navigate s m = Submit <-> s = "enter" /\ globalIndex m = (totalFields m - 1)%Z)
  /\ (navigate s m <> Submit ->
      exists m', navigate s m = Moved (Some m')
                 /\ focusValid m'
                 /\ globalIndex m' = nextIndex s m
                 /\ map value (hostInputs m') = map value (hostInputs m)
                 /\ map value (inputs m') = map value (inputs m)
                 /\ focusShown m').
Proof.
  intros Hv.
  destruct (String.eqb s "enter" && (globalIndex m =? totalFields m - 1)%Z) eqn:Hc.
  - assert (Hs : navigate s m = Submit) by (by rewrite (navigate_step s m Hv), Hc).
    apply andb_true_iff in Hc as [He Hg].
    apply String.eqb_eq in He. apply Z.eqb_eq in Hg.
    split; [by split | by intros []].
  - destruct (navigate_moved s m Hv Hc) as (m' & Hm' & Hv' & Hg' & _ & _ & Hh & Hp & Hs).
    split.
    + split; [by rewrite Hm' |].
      intros [-> Hg]. apply Z.eqb_eq in Hg. by rewrite Hg in Hc.
    + intros _. by exists m'.
Qed.

(** X28 ([Update], keys tab, shift+tab, up, down). Moving the focus forward
    and then back brings it to the field where it was, with every value
    unchanged. *)
Theorem navigate_forward_then_back (f b : string) (m m1 : editFormModel) :
  focusValid m ->
  isBack f = false -> isBack b = true ->
  navigate f m = Moved (Some m1) ->
  exists m2, navigate b m1 = Moved (Some m2)
             /\ focusArea m2 = focusArea m /\ focused m2 = focused m
             /\ map value (hostInputs m2) = map value (hostInputs m)
             /\ map value (inputs m2) = map value (inputs m)
             /\ focusShown m2.
Proof.
  intros Hv Hf Hb H1.
  destruct (String.eqb f "enter" && (globalIndex m =? totalFields m - 1)%Z) eqn:Hc.
  { by rewrite (navigate_step f m Hv), Hc in H1. }
  destruct (navigate_moved f m Hv Hc) as (m1' & Hm1 & Hv1 & Hg1 & Ht1 & Hl1 & Hh1 & Hp1 & _).
  rewrite Hm1 in H1. injection H1 as ->.
  assert (Hc2 : String.eqb b "enter" && (globalIndex m1 =? totalFields m1 - 1)%Z = false)
    by (by rewrite (isBack_not_enter b Hb)).
  destruct (navigate_moved b m1 Hv1 Hc2) as (m2 & Hm2 & Hv2 & Hg2 & Ht2 & Hl2 & Hh2 & Hp2 & Hs2).
  exists m2. split; [done |].
  assert (Hg : globalIndex m2 = globalIndex m).
  { rewrite Hg2. unfold nextIndex. rewrite Hb, Hg1, Ht1. unfold nextIndex. rewrite Hf.
    destruct (globalIndex_range m Hv) as [Hr _].
    destruct (Z.eqb_spec (globalIndex m) (totalFields m - 1)).
    - simpl. lia.
    - destruct (Z.eqb_spec (globalIndex m + 1) 0); lia. }
  destruct (globalIndex_inj m m2 Hv Hv2) as [Ea Ef]; [congruence | done |].
  split; [done |]. split; [done |].
  split; [congruence |]. split; [congruence | done].
Qed.

Lemma updateAt_Some (g : input -> input) (i : Z) (l : list input) :
  (0 <= i < len l)%Z ->
  exists x, l !! Z.to_nat i = Some x /\ updateAt g i l = Some (<[Z.to_nat i := g x]> l).
Proof.
  intros [H0 Hlt]. unfold updateAt.
  destruct (Z.ltb_spec i 0); [lia |].
  destruct (lookup_lt_is_Some_2 l (Z.to_nat i)) as [x Hx]; [unfold len in Hlt; lia |].
  exists x. by rewrite Hx.
Qed.

Lemma map_value_insert (g : input -> input) (i : nat) (x : input) (l : list input) :
  (forall y, value (g y) = value y) -> l !! i = Some x ->
  map value (<[i := g x]> l) = map value l.
Proof.
  intros Hg Hx. change (value <$> <[i := g x]> l = value <$> l).
  rewrite list_fmap_insert, Hg. apply list_insert_id.
  by rewrite list_lookup_fmap, Hx.
Qed.

(** The list without its element at [n]. *)
Definition without (n : nat) {A} (l : list A) : list A := (take n l ++ drop (S n) l)%list.

Lemma without_lookup {A} (n j : nat) (l : list A) :
  (n < length l)%nat ->
  without n l !! j = if decide (j < n)%nat then l !! j else l !! S j.
Proof.
  intros Hn. unfold without. destruct (decide (j < n)%nat) as [Hj | Hj].
  - rewrite lookup_app_l by (rewrite length_take; lia). by rewrite lookup_take_lt.
  - rewrite lookup_app_r by (rewrite length_take; lia).
    rewrite length_take, lookup_drop. f_equal. lia.
Qed.

Lemma without_length {A} (n : nat) (l : list A) :
  (n < length l)%nat -> length (without n l) = (length l - 1)%nat.
Proof. intros Hn. unfold without. rewrite length_app, length_take, length_drop. lia. Qed.

(** X29 ([deleteHostInput]). With a single host input, or with the focus
    on the properties, nothing is deleted. Otherwise, on a form whose focus
    is on an existing host input, the focused host input is removed and the
    others keep their order and values, the properties are untouched, the
    focus stays at the same position or moves to the new last host input,
    and exactly that input has the focus; at least one host input always
    remains. *)
Theorem deleteHostInput_removes_focused_host (m : editFormModel) :
  focusValid m -> focusShown m ->
  ((len (hostInputs m) <= 1)%Z \/ focusArea m <> focusAreaHosts -> deleteHostInput m = Some m)
  /\ ((1 < len (hostInputs m))%Z -> focusArea m = focusAreaHosts ->
      exists m', deleteHostInput m = Some m'
                 /\ map value (hostInputs m')
                    = without (Z.to_nat (focused m)) (map value (hostInputs m))
                 /\ inputs m' = inputs m
                 /\ focusArea m' = focusAreaHosts
                 /\ focused m' = Z.min (focused m) (len (hostInputs m) - 2)
                 /\ (1 <= len (hostInputs m'))%Z
                 /\ focusValid m' /\ focusShown m').
Proof.
  intros Hv Hs. split.
  - intros H. unfold deleteHostInput.
    destruct (Z.leb_spec (len (hostInputs m)) 1); [done |].
    destruct (Z.eqb_spec (focusArea m) focusAreaHosts); [| done].
    destruct H; [lia | done].
  - intros Hlen Ha.
    destruct Hv as [Ht [[_ Hf] | [Ha' _]]]; [| by rewrite Ha in Ha'].
    destruct Hs as [Hsh Hsp].
    unfold hostFocus in Hsh. unfold propertyFocus in Hsp. rewrite Ha in Hsh, Hsp. simpl in Hsh, Hsp.
    pose proof (len_nonneg (inputs m)) as Hip.
    unfold totalFields in Ht.
    unfold deleteHostInput. rewrite Ha. simpl.
    destruct (Z.leb_spec (len (hostInputs m)) 1); [lia |]. simpl.
    rewrite (wrap_small (focused m + 1)) by lia.
    destruct (Z.ltb_spec (focused m) 0); [lia |].
    destruct (Z.ltb_spec (focused m + 1) 0); [lia |].
    destruct (Z.ltb_spec (len (hostInputs m)) (focused m + 1)); [lia |]. simpl.
    replace (Z.to_nat (focused m + 1)) with (S (Z.to_nat (focused m))) by lia.
    fold (without (Z.to_nat (focused m)) (hostInputs m)).
    set (n := Z.to_nat (focused m)).
    set (hs := without n (hostInputs m)).
    assert (Hn : (n < length (hostInputs m))%nat) by (unfold len in Hf; lia).
    assert (Hhs : len hs = (len (hostInputs m) - 1)%Z).
    { unfold len, hs. rewrite without_length by done. unfold len in Hlen. lia. }
    rewrite Hhs. rewrite (wrap_small (len (hostInputs m) - 1 - 1)) by lia.
    destruct (Z.ltb_spec 0 (len (hostInputs m) - 1)); [| lia].
    set (focused' := if (len (hostInputs m) - 1 <=? focused m)%Z
                     then (len (hostInputs m) - 1 - 1)%Z else focused m).
    assert (Hf' : focused' = Z.min (focused m) (len (hostInputs m) - 2)).
    { unfold focused'. destruct (Z.leb_spec (len (hostInputs m) - 1) (focused m)); lia. }
    assert (Hr : (0 <= focused' < len hs)%Z) by lia.
    destruct (updateAt_Some Focus focused' hs Hr) as (x & Hx & ->).
    eexists. split; [done |]. simpl.
    assert (Hvals : map value (<[Z.to_nat focused' := Focus x]> hs)
                    = without n (map value (hostInputs m))).
    { rewrite (map_value_insert Focus _ x hs) by done.
      unfold hs, without. by rewrite map_app, <- !fmap_take, <- !fmap_drop. }
    split; [done |]. split; [done |]. split; [done |]. split; [done |].
    assert (Hl' : len (<[Z.to_nat focused' := Focus x]> hs) = len hs)
      by (unfold len; by rewrite length_insert).
    split; [lia |]. split.
    + split; [unfold totalFields; simpl; lia |].
      left. simpl. split; [done | lia].
    + split; unfold hostFocus, propertyFocus; simpl; [| done].
      intros j y Hj. destruct (decide (j = Z.to_nat focused')) as [-> | Hne].
      * rewrite list_lookup_insert_eq in Hj by (unfold len in Hr; lia).
        injection Hj as <-. simpl. by rewrite bool_decide_eq_true_2.
      * rewrite list_lookup_insert_ne in Hj by done.
        rewrite (bool_decide_eq_false_2 (Some (Z.to_nat focused') = Some j)) by congruence.
        unfold hs in Hj. rewrite without_lookup in Hj by done.
        destruct (decide (j < n)%nat).
        -- rewrite (Hsh j y Hj). apply bool_decide_eq_false_2. intros [= E]. fold n in E. lia.
        -- rewrite (Hsh (S j) y Hj). apply bool_decide_eq_false_2. intros [= E]. fold n in E. lia.
Qed.

(** X30 ([addHostInput]). On a form whose focus is on an existing field and
    shown by the inputs, adding a host input does not panic: an empty input
    is appended after the host inputs, the other values stay, the focus
    moves to the new input, and exactly the new input has the focus. *)
Theorem addHostInput_appends_and_focuses (m : editFormModel) :
  focusValid m -> focusShown m -> (totalFields m + 1 < maxInt)%Z ->
  exists m', addHostInput m = Some m'
             /\ map value (hostInputs m') = (map value (hostInputs m) ++ [EmptyString])%list
             /\ map value (inputs m') = map value (inputs m)
             /\ focusArea m' = focusAreaHosts
             /\ focused m' = len (hostInputs m)
             /\ focusValid m' /\ focusShown m'.
Proof.
  intros [_ Hv] [Hsh Hsp] Ht.
  pose proof (len_nonneg (hostInputs m)) as Hih. pose proof (len_nonneg (inputs m)) as Hip.
  unfold totalFields in Ht. unfold hostFocus in Hsh. unfold propertyFocus in Hsp.
  assert (Hlast : forall hs : list input, len hs = len (hostInputs m) ->
            wrap (len (hs ++ [newFocusedInput])%list - 1) = len (hostInputs m)).
  { intros hs E. unfold len in *. rewrite length_app. simpl. rewrite wrap_small; lia. }
  assert (Happ : forall hs : list input, length hs = length (hostInputs m) ->
            focusOnlyAt None hs ->
            focusOnlyAt (Some (Z.to_nat (len (hostInputs m)))) (hs ++ [newFocusedInput])%list).
  { intros hs E Hnone j y Hj. unfold len. rewrite Nat2Z.id, <- E.
    destruct (decide (j < length hs)%nat) as [Hlt | Hge].
    - rewrite lookup_app_l in Hj by done. rewrite (Hnone j y Hj).
      rewrite !bool_decide_eq_false_2; [done | intros [= E']; lia | done].
    - rewrite lookup_app_r in Hj by lia.
      destruct (j - length hs)%nat as [| k] eqn:Ek; [| done].
      injection Hj as <-. simpl. rewrite bool_decide_eq_true_2; [done | f_equal; lia]. }
  assert (Hblur : forall (pos : nat) (l : list input) (x : input),
            focusOnlyAt (Some pos) l -> focusOnlyAt None (<[pos := Blur x]> l)).
  { intros pos l x Hl j y Hj. rewrite bool_decide_eq_false_2 by done.
    destruct (decide (j = pos)) as [-> | Hne].
    - destruct (decide (pos < length l)%nat).
      + rewrite list_lookup_insert_eq in Hj by done. by injection Hj as <-.
      + rewrite list_insert_ge in Hj by lia. apply lookup_lt_Some in Hj. lia.
    - rewrite list_lookup_insert_ne in Hj by done.
      rewrite (Hl j y Hj). apply bool_decide_eq_false_2. congruence. }
  unfold addHostInput.
  destruct Hv as [[Ha Hf] | [Ha Hf]]; rewrite Ha in *; simpl in Hsh, Hsp; simpl.
  - destruct (Z.ltb_spec (focused m) (len (hostInputs m))); [| lia].
    destruct (updateAt_Some Blur (focused m) (hostInputs m) Hf) as (x & Hx & ->).
    eexists. split; [done |]. simpl.
    assert (El : length (<[Z.to_nat (focused m) := Blur x]> (hostInputs m)) = length (hostInputs m))
      by apply length_insert.
    rewrite Hlast by (unfold len; by rewrite El).
    split; [rewrite map_app; by rewrite (map_value_insert Blur _ x) |].
    split; [done |]. split; [done |]. split; [done |]. split.
    + split; [unfold totalFields, len; simpl; rewrite length_app, El; simpl; unfold len in *; lia |].
      left. simpl. split; [done |]. unfold len. rewrite length_app, El. simpl. lia.
    + split; unfold hostFocus, propertyFocus; simpl; [| done].
      apply Happ; [done |]. by apply Hblur.
  - destruct (Z.ltb_spec (focused m) (len (inputs m))); [| lia].
    destruct (updateAt_Some Blur (focused m) (inputs m) Hf) as (x & Hx & ->).
    eexists. split; [done |]. simpl.
    rewrite Hlast by done.
    split; [by rewrite map_app |].
    split; [by rewrite (map_value_insert Blur _ x) |].
    split; [done |]. split; [done |]. split.
    + split; [unfold totalFields, len; simpl; rewrite length_app, length_insert; simpl; unfold len in *; lia |].
      left. simpl. split; [done |]. unfold len. rewrite length_app. simpl. lia.
    + split; unfold hostFocus, propertyFocus; simpl.
      * by apply Happ.
      * by apply Hblur.
Qed.

(** A form with two host names and two properties, the focus on the first
    host name. *)
Definition formOfAlice : editFormModel :=
  mkEditForm [mkInput "web" true; mkInput "db" false]
             [mkInput "example.com" false; mkInput "alice" false]
             focusAreaHosts 0.

Lemma formOfAlice_valid : focusValid formOfAlice.
Proof.
  split; [reflexivity |]. left. split; [reflexivity |]. split; [discriminate | reflexivity].
Defined.

Lemma formOfAlice_shown : focusShown formOfAlice.
Proof. apply focusShown_checked. reflexivity. Defined.

Lemma navigate_moves_focus_one_field_witness :
  exists m', navigate "up" formOfAlice = Moved (Some m')
             /\ globalIndex m' = 3%Z
             /\ map value (inputs m') = ["example.com"; "alice"].
Proof.
  destruct (navigate_moves_focus_one_field "up" formOfAlice formOfAlice_valid) as [_ H].
  destruct H as (m' & Hm' & _ & Hg & _ & Hp & _); [discriminate |].
  exists m'. split; [exact Hm' |]. split; [exact Hg | exact Hp].
Defined.

Lemma navigate_forward_then_back_witness :
  exists m2,
    navigate "shift+tab"
      (mkEditForm [mkInput "web" false; mkInput "db" true]
                  [mkInput "example.com" false; mkInput "alice" false] focusAreaHosts 1)
    = Moved (Some m2)
    /\ focusArea m2 = focusAreaHosts /\ focused m2 = 0%Z.
Proof.
  destruct (navigate_forward_then_back "tab" "shift+tab" formOfAlice
              (mkEditForm [mkInput "web" false; mkInput "db" true]
                          [mkInput "example.com" false; mkInput "alice" false] focusAreaHosts 1)
              formOfAlice_valid eq_refl eq_refl eq_refl)
    as (m2 & Hm2 & Ha & Hf & _).
  exists m2. split; [exact Hm2 |]. split; [exact Ha | exact Hf].
Defined.

Lemma deleteHostInput_removes_focused_host_witness :
  exists m', deleteHostInput formOfAlice = Some m'
             /\ map value (hostInputs m') = ["db"]
             /\ focused m' = 0%Z.
Proof.
  destruct (proj2 (deleteHostInput_removes_focused_host formOfAlice
                     formOfAlice_valid formOfAlice_shown) eq_refl eq_refl)
    as (m' & Hm' & Hh & _ & _ & Hf & _).
  exists m'. split; [exact Hm' |]. split; [exact Hh | exact Hf].
Defined.

Lemma addHostInput_appends_and_focuses_witness :
  exists m', addHostInput formOfAlice = Some m'
             /\ map value (hostInputs m') = ["web"; "db"; EmptyString]
             /\ focused m' = 2%Z.
Proof.
  destruct (addHostInput_appends_and_focuses formOfAlice
              formOfAlice_valid formOfAlice_shown eq_refl)
    as (m' & Hm' & Hh & _ & _ & Hf & _).
  exists m'. split; [exact Hm' |]. split; [exact Hh | exact Hf].
Defined.

End EditFormFacts.
